(** * bmixer: the mixing engine and its schedulers

    A shallow embedding of [models.py], [config.py], [mixing_service.py],
    [tasks.py] and the form and [/mixer] route of [mixer_service.py].

    The ORM session is modelled as one store: an attribute assignment on a
    loaded row is visible at once to every later read (the identity map),
    a row handed to [db.session.add] enters its table when the commit that
    follows succeeds, and every interaction with the database or the wallet
    is a point where the environment may raise.  Python exceptions keep the
    mutations made before them, so the monad returns the store on both
    outcomes.

    The store is the session's view of the rows.  What the database keeps
    of the writes of a commit that raised, and whether the session answers
    a further commit before a rollback, is the library's matter and is not
    modelled: a run in which a commit is answered after an earlier one of
    the same call raised is a run of the model that the library may not
    allow. *)

From Stdlib Require Import ZArith QArith Qpower String List Lia Bool.
From stdpp Require Import base option list gmap strings.
Import ListNotations.

Local Open Scope string_scope.
Local Open Scope list_scope.
Local Open Scope Z_scope.

(** ** decimal.Decimal with the default context (prec = 28, ROUND_HALF_EVEN)

    A finite decimal is a signed coefficient and an exponent; NaN and the
    infinities are left out. *)

Record Decimal : Type := mkDecimal { coef : Z; expo : Z }.

Definition prec : Z := 28.

Fixpoint ndigits_aux (fuel : nat) (n : Z) : Z :=
  match fuel with
  | O => 1
  | S f => if n <? 10 then 1 else 1 + ndigits_aux f (n / 10)
  end.

(** Number of decimal digits of a non-negative coefficient. *)
Definition ndigits (n : Z) : Z := ndigits_aux (Z.to_nat (Z.log2 n)) n.

(** [Decimal._fix] for a finite number: keep [prec] significant digits,
    dropping the others by round-half-even. *)
Definition round_half_even (q r half : Z) : Z :=
  if (half <? r) || ((r =? half) && Z.odd q) then q + 1 else q.

Definition fix_prec (d : Decimal) : Decimal :=
  let c := Z.abs (coef d) in
  if c <? 10 ^ prec then d
  else
    let k := ndigits c - prec in
    let q := round_half_even (c / 10 ^ k) (c mod 10 ^ k) (5 * 10 ^ (k - 1)) in
    let '(q, k) := if q =? 10 ^ prec then (q / 10, k + 1) else (q, k) in
    mkDecimal (Z.sgn (coef d) * q) (expo d + k).

(** [a * b] *)
Definition dec_mul (a b : Decimal) : Decimal :=
  fix_prec (mkDecimal (coef a * coef b) (expo a + expo b)).

(** The coefficient of [d] written at exponent [e <= expo d]. *)
Definition dec_align (e : Z) (d : Decimal) : Z := coef d * 10 ^ (expo d - e).

(** [a - b] *)
Definition dec_sub (a b : Decimal) : Decimal :=
  let e := Z.min (expo a) (expo b) in
  fix_prec (mkDecimal (dec_align e a - dec_align e b) e).

(** Comparisons are numeric, as Python's [<], [>=] and [==] on Decimal. *)
Definition dec_ltb (a b : Decimal) : bool :=
  let e := Z.min (expo a) (expo b) in dec_align e a <? dec_align e b.

Definition dec_leb (a b : Decimal) : bool := negb (dec_ltb b a).

(** [bool(d)]: a Decimal is falsy exactly when it is zero. *)
Definition dec_truthy (d : Decimal) : bool := negb (coef d =? 0).

(** The number a Decimal denotes. *)
Definition dec_value (d : Decimal) : Q :=
  (inject_Z (coef d) * (10 # 1) ^ expo d)%Q.

(** No digit is lost by [dec_mul a b], resp. [dec_sub a b]. *)
Definition mul_exact (a b : Decimal) : bool :=
  Z.abs (coef a * coef b) <? 10 ^ prec.

Definition sub_exact (a b : Decimal) : bool :=
  let e := Z.min (expo a) (expo b) in
  Z.abs (dec_align e a - dec_align e b) <? 10 ^ prec.

(** A value as a [Numeric(16, 8)] column of PostgreSQL, the database of
    config.py, keeps it: eight decimal places, ties rounded away from
    zero, and at most eight digits before the point; a value that does not
    fit is refused. *)
Definition numeric_16_8 (d : Decimal) : option Decimal :=
  let c :=
    if -8 <=? expo d then coef d * 10 ^ (expo d + 8)
    else
      let k := - 8 - expo d in
      let q := Z.abs (coef d) / 10 ^ k in
      let r := Z.abs (coef d) mod 10 ^ k in
      Z.sgn (coef d) * (if 10 ^ k <=? 2 * r then q + 1 else q) in
  if Z.abs c <? 10 ^ 16 then Some (mkDecimal c (-8)) else None.

(** ** models.py *)

Inductive TransactionStatus : Type :=
  | PENDING | MIXING | COMPLETED | FAILED | CANCELLED.

#[global] Instance TransactionStatus_eq_dec : EqDecision TransactionStatus.
Proof. solve_decision. Defined.

(** Timestamps are microseconds since the epoch; a UUID primary key is a
    natural number. *)
Definition timedelta_minutes (m : Z) : Z := m * 60 * 1000000.
Definition timedelta_hours (h : Z) : Z := h * 3600 * 1000000.
Definition timedelta_days (d : Z) : Z := d * 86400 * 1000000.

Record MixingTransaction : Type := mkTx {
  session_id : string;
  input_amount : Decimal;
  fee_amount : Decimal;
  output_amount : Decimal;
  input_address : string;
  output_address : string;
  mixing_address : option string;
  status : TransactionStatus;
  mixing_rounds_completed : Z;
  input_txid : option string;
  output_txid : option string;
  created_at : Z;
  mixing_started_at : option Z;
  completed_at : option Z;
  scheduled_output_time : option Z;
  ip_hash : string;
  user_agent_hash : string;
  error_message : option string;
  retry_count : Z
}.

(** Of the other tables, the columns the operations read or write. *)
Record MixingPool : Type := mkPool {
  address : string;
  last_used : option Z;
  is_active : bool
}.

(** The action labels the engine writes into [MixingLog.action]. *)
Inductive Action : Type :=
  | CREATED
  | PAYMENT_RECEIVED
  | MIXING_ROUND (n : Z)
  | OUTPUT_SCHEDULED
  | OUTPUT_SENT.

#[global] Instance Action_eq_dec : EqDecision Action.
Proof. solve_decision. Defined.

(** Values of the JSON [details] payload; the string conversions of
    decimals, floats and datetimes are kept symbolic. *)
Inductive Detail : Type :=
  | DStr (s : string)
  | DNone
  | DInt (n : Z)
  | DDecimalStr (d : Decimal)
  | DHopAmountStr (d : Decimal)
  | DIsoformat (t : Z).

Record MixingLog : Type := mkLog {
  transaction_id : nat;
  timestamp : Z;
  action : Action;
  details : list (string * Detail)
}.

Record SecurityAlert : Type := mkAlert {
  alert_type : string;
  severity : string;
  alert_ip_hash : option string;
  alert_created_at : Z
}.

#[global] Instance SecurityAlert_eq_dec : EqDecision SecurityAlert.
Proof. solve_decision. Defined.

(** ** config.py: the mixer settings.  The three amounts are the values of
    [Decimal(str(...))] of the configured floats. *)
Record Config : Type := mkConfig {
  MIN_AMOUNT : Decimal;
  MAX_AMOUNT : Decimal;
  FEE_PERCENT : Decimal;
  MIXING_ROUNDS : Z;
  DELAY_MINUTES_MIN : Z;
  DELAY_MINUTES_MAX : Z
}.

(** ** The environment and the store *)

Inductive RpcCall : Type :=
  | RpcGetNewAddress (label : string)
  | RpcValidateAddress (addr : string)
  | RpcGetReceivedByAddress (addr : string)
  | RpcListReceivedByAddress (addr : string)
  | RpcSendToAddress (addr : string) (amount : Decimal).

(** What the outside answers to the [n]-th interaction: an exception
    ([fault]), or the value of the call made.  [py_float d] is the decimal
    expansion of [float(d)]; the rounding of floats is not modelled. *)
Record Env : Type := mkEnv {
  fault : nat -> option string;
  utc_clock : nat -> Z;
  uuid4 : nat -> nat;
  random_bits : nat -> Z;
  wallet_getnewaddress : nat -> string;
  wallet_validateaddress : nat -> string -> option bool;
  wallet_getreceivedbyaddress : nat -> string -> Decimal;
  wallet_listreceivedbyaddress : nat -> string -> list (list string);
  wallet_sendtoaddress : nat -> string;
  py_float : Decimal -> Decimal
}.

(** The tables, the wallet calls made and the tasks queued (logs and calls
    newest first), and the number of interactions so far. *)
Record World : Type := mkWorld {
  transactions : gmap nat MixingTransaction;
  mixing_pool : list MixingPool;
  mixing_logs : list MixingLog;
  security_alerts : list SecurityAlert;
  rpc_calls : list RpcCall;
  celery_queue : list nat;
  tick : nat
}.

Inductive Result (A : Type) : Type :=
  | Ok (a : A)
  | Raise (e : string).
Arguments Ok {A} a.
Arguments Raise {A} e.

Definition M (A : Type) : Type := World -> World * Result A.

Definition ret {A} (a : A) : M A := fun w => (w, Ok a).

Definition bind {A B} (m : M A) (k : A -> M B) : M B := fun w =>
  match m w with
  | (w', Ok a) => k a w'
  | (w', Raise e) => (w', Raise e)
  end.

Definition raise {A} (e : string) : M A := fun w => (w, Raise e).

(** [try: m  except Exception as e: h e] *)
Definition try_except {A} (m : M A) (h : string -> M A) : M A := fun w =>
  match m w with
  | (w', Ok a) => (w', Ok a)
  | (w', Raise e) => h e w'
  end.

Declare Scope mixer_scope.
Delimit Scope mixer_scope with mixer.
Notation "'let!' x ':=' m 'in' k" := (bind m (fun x => k))
  (at level 10, x name, m at level 100, k at level 200) : mixer_scope.
Notation "m ';;;' k" := (bind m (fun _ => k))
  (at level 100, k at level 200, right associativity) : mixer_scope.
Local Open Scope mixer_scope.

(** [for x in xs: body x] *)
Fixpoint for_each {A} (xs : list A) (body : A -> M unit) : M unit :=
  match xs with
  | [] => ret tt
  | x :: xs' => body x ;;; for_each xs' body
  end.

(** ** Field assignments *)

Definition set_mixing_address (v : option string) (t : MixingTransaction) : MixingTransaction :=
  mkTx (session_id t) (input_amount t) (fee_amount t) (output_amount t)
    (input_address t) (output_address t) v (status t)
    (mixing_rounds_completed t) (input_txid t) (output_txid t) (created_at t)
    (mixing_started_at t) (completed_at t) (scheduled_output_time t)
    (ip_hash t) (user_agent_hash t) (error_message t) (retry_count t).

Definition set_status (v : TransactionStatus) (t : MixingTransaction) : MixingTransaction :=
  mkTx (session_id t) (input_amount t) (fee_amount t) (output_amount t)
    (input_address t) (output_address t) (mixing_address t) v
    (mixing_rounds_completed t) (input_txid t) (output_txid t) (created_at t)
    (mixing_started_at t) (completed_at t) (scheduled_output_time t)
    (ip_hash t) (user_agent_hash t) (error_message t) (retry_count t).

Definition set_mixing_rounds_completed (v : Z) (t : MixingTransaction) : MixingTransaction :=
  mkTx (session_id t) (input_amount t) (fee_amount t) (output_amount t)
    (input_address t) (output_address t) (mixing_address t) (status t)
    v (input_txid t) (output_txid t) (created_at t)
    (mixing_started_at t) (completed_at t) (scheduled_output_time t)
    (ip_hash t) (user_agent_hash t) (error_message t) (retry_count t).

Definition set_input_txid (v : option string) (t : MixingTransaction) : MixingTransaction :=
  mkTx (session_id t) (input_amount t) (fee_amount t) (output_amount t)
    (input_address t) (output_address t) (mixing_address t) (status t)
    (mixing_rounds_completed t) v (output_txid t) (created_at t)
    (mixing_started_at t) (completed_at t) (scheduled_output_time t)
    (ip_hash t) (user_agent_hash t) (error_message t) (retry_count t).

Definition set_output_txid (v : option string) (t : MixingTransaction) : MixingTransaction :=
  mkTx (session_id t) (input_amount t) (fee_amount t) (output_amount t)
    (input_address t) (output_address t) (mixing_address t) (status t)
    (mixing_rounds_completed t) (input_txid t) v (created_at t)
    (mixing_started_at t) (completed_at t) (scheduled_output_time t)
    (ip_hash t) (user_agent_hash t) (error_message t) (retry_count t).

Definition set_mixing_started_at (v : option Z) (t : MixingTransaction) : MixingTransaction :=
  mkTx (session_id t) (input_amount t) (fee_amount t) (output_amount t)
    (input_address t) (output_address t) (mixing_address t) (status t)
    (mixing_rounds_completed t) (input_txid t) (output_txid t) (created_at t)
    v (completed_at t) (scheduled_output_time t)
    (ip_hash t) (user_agent_hash t) (error_message t) (retry_count t).

Definition set_completed_at (v : option Z) (t : MixingTransaction) : MixingTransaction :=
  mkTx (session_id t) (input_amount t) (fee_amount t) (output_amount t)
    (input_address t) (output_address t) (mixing_address t) (status t)
    (mixing_rounds_completed t) (input_txid t) (output_txid t) (created_at t)
    (mixing_started_at t) v (scheduled_output_time t)
    (ip_hash t) (user_agent_hash t) (error_message t) (retry_count t).

Definition set_error_message (v : option string) (t : MixingTransaction) : MixingTransaction :=
  mkTx (session_id t) (input_amount t) (fee_amount t) (output_amount t)
    (input_address t) (output_address t) (mixing_address t) (status t)
    (mixing_rounds_completed t) (input_txid t) (output_txid t) (created_at t)
    (mixing_started_at t) (completed_at t) (scheduled_output_time t)
    (ip_hash t) (user_agent_hash t) v (retry_count t).

Definition set_retry_count (v : Z) (t : MixingTransaction) : MixingTransaction :=
  mkTx (session_id t) (input_amount t) (fee_amount t) (output_amount t)
    (input_address t) (output_address t) (mixing_address t) (status t)
    (mixing_rounds_completed t) (input_txid t) (output_txid t) (created_at t)
    (mixing_started_at t) (completed_at t) (scheduled_output_time t)
    (ip_hash t) (user_agent_hash t) (error_message t) v.

(** The three [Numeric(16, 8)] columns of a row as the database stores
    them. *)
Definition set_amounts (i f o : Decimal) (t : MixingTransaction) : MixingTransaction :=
  mkTx (session_id t) i f o
    (input_address t) (output_address t) (mixing_address t) (status t)
    (mixing_rounds_completed t) (input_txid t) (output_txid t) (created_at t)
    (mixing_started_at t) (completed_at t) (scheduled_output_time t)
    (ip_hash t) (user_agent_hash t) (error_message t) (retry_count t).

Definition store_numeric_columns (t : MixingTransaction) : option MixingTransaction :=
  match numeric_16_8 (input_amount t), numeric_16_8 (fee_amount t),
        numeric_16_8 (output_amount t) with
  | Some i, Some f, Some o => Some (set_amounts i f o t)
  | _, _, _ => None
  end.

Definition with_transactions (f : gmap nat MixingTransaction -> gmap nat MixingTransaction)
    (w : World) : World :=
  mkWorld (f (transactions w)) (mixing_pool w) (mixing_logs w)
    (security_alerts w) (rpc_calls w) (celery_queue w) (tick w).

Definition with_mixing_pool (f : list MixingPool -> list MixingPool) (w : World) : World :=
  mkWorld (transactions w) (f (mixing_pool w)) (mixing_logs w)
    (security_alerts w) (rpc_calls w) (celery_queue w) (tick w).

Definition with_mixing_logs (f : list MixingLog -> list MixingLog) (w : World) : World :=
  mkWorld (transactions w) (mixing_pool w) (f (mixing_logs w))
    (security_alerts w) (rpc_calls w) (celery_queue w) (tick w).

Definition with_security_alerts (f : list SecurityAlert -> list SecurityAlert)
    (w : World) : World :=
  mkWorld (transactions w) (mixing_pool w) (mixing_logs w)
    (f (security_alerts w)) (rpc_calls w) (celery_queue w) (tick w).

Definition with_rpc_calls (f : list RpcCall -> list RpcCall) (w : World) : World :=
  mkWorld (transactions w) (mixing_pool w) (mixing_logs w)
    (security_alerts w) (f (rpc_calls w)) (celery_queue w) (tick w).

Definition with_celery_queue (f : list nat -> list nat) (w : World) : World :=
  mkWorld (transactions w) (mixing_pool w) (mixing_logs w)
    (security_alerts w) (rpc_calls w) (f (celery_queue w)) (tick w).

Definition next_tick (w : World) : World :=
  mkWorld (transactions w) (mixing_pool w) (mixing_logs w)
    (security_alerts w) (rpc_calls w) (celery_queue w) (S (tick w)).

Definition initial_world : World := mkWorld ∅ [] [] [] [] [] 0.

(** ** Primitive effects *)

Section Engine.

Variable env : Env.

(** A read of the environment that cannot raise ([datetime.utcnow],
    [random]). *)
Definition oracle {A} (answer : nat -> A) : M A := fun w =>
  (next_tick w, Ok (answer (tick w))).

(** An interaction that can raise (database, wallet). *)
Definition external {A} (answer : nat -> A) : M A := fun w =>
  match fault env (tick w) with
  | Some e => (next_tick w, Raise e)
  | None => (next_tick w, Ok (answer (tick w)))
  end.

(** [self.rpc.<method>(...)]; the invocation is recorded, newest first,
    whether or not it raises. *)
Definition rpc {A} (call : RpcCall) (answer : nat -> A) : M A := fun w =>
  external answer (with_rpc_calls (cons call) w).

Definition utcnow : M Z := oracle (utc_clock env).

(** [random.randint(a, b)] *)
Definition random_randint (a b : Z) : M Z :=
  if b <? a then raise "ValueError: empty range for randrange()"
  else oracle (fun n => a + random_bits env n mod (b - a + 1)).

(** [random.choice(seq)] *)
Definition random_choice (seq : list string) : M string :=
  match seq with
  | [] => raise "IndexError: Cannot choose from an empty sequence"
  | x :: _ =>
      oracle (fun n =>
        nth (Z.to_nat (random_bits env n mod Z.of_nat (length seq))) seq x)
  end.

(** [db.session.commit()] with nothing new to insert. *)
Definition db_commit : M unit := external (fun _ => tt).

(** [db.session.rollback()] *)
Definition db_rollback : M unit := external (fun _ => tt).

(** [MixingTransaction.query.get(id)] *)
Definition query_get (id : nat) : M (option MixingTransaction) :=
  external (fun _ => tt) ;;; fun w => (w, Ok (transactions w !! id)).

(** [MixingTransaction.query.filter(...).all()]: the primary keys of the
    rows that satisfy [p]. *)
Definition query_filter (p : MixingTransaction -> bool) : M (list nat) :=
  external (fun _ => tt) ;;;
  fun w => (w, Ok (map fst (filter (fun kv => p (snd kv))
                              (map_to_list (transactions w))))).

(** [transaction.<field>] and [transaction.<field> = v] on the row loaded
    under primary key [id]. *)
Definition getattr {A} (id : nat) (field : MixingTransaction -> A) : M A :=
  fun w =>
    match transactions w !! id with
    | Some t => (w, Ok (field t))
    | None => (w, Raise "ObjectDeletedError")
    end.

Definition setattr (id : nat) (f : MixingTransaction -> MixingTransaction) : M unit :=
  fun w => (with_transactions (alter f id) w, Ok tt).

(** [db.session.add(transaction); db.session.commit()] for a new
    transaction: the column defaults ([uuid4], [utcnow]) are drawn when the
    row is written, the amounts are stored as the [Numeric(16, 8)] columns
    keep them, and an amount that does not fit or a primary key already in
    use is refused.  Every later read of the row sees the stored values.
    The length limits of the string columns are not modelled. *)
Definition db_insert_transaction (row : Z -> MixingTransaction) : M nat :=
  let! n := external (fun n => n) in
  fun w =>
    let id := uuid4 env n in
    match store_numeric_columns (row (utc_clock env n)) with
    | None => (w, Raise "DataError: numeric field overflow")
    | Some stored =>
        match transactions w !! id with
        | Some _ => (w, Raise "IntegrityError")
        | None => (with_transactions (insert id stored) w, Ok id)
        end
    end.

(** ** mixing_service.py *)

(** [_log_action]: [db.session.add(log); db.session.commit()] *)
Definition _log_action (transaction_id : nat) (action : Action)
    (details : list (string * Detail)) : M unit :=
  let! ts := external (utc_clock env) in
  fun w => (with_mixing_logs (cons (mkLog transaction_id ts action details)) w, Ok tt).

Definition validate_bitcoin_address (address : string) : M bool :=
  try_except
    (let! result := rpc (RpcValidateAddress address)
                        (fun n => wallet_validateaddress env n address) in
     ret (default false result))
    (fun _ => ret false).

(** [ORDER BY last_used ASC], NULLs last, ties in table order. *)
Definition last_used_leb (a b : MixingPool) : bool :=
  match last_used a, last_used b with
  | Some x, Some y => x <=? y
  | Some _, None => true
  | None, Some _ => false
  | None, None => true
  end.

Fixpoint insert_by_last_used (p : MixingPool) (l : list MixingPool) : list MixingPool :=
  match l with
  | [] => [p]
  | q :: l' => if last_used_leb p q then p :: l else q :: insert_by_last_used p l'
  end.

Definition order_by_last_used (l : list MixingPool) : list MixingPool :=
  foldr insert_by_last_used [] l.

(** [MixingPool.query.filter_by(is_active=True).order_by(...).limit(count)] *)
Definition selected_pools (count : nat) (w : World) : list MixingPool :=
  take count
    (order_by_last_used (filter (fun p => is_active p = true) (mixing_pool w))).

Definition query_active_pools (count : nat) : M (list MixingPool) :=
  external (fun _ => tt) ;;; fun w => (w, Ok (selected_pools count w)).

Fixpoint generate_pool_addresses (n : nat) : M (list MixingPool) :=
  match n with
  | O => ret []
  | S n' =>
      let! new_address := rpc (RpcGetNewAddress "mixing_pool")
                              (wallet_getnewaddress env) in
      let! rest := generate_pool_addresses n' in
      ret (mkPool new_address None true :: rest)
  end.

(** The commit of the new pool rows; [address] is a unique column. *)
Definition db_insert_pools (new : list MixingPool) : M unit :=
  external (fun _ => tt) ;;;
  fun w =>
    if bool_decide (NoDup (map address (mixing_pool w ++ new)))
    then (with_mixing_pool (fun l => l ++ new) w, Ok tt)
    else (w, Raise "IntegrityError").

Definition get_mixing_pool_addresses (count : nat) : M (list string) :=
  let! pools := query_active_pools count in
  let! pools :=
    if (length pools <? count)%nat then
      let! new := generate_pool_addresses (count - length pools) in
      db_insert_pools new ;;;
      query_active_pools count
    else ret pools in
  ret (map address pools).

Definition create_mixing_transaction (config : Config)
    (input_amount : Decimal) (output_address session_id ip_hash user_agent_hash : string)
    : M nat :=
  let fee_amount := dec_mul input_amount (FEE_PERCENT config) in
  let output_amount := dec_sub input_amount fee_amount in
  let! input_address := rpc (RpcGetNewAddress "mixer_input")
                            (wallet_getnewaddress env) in
  let! delay_minutes := random_randint (DELAY_MINUTES_MIN config)
                                       (DELAY_MINUTES_MAX config) in
  let! now := utcnow in
  let scheduled_output_time := now + timedelta_minutes delay_minutes in
  let! id := db_insert_transaction (fun created =>
    mkTx session_id input_amount fee_amount output_amount
      input_address output_address None PENDING 0 None None created
      None None (Some scheduled_output_time) ip_hash user_agent_hash None 0) in
  _log_action id CREATED
    [("input_amount", DDecimalStr input_amount);
     ("output_address", DStr output_address);
     ("delay_minutes", DInt delay_minutes)] ;;;
  ret id.

Definition detail_of_option (o : option string) : Detail :=
  match o with Some s => DStr s | None => DNone end.

Definition check_incoming_payment (transaction_id : nat) : M bool :=
  let! found := query_get transaction_id in
  match found with
  | None => ret false
  | Some transaction =>
    try_except
      (let! received :=
         rpc (RpcGetReceivedByAddress (input_address transaction))
             (fun n => wallet_getreceivedbyaddress env n (input_address transaction)) in
       if dec_leb (py_float env (input_amount transaction)) received then
         let! txlist :=
           rpc (RpcListReceivedByAddress (input_address transaction))
               (fun n => wallet_listreceivedbyaddress env n (input_address transaction)) in
         match txlist with
         | (txid :: _) :: _ => setattr transaction_id (set_input_txid (Some txid))
         | _ => ret tt
         end ;;;
         setattr transaction_id (set_status MIXING) ;;;
         let! now := utcnow in
         setattr transaction_id (set_mixing_started_at (Some now)) ;;;
         db_commit ;;;
         let! txid := getattr transaction_id input_txid in
         _log_action transaction_id PAYMENT_RECEIVED
           [("amount", DDecimalStr received); ("txid", detail_of_option txid)] ;;;
         ret true
       else ret false)
      (fun _ => ret false)
  end.

Definition _schedule_output_transaction (transaction_id : nat) : M unit :=
  let! scheduled := getattr transaction_id scheduled_output_time in
  match scheduled with
  | None => raise "AttributeError: 'NoneType' object has no attribute 'isoformat'"
  | Some time =>
      let! output_address := getattr transaction_id output_address in
      _log_action transaction_id OUTPUT_SCHEDULED
        [("scheduled_time", DIsoformat time); ("output_address", DStr output_address)]
  end.

Definition perform_mixing_round (config : Config) (transaction_id : nat) : M bool :=
  let! found := query_get transaction_id in
  match found with
  | None => ret false
  | Some transaction =>
    if negb (bool_decide (status transaction = MIXING)) then ret false
    else
      try_except
        (let! pool_addresses := get_mixing_pool_addresses 5 in
         let! mixing_address' := random_choice pool_addresses in
         let! rounds := getattr transaction_id mixing_rounds_completed in
         let! from_address :=
           if rounds =? 0
           then (let! a := getattr transaction_id input_address in ret (Some a))
           else getattr transaction_id mixing_address in
         let! output_amount := getattr transaction_id output_amount in
         setattr transaction_id (set_mixing_address (Some mixing_address')) ;;;
         setattr transaction_id
           (fun t => set_mixing_rounds_completed (mixing_rounds_completed t + 1) t) ;;;
         let! rounds := getattr transaction_id mixing_rounds_completed in
         _log_action transaction_id (MIXING_ROUND rounds)
           [("from", detail_of_option from_address);
            ("to", DStr mixing_address');
            ("amount", DHopAmountStr output_amount)] ;;;
         let! rounds := getattr transaction_id mixing_rounds_completed in
         (if MIXING_ROUNDS config <=? rounds then
            setattr transaction_id (set_status COMPLETED) ;;;
            let! now := utcnow in
            setattr transaction_id (set_completed_at (Some now)) ;;;
            _schedule_output_transaction transaction_id
          else ret tt) ;;;
         db_commit ;;;
         ret true)
        (fun e =>
           setattr transaction_id (set_status FAILED) ;;;
           setattr transaction_id (set_error_message (Some e)) ;;;
           db_commit ;;;
           ret false)
  end.

Definition send_output_transaction (transaction_id : nat) : M bool :=
  let! found := query_get transaction_id in
  match found with
  | None => ret false
  | Some transaction =>
    if negb (bool_decide (status transaction = COMPLETED)) then ret false
    else
      try_except
        (let! address := getattr transaction_id output_address in
         let! amount := getattr transaction_id output_amount in
         let! txid := rpc (RpcSendToAddress address (py_float env amount))
                          (wallet_sendtoaddress env) in
         setattr transaction_id (set_output_txid (Some txid)) ;;;
         db_commit ;;;
         _log_action transaction_id OUTPUT_SENT
           [("txid", DStr txid);
            ("amount", DDecimalStr amount);
            ("address", DStr address)] ;;;
         ret true)
        (fun e =>
           setattr transaction_id (set_error_message (Some e)) ;;;
           setattr transaction_id (fun t => set_retry_count (retry_count t + 1) t) ;;;
           db_commit ;;;
           ret false)
  end.

(** ** tasks.py *)

(** The strings the tasks return. *)
Inductive TaskResult : Type :=
  | Checked (n : nat)
  | NotReadyForMixing (id : nat)
  | MixingFailed (id : nat)
  | MixingCompleted (id : nat)
  | ProcessedMixing (n : nat)
  | ProcessedOutputs (n : nat)
  | CleanedUp (n : nat)
  | TaskError (e : string).

(** [process_mixing.delay(id)] *)
Definition process_mixing_delay (id : nat) : M unit :=
  fun w => (with_celery_queue (fun q => q ++ [id]) w, Ok tt).

Definition check_pending_payments : M TaskResult :=
  try_except
    (let! now := utcnow in
     let! pending_txs := query_filter (fun t =>
       bool_decide (status t = PENDING)
       && (now - timedelta_hours 24 <=? created_at t)) in
     for_each pending_txs (fun tx =>
       let! paid := check_incoming_payment tx in
       if paid then process_mixing_delay tx else ret tt) ;;;
     ret (Checked (length pending_txs)))
    (fun e => ret (TaskError e)).

(** The [while] loop of [process_mixing].  [random] is not imported in
    tasks.py, so the delay between two rounds raises [NameError]. *)
Fixpoint process_mixing_loop (fuel : nat) (config : Config) (transaction_id : nat)
    : M TaskResult :=
  match fuel with
  | O => raise "RecursionError"
  | S fuel' =>
      let! rounds := getattr transaction_id mixing_rounds_completed in
      if rounds <? MIXING_ROUNDS config then
        let! ok := perform_mixing_round config transaction_id in
        if negb ok then ret (MixingFailed transaction_id)
        else
          (raise "NameError: name 'random' is not defined" : M unit) ;;;
          process_mixing_loop fuel' config transaction_id
      else ret (MixingCompleted transaction_id)
  end.

Definition process_mixing (config : Config) (transaction_id : nat) : M TaskResult :=
  try_except
    (let! found := query_get transaction_id in
     match found with
     | None => ret (NotReadyForMixing transaction_id)
     | Some transaction =>
         if negb (bool_decide (status transaction = MIXING))
         then ret (NotReadyForMixing transaction_id)
         else
           process_mixing_loop
             (S (Z.to_nat (MIXING_ROUNDS config - mixing_rounds_completed transaction)))
             config transaction_id
     end)
    (fun e => ret (TaskError e)).

Definition process_mixing_rounds (config : Config) : M TaskResult :=
  try_except
    (let! mixing_txs := query_filter (fun t => bool_decide (status t = MIXING)) in
     for_each mixing_txs (fun tx =>
       let! rounds := getattr tx mixing_rounds_completed in
       if rounds <? MIXING_ROUNDS config
       then (let! _ := perform_mixing_round config tx in ret tt)
       else ret tt) ;;;
     ret (ProcessedMixing (length mixing_txs)))
    (fun e => ret (TaskError e)).

(** The rows the payout-due task selects at time [now]. *)
Definition output_is_due (now : Z) (t : MixingTransaction) : bool :=
  bool_decide (status t = COMPLETED)
  && match scheduled_output_time t with
     | Some time => time <=? now
     | None => false
     end
  && bool_decide (output_txid t = None).

Definition send_scheduled_outputs : M TaskResult :=
  try_except
    (let! now := utcnow in
     let! ready_txs := query_filter (output_is_due now) in
     for_each ready_txs (fun tx =>
       let! _ := send_output_transaction tx in ret tt) ;;;
     ret (ProcessedOutputs (length ready_txs)))
    (fun e => ret (TaskError e)).

(** [SecurityAlert.query.filter(...).all()] *)
Definition query_alerts (p : SecurityAlert -> bool) : M (list SecurityAlert) :=
  external (fun _ => tt) ;;;
  fun w => (w, Ok (filter (fun a => p a = true) (security_alerts w))).

(** The commit of the deletions staged by [db.session.delete]. *)
Definition db_commit_deletes (old_txs : list nat) (old_alerts : list SecurityAlert)
    : M unit :=
  external (fun _ => tt) ;;;
  fun w =>
    (with_security_alerts (filter (fun a => a ∉ old_alerts))
       (with_transactions (fun m => foldr delete m old_txs) w), Ok tt).

Definition cleanup_old_transactions : M TaskResult :=
  try_except
    (let! now := utcnow in
     let cutoff_date := now - timedelta_days 30 in
     let! old_txs := query_filter (fun t => created_at t <? cutoff_date) in
     let count := length old_txs in
     let! old_alerts := query_alerts (fun a => alert_created_at a <? cutoff_date) in
     db_commit_deletes old_txs old_alerts ;;;
     ret (CleanedUp count))
    (fun e => db_rollback ;;; ret (TaskError e)).

(** ** mixer_service.py: the form and the [/mixer] route *)

Record MixerForm : Type := mkForm {
  amount : option Decimal;
  form_output_address : string
}.

Inductive Response : Type :=
  | RenderMixer
  | RenderMixerConfirm (transaction : nat)
  | Abort (code : Z).

(** [MixerForm.validate_amount]: [true] when no ValidationError is raised. *)
Definition validate_amount (config : Config) (data : Decimal) : bool :=
  negb (dec_ltb data (MIN_AMOUNT config)) && negb (dec_ltb (MAX_AMOUNT config) data).

(** [str.isspace] on the characters below 256: what [str.strip] removes. *)
Definition is_whitespace (c : Ascii.ascii) : bool :=
  let n := Ascii.nat_of_ascii c in
  ((9 <=? n) && (n <=? 13) || (28 <=? n) && (n <=? 32)
   || (n =? 133) || (n =? 160))%nat.

Fixpoint is_blank (s : string) : bool :=
  match s with
  | EmptyString => true
  | String c s' => is_whitespace c && is_blank s'
  end.

(** [DataRequired] on the two fields. *)
Definition amount_required (data : option Decimal) : bool :=
  match data with Some d => dec_truthy d | None => false end.

Definition output_address_required (data : string) : bool := negb (is_blank data).

Definition validate_amount_field (config : Config) (data : option Decimal) : bool :=
  match data with
  | Some d => dec_truthy d && validate_amount config d
  | None => false
  end.

(** [MixerForm.validate_output_address] after [DataRequired]. *)
Definition validate_output_address_field (data : string) : M bool :=
  if output_address_required data then validate_bitcoin_address data else ret false.

(** [form.validate_on_submit()] on a POST: every field is validated. *)
Definition validate_on_submit (config : Config) (form : MixerForm) : M bool :=
  let amount_ok := validate_amount_field config (amount form) in
  let! address_ok := validate_output_address_field (form_output_address form) in
  ret (amount_ok && address_ok).

(** [check_suspicious_activity]: [timedelta] is not imported in
    mixer_service.py, so building the filter raises [NameError]. *)
Definition check_suspicious_activity (ip_hash user_agent_hash : string) : M bool :=
  let! now := utcnow in
  raise "NameError: name 'timedelta' is not defined".

Definition mixer (config : Config) (form : MixerForm)
    (session_id ip_hash user_agent_hash : string) : M Response :=
  let! valid := validate_on_submit config form in
  if valid then
    try_except
      (let! ok := check_suspicious_activity ip_hash user_agent_hash in
       (if negb ok then raise "429 Too Many Requests" else ret tt) ;;;
       let! transaction :=
         create_mixing_transaction config (default (mkDecimal 0 0) (amount form))
           (form_output_address form) session_id ip_hash user_agent_hash in
       ret (RenderMixerConfirm transaction))
      (fun _ => ret (Abort 500))
  else ret RenderMixer.

(** ** The entry points of the repository *)

Inductive EntryPoint : Type :=
  | CreateTransaction (input_amount : Decimal)
      (output_address session_id ip_hash user_agent_hash : string)
  | MixerRoute (form : MixerForm) (session_id ip_hash user_agent_hash : string)
  | CheckPaymentRoute (transaction_id : nat)
  | CheckPendingPayments
  | ProcessMixing (transaction_id : nat)
  | ProcessMixingRounds
  | SendScheduledOutputs
  | CleanupOldTransactions.

Definition run (config : Config) (e : EntryPoint) (w : World) : World :=
  match e with
  | CreateTransaction a o s i u => fst (create_mixing_transaction config a o s i u w)
  | MixerRoute f s i u => fst (mixer config f s i u w)
  | CheckPaymentRoute id => fst (check_incoming_payment id w)
  | CheckPendingPayments => fst (check_pending_payments w)
  | ProcessMixing id => fst (process_mixing config id w)
  | ProcessMixingRounds => fst (process_mixing_rounds config w)
  | SendScheduledOutputs => fst (send_scheduled_outputs w)
  | CleanupOldTransactions => fst (cleanup_old_transactions w)
  end.

Inductive reachable (config : Config) : World -> Prop :=
  | reachable_initial : reachable config initial_world
  | reachable_run e w : reachable config w -> reachable config (run config e w).

End Engine.

(** * Vocabulary of the properties *)

(** [wp m Q E w]: running [m] from [w] ends in a store satisfying [Q] with
    the value returned, or [E] with the exception raised. *)
Definition wp {A} (m : M A) (Q : A -> World -> Prop) (E : string -> World -> Prop)
    (w : World) : Prop :=
  match m w with
  | (w', Ok a) => Q a w'
  | (w', Raise e) => E e w'
  end.

(** Every run of [m] relates the store before to the store after. *)
Definition steps {A} (R : World -> World -> Prop) (m : M A) : Prop :=
  forall w, R w (fst (m w)).

(** The assignments the engine makes to a loaded row, the round increment
    and the transition to COMPLETED apart. *)
Inductive engine_update : (MixingTransaction -> MixingTransaction) -> Prop :=
  | upd_input_txid v : engine_update (set_input_txid v)
  | upd_status s : s <> COMPLETED -> engine_update (set_status s)
  | upd_mixing_started_at v : engine_update (set_mixing_started_at v)
  | upd_mixing_address v : engine_update (set_mixing_address v)
  | upd_completed_at v : engine_update (set_completed_at v)
  | upd_error_message v : engine_update (set_error_message v)
  | upd_output_txid v : engine_update (set_output_txid v)
  | upd_retry_count :
      engine_update (fun t => set_retry_count (retry_count t + 1) t).

Definition increment_rounds (t : MixingTransaction) : MixingTransaction :=
  set_mixing_rounds_completed (mixing_rounds_completed t + 1) t.

(** The amounts of [t] are those a creation asked for [a] stores. *)
Definition stored_amounts_of (config : Config) (a : Decimal) (t : MixingTransaction)
    : Prop :=
  numeric_16_8 a = Some (input_amount t) /\
  numeric_16_8 (dec_mul a (FEE_PERCENT config)) = Some (fee_amount t) /\
  numeric_16_8 (dec_sub a (dec_mul a (FEE_PERCENT config))) = Some (output_amount t).

(** The row [create_mixing_transaction] inserts. *)
Definition is_new_row (config : Config) (t : MixingTransaction) : Prop :=
  status t = PENDING /\ mixing_rounds_completed t = 0 /\
  exists a, stored_amounts_of config a t.

(** ** Rows across an operation *)

(** What a later operation leaves of a row: the three amounts, and a round
    counter that did not go down. *)
Definition row_keeps (t t' : MixingTransaction) : Prop :=
  input_amount t' = input_amount t /\
  fee_amount t' = fee_amount t /\
  output_amount t' = output_amount t /\
  mixing_rounds_completed t <= mixing_rounds_completed t'.

(** Every row is still there, and kept. *)
Definition rows_evolve (w w' : World) : Prop :=
  forall id t, transactions w !! id = Some t ->
    exists t', transactions w' !! id = Some t' /\ row_keeps t t'.

(** Every row still there is as it was. *)
Definition rows_survive (w w' : World) : Prop :=
  forall id t, transactions w' !! id = Some t -> transactions w !! id = Some t.

(** Every row present before and after is kept. *)
Definition rows_kept (w w' : World) : Prop :=
  forall id t t', transactions w !! id = Some t ->
    transactions w' !! id = Some t' -> row_keeps t t'.

Definition same_transactions (w w' : World) : Prop :=
  transactions w' = transactions w.

(** Neither a transaction nor a log entry was written. *)
Definition same_ledger (w w' : World) : Prop :=
  transactions w' = transactions w /\ mixing_logs w' = mixing_logs w.

(** The log entries of one transaction, and how many carry a given label. *)
Definition logs_of (id : nat) (w : World) : list MixingLog :=
  filter (fun l => transaction_id l = id) (mixing_logs w).

Definition count_logs (id : nat) (a : Action) (w : World) : nat :=
  length (filter (fun l => action l = a) (logs_of id w)).

(** Neither the row stored under [id] nor its log entries changed. *)
Definition row_untouched (id : nat) (w w' : World) : Prop :=
  transactions w' !! id = transactions w !! id /\ logs_of id w' = logs_of id w.

(** ** The round counter against the configured round count *)




(** ** Payouts *)

(** The wallet transfers requested so far. *)
Fixpoint count_sends (calls : list RpcCall) : nat :=
  match calls with
  | [] => O
  | RpcSendToAddress _ _ :: rest => S (count_sends rest)
  | _ :: rest => count_sends rest
  end.

(** The transactions the payout-due task selects from [w] at time [now]. *)
Definition due_outputs (now : Z) (w : World) : list (nat * MixingTransaction) :=
  filter (fun kv => output_is_due now (snd kv)) (map_to_list (transactions w)).

(** The body of the loop of [send_scheduled_outputs]. *)
Definition send_each (env : Env) (tx : nat) : M unit :=
  let! _ := send_output_transaction env tx in ret tt.

(** ** A concrete run

    A wallet that never fails, hands out the addresses "A", "B", ... in
    turn, has seen 1.0 arrive at every address and confirms every payout
    under a reference of its own; one minute passes between two
    interactions, primary keys are drawn in sequence and every random draw
    is the first candidate. *)
Definition demo_address (n : nat) : string :=
  String (Ascii.ascii_of_nat (65 + n)) "".

Definition demo_env : Env :=
  mkEnv (fun _ => None) (fun n => Z.of_nat n * 60000000) (fun n => n) (fun _ => 0)
    demo_address (fun _ _ => Some true)
    (fun _ _ => mkDecimal 10 (-1)) (fun _ _ => [["funding"]])
    (fun n => String.append "payout-" (demo_address n))
    (fun d => d).

(** The same, with the exception [e] raised at interaction [n]. *)
Definition failing_at (n : nat) (e : string) (env : Env) : Env :=
  mkEnv (fun k => if (k =? n)%nat then Some e else None)
    (utc_clock env) (uuid4 env) (random_bits env)
    (wallet_getnewaddress env) (wallet_validateaddress env)
    (wallet_getreceivedbyaddress env) (wallet_listreceivedbyaddress env)
    (wallet_sendtoaddress env) (py_float env).

(** The same, with [e] raised at interaction [n] and at every later one. *)
Definition failing_from (n : nat) (e : string) (env : Env) : Env :=
  mkEnv (fun k => if (n <=? k)%nat then Some e else None)
    (utc_clock env) (uuid4 env) (random_bits env)
    (wallet_getnewaddress env) (wallet_validateaddress env)
    (wallet_getreceivedbyaddress env) (wallet_listreceivedbyaddress env)
    (wallet_sendtoaddress env) (py_float env).

(** The same, with the clock 31 days ahead. *)
Definition a_month_later (env : Env) : Env :=
  mkEnv (fault env) (fun n => utc_clock env n + timedelta_days 31)
    (uuid4 env) (random_bits env)
    (wallet_getnewaddress env) (wallet_validateaddress env)
    (wallet_getreceivedbyaddress env) (wallet_listreceivedbyaddress env)
    (wallet_sendtoaddress env) (py_float env).

(** The same, with only half of the amount seen at every address. *)
Definition half_paid (env : Env) : Env :=
  mkEnv (fault env) (utc_clock env) (uuid4 env) (random_bits env)
    (wallet_getnewaddress env) (wallet_validateaddress env)
    (fun _ _ => mkDecimal 5 (-1)) (wallet_listreceivedbyaddress env)
    (wallet_sendtoaddress env) (py_float env).

(** The defaults of config.py. *)
Definition demo_config : Config :=
  mkConfig (mkDecimal 1 (-3)) (mkDecimal 100 0) (mkDecimal 3 (-2)) 3 10 60.

(** One transaction of 1.0, from creation to payout. *)
Definition demo_created : World :=
  run demo_env demo_config
    (CreateTransaction (mkDecimal 10 (-1)) "destination" "session" "ip" "agent")
    initial_world.

Definition demo_funded : World :=
  run demo_env demo_config (CheckPaymentRoute 3) demo_created.

Definition demo_round1 : World :=
  run demo_env demo_config ProcessMixingRounds demo_funded.

Definition demo_round2 : World :=
  run demo_env demo_config ProcessMixingRounds demo_round1.

Definition demo_completed : World :=
  run demo_env demo_config ProcessMixingRounds demo_round2.

Definition demo_paid : World :=
  run demo_env demo_config SendScheduledOutputs demo_completed.

(** The funded transaction after a round in which the wallet failed while
    the pool was being filled, resp. in which the database went down
    before the commit that ends the round. *)
Definition demo_failed : World :=
  fst (perform_mixing_round (failing_at 13 "wallet down" demo_env) demo_config 3
         demo_funded).

Definition demo_failed_late : World :=
  fst (perform_mixing_round (failing_from 22 "database down" demo_env) demo_config 3
         demo_funded).

(** A request the form refuses twice over: 1000 is above the maximum
    amount and the address is blank. *)
Definition demo_invalid_form : MixerForm := mkForm (Some (mkDecimal 1000 0)) "".

(** 0.00100050, an amount of eight decimal places within the bounds of the
    form: at the rate 0.03 its fee, 0.0000300150, has ten. *)
Definition demo_fine_amount : Decimal := mkDecimal 100050 (-8).

Definition demo_created_fine : World :=
  run demo_env demo_config
    (CreateTransaction demo_fine_amount "destination" "session" "ip" "agent")
    initial_world.

Definition demo_valid_form : MixerForm :=
  mkForm (Some (mkDecimal 10 (-1))) "destination".

(** * The read side: status report and the two transaction routes *)

(** [TransactionStatus.<member>.value] of models.py. *)
Definition status_value (s : TransactionStatus) : string :=
  match s with
  | PENDING => "pending"
  | MIXING => "mixing"
  | COMPLETED => "completed"
  | FAILED => "failed"
  | CANCELLED => "cancelled"
  end.

(** The dict [get_transaction_status] returns, one field per key; the
    string conversions of the id, the decimals and the datetimes are kept
    symbolic. *)
Record StatusReport : Type := mkStatusReport {
  report_id : nat;
  report_status : string;
  report_input_address : string;
  report_input_amount : Decimal;
  report_output_amount : Decimal;
  report_fee_amount : Decimal;
  report_mixing_rounds_completed : Z;
  report_created_at : Z;
  report_scheduled_output_time : option Z;
  report_input_txid : option string;
  report_output_txid : option string
}.

(** The JSON body of [/api/check_payment/<id>]. *)
Record PaymentReport : Type := mkPaymentReport {
  payment_transaction_id : nat;
  payment_received : bool;
  payment_status : string;
  payment_input_address : string;
  payment_expected_amount : Decimal
}.

Inductive StatusPage : Type :=
  | StatusRendered (status : StatusReport)
  | StatusAborted (code : Z).

Inductive PaymentResponse : Type :=
  | PaymentJson (body : PaymentReport)
  | PaymentError (code : Z).

Section Routes.

Variable env : Env.

(** mixing_service.py, [get_transaction_status] *)
Definition get_transaction_status (transaction_id : nat) : M (option StatusReport) :=
  let! found := query_get env transaction_id in
  match found with
  | None => ret None
  | Some transaction =>
      ret (Some (mkStatusReport transaction_id
                   (status_value (status transaction))
                   (input_address transaction)
                   (input_amount transaction)
                   (output_amount transaction)
                   (fee_amount transaction)
                   (mixing_rounds_completed transaction)
                   (created_at transaction)
                   (scheduled_output_time transaction)
                   (input_txid transaction)
                   (output_txid transaction)))
  end.

(** mixer_service.py, [/status/<transaction_id>].  [session_sid] is
    [session.get('session_id')], which [create_session] sets before every
    request. *)
Definition transaction_status (transaction_id : nat) (session_sid : string)
    : M StatusPage :=
  let! status := get_transaction_status transaction_id in
  match status with
  | None => ret (StatusAborted 404)
  | Some report =>
      let! found := query_get env transaction_id in
      match found with
      | None => raise "AttributeError: 'NoneType' object has no attribute 'session_id'"
      | Some transaction =>
          if negb (String.eqb (session_id transaction) session_sid)
          then ret (StatusAborted 403)
          else ret (StatusRendered report)
      end
  end.

(** mixer_service.py, [/api/check_payment/<transaction_id>]: the body is
    built from the loaded row after the check has run. *)
Definition check_payment (transaction_id : nat) (session_sid : string)
    : M PaymentResponse :=
  let! found := query_get env transaction_id in
  match found with
  | None => ret (PaymentError 404)
  | Some transaction =>
      if negb (String.eqb (session_id transaction) session_sid)
      then ret (PaymentError 403)
      else
        let! received := check_incoming_payment env transaction_id in
        let! status_now := getattr transaction_id status in
        let! input_address_now := getattr transaction_id input_address in
        let! input_amount_now := getattr transaction_id input_amount in
        ret (PaymentJson (mkPaymentReport transaction_id received
                            (status_value status_now)
                            input_address_now input_amount_now))
  end.

End Routes.

(** * Vocabulary of the further properties *)

(** The pool entries a selection draws from. *)
Definition active_pools (w : World) : list MixingPool :=
  filter (fun p => is_active p = true) (mixing_pool w).

(** The wallet calls made since [w], newest first. *)
Definition calls_since (w w' : World) (calls : list RpcCall) : Prop :=
  rpc_calls w' = calls ++ rpc_calls w.

(** What no operation changes of a row once it is created. *)
Definition same_identity (t t' : MixingTransaction) : Prop :=
  session_id t' = session_id t /\
  input_address t' = input_address t /\
  output_address t' = output_address t /\
  created_at t' = created_at t /\
  scheduled_output_time t' = scheduled_output_time t /\
  ip_hash t' = ip_hash t /\
  user_agent_hash t' = user_agent_hash t.

Definition identities_kept (w w' : World) : Prop :=
  forall id t, transactions w !! id = Some t ->
    exists t', transactions w' !! id = Some t' /\ same_identity t t'.

(** The round counter of [id] went up by at most one. *)
Definition at_most_one_round (id : nat) (w w' : World) : Prop :=
  forall t, transactions w !! id = Some t ->
    exists t', transactions w' !! id = Some t' /\
      mixing_rounds_completed t <= mixing_rounds_completed t'
        <= mixing_rounds_completed t + 1.

(** Since [w] the wallet was asked for new pool addresses and nothing
    else. *)
Definition asked_for_pool_addresses_only (w w' : World) : Prop :=
  exists k, calls_since w w' (replicate k (RpcGetNewAddress "mixing_pool")).

(** The completed run with one alert recorded at time 0. *)
Definition demo_alerted : World :=
  with_security_alerts
    (fun _ => [mkAlert "RATE_LIMIT_EXCEEDED" "medium" None 0]) demo_completed.

(** What a check that answers True has done. *)
Definition payment_detected (env : Env) (id : nat) (w : World)
    (t : MixingTransaction) (w' : World) : Prop :=
  dec_leb (py_float env (input_amount t))
    (wallet_getreceivedbyaddress env (S (tick w)) (input_address t)) = true /\
  exists txid ts,
    txid = match wallet_listreceivedbyaddress env (S (S (tick w))) (input_address t)
           with
           | (ref :: _) :: _ => Some ref
           | _ => input_txid t
           end /\
    transactions w'
      = <[id := set_mixing_started_at (Some (utc_clock env (S (S (S (tick w))))))
                  (set_status MIXING (set_input_txid txid t))]> (transactions w) /\
    mixing_logs w'
      = mkLog id ts PAYMENT_RECEIVED
          [("amount", DDecimalStr (wallet_getreceivedbyaddress env (S (tick w))
                                     (input_address t)));
           ("txid", detail_of_option txid)] :: mixing_logs w.

(** ** Rows the entry points can produce *)

(** A row as creation leaves it, the amounts and identity apart. *)
Definition untouched_by_mixing (t : MixingTransaction) : Prop :=
  mixing_rounds_completed t = 0 /\ mixing_address t = None /\
  input_txid t = None /\ output_txid t = None /\
  mixing_started_at t = None /\ completed_at t = None /\
  error_message t = None /\ retry_count t = 0.

Definition settled (config : Config) (t : MixingTransaction) : Prop :=
  status t <> CANCELLED /\
  0 <= mixing_rounds_completed t <= MIXING_ROUNDS config /\
  (status t = COMPLETED ->
   mixing_rounds_completed t = MIXING_ROUNDS config /\ completed_at t <> None) /\
  (output_txid t <> None ->
   mixing_rounds_completed t = MIXING_ROUNDS config /\ completed_at t <> None) /\
  (completed_at t <> None -> mixing_rounds_completed t = MIXING_ROUNDS config) /\
  (status t = PENDING -> untouched_by_mixing t) /\
  (status t <> PENDING -> mixing_started_at t <> None) /\
  scheduled_output_time t <> None /\
  0 <= retry_count t.

Definition all_settled (config : Config) (w : World) : Prop :=
  forall id t, transactions w !! id = Some t -> settled config t.

Definition keeps_settled (config : Config) (w w' : World) : Prop :=
  all_settled config w -> all_settled config w'.

(** The pool as every write leaves it: distinct addresses, every entry
    active and none marked as used. *)
Definition pool_settled (w : World) : Prop :=
  NoDup (map address (mixing_pool w)) /\
  Forall (fun p => is_active p = true /\ last_used p = None) (mixing_pool w).

Definition keeps_pool_settled (w w' : World) : Prop :=
  pool_settled w -> pool_settled w'.

(** * security.py: the patterns of [SecurityManager]

    The regular expressions are kept as data and read by a matcher for the
    fragment of [re] they use.  Text is ASCII: the classes [\w], [\s] and
    [\d] and [str.lower] are those of the characters below 128. *)

Inductive Regex : Type :=
  | Empty
  | Class (p : Ascii.ascii -> bool)
  | Seq (r1 r2 : Regex)
  | Alt (r1 r2 : Regex)
  | Star (r : Regex)
  | Bol
  | Eol
  | WordBoundary.

Definition code (c : Ascii.ascii) : nat := Ascii.nat_of_ascii c.

(** [[lo-hi]] *)
Definition in_range (lo hi : nat) (c : Ascii.ascii) : bool :=
  ((lo <=? code c) && (code c <=? hi))%nat.

Definition is_digit (c : Ascii.ascii) : bool := in_range 48 57 c.
Definition is_lower (c : Ascii.ascii) : bool := in_range 97 122 c.
Definition is_upper (c : Ascii.ascii) : bool := in_range 65 90 c.

(** [\w], [\s] *)
Definition is_word (c : Ascii.ascii) : bool :=
  is_lower c || is_upper c || is_digit c || (code c =? 95)%nat.

Definition is_space (c : Ascii.ascii) : bool :=
  in_range 9 13 c || in_range 28 32 c.

Definition is_word_at (c : option Ascii.ascii) : bool :=
  match c with Some c => is_word c | None => false end.

Definition first_char (s : string) : option Ascii.ascii :=
  match s with String c _ => Some c | EmptyString => None end.

(** Whether [r] matches a prefix of [s] after which [k] accepts the rest;
    [prev] is the character before [s] in the subject.  [$] matches at the
    end of the subject and before a newline that ends it; [^] matches at
    its start. *)
Fixpoint matches (r : Regex) (prev : option Ascii.ascii) (s : string)
    (k : option Ascii.ascii -> string -> bool) : bool :=
  match r with
  | Empty => k prev s
  | Class p =>
      match s with
      | String c s' => if p c then k (Some c) s' else false
      | EmptyString => false
      end
  | Seq r1 r2 => matches r1 prev s (fun prev' s' => matches r2 prev' s' k)
  | Alt r1 r2 => if matches r1 prev s k then true else matches r2 prev s k
  | Star r1 =>
      (fix loop (fuel : nat) (prev : option Ascii.ascii) (s : string) : bool :=
         if k prev s then true
         else
           match fuel with
           | O => false
           | S fuel' =>
               matches r1 prev s (fun prev' s' =>
                 if (String.length s' <? String.length s)%nat
                 then loop fuel' prev' s' else false)
           end) (String.length s) prev s
  | Bol => match prev with None => k prev s | Some _ => false end
  | Eol =>
      match s with
      | EmptyString => k prev s
      | String c EmptyString => if (code c =? 10)%nat then k prev s else false
      | _ => false
      end
  | WordBoundary =>
      if xorb (is_word_at prev) (is_word_at (first_char s)) then k prev s
      else false
  end.

(** [re.match(r, s)] and [re.search(r, s)], as truth values. *)
Definition re_match (r : Regex) (s : string) : bool :=
  matches r None s (fun _ _ => true).

Fixpoint re_search_from (r : Regex) (prev : option Ascii.ascii) (s : string) : bool :=
  if matches r prev s (fun _ _ => true) then true
  else
    match s with
    | String c s' => re_search_from r (Some c) s'
    | EmptyString => false
    end.

Definition re_search (r : Regex) (s : string) : bool := re_search_from r None s.

(** [r{n}], [r{0,n}], [r{lo,hi}], [r+] *)
Fixpoint times (n : nat) (r : Regex) : Regex :=
  match n with
  | O => Empty
  | S n' => Seq r (times n' r)
  end.

Fixpoint upto (n : nat) (r : Regex) : Regex :=
  match n with
  | O => Empty
  | S n' => Alt Empty (Seq r (upto n' r))
  end.

Definition Repeat (lo hi : nat) (r : Regex) : Regex :=
  Seq (times lo r) (upto (hi - lo) r).

Definition Plus (r : Regex) : Regex := Seq r (Star r).

(** A literal character, and a literal word. *)
Definition Chr (c : Ascii.ascii) : Regex := Class (Ascii.eqb c).

Fixpoint Lit (word : string) : Regex :=
  match word with
  | EmptyString => Empty
  | String c rest => Seq (Chr c) (Lit rest)
  end.

Fixpoint any_of (rs : list Regex) : Regex :=
  match rs with
  | [] => Class (fun _ => false)
  | [r] => r
  | r :: rest => Alt r (any_of rest)
  end.

(** [[a-km-zA-HJ-NP-Z1-9]], [[a-z0-9]], [[13]], [[2mn]] *)
Definition base58 (c : Ascii.ascii) : bool :=
  in_range 97 107 c || in_range 109 122 c || in_range 65 72 c
  || in_range 74 78 c || in_range 80 90 c || in_range 49 57 c.

Definition lower_or_digit (c : Ascii.ascii) : bool := is_lower c || is_digit c.

Definition one_or_three (c : Ascii.ascii) : bool :=
  (code c =? 49)%nat || (code c =? 51)%nat.

Definition two_m_n (c : Ascii.ascii) : bool :=
  (code c =? 50)%nat || (code c =? 109)%nat || (code c =? 110)%nat.

Definition legacy_pattern : Regex :=
  Seq Bol (Seq (Class one_or_three) (Seq (Repeat 25 34 (Class base58)) Eol)).

Definition bech32_pattern : Regex :=
  Seq Bol (Seq (Lit "bc1") (Seq (Repeat 39 59 (Class lower_or_digit)) Eol)).

Definition testnet_pattern : Regex :=
  Seq Bol (Seq (Class two_m_n) (Seq (Repeat 33 33 (Class base58)) Eol)).

(** [SecurityManager.validate_bitcoin_address] *)
Definition security_validate_bitcoin_address (address : string) : bool :=
  existsb (fun pattern => re_match pattern address)
    [legacy_pattern; bech32_pattern; testnet_pattern].

(** [str.lower] *)
Definition lower_char (c : Ascii.ascii) : Ascii.ascii :=
  if is_upper c then Ascii.ascii_of_nat (code c + 32) else c.

Fixpoint lower (s : string) : string :=
  match s with
  | EmptyString => EmptyString
  | String c s' => String (lower_char c) (lower s')
  end.

(** A literal under [re.IGNORECASE]. *)
Definition ChrI (c : Ascii.ascii) : Regex :=
  Class (fun x => Ascii.eqb (lower_char x) (lower_char c)).

Fixpoint LitI (word : string) : Regex :=
  match word with
  | EmptyString => Empty
  | String c rest => Seq (ChrI c) (LitI rest)
  end.

(** The four suspicious patterns; the quote characters are the apostrophe
    (39), the double quote (34) and the backquote (96). *)
Definition keyword_pattern : Regex :=
  Seq WordBoundary
    (Seq (any_of [LitI "union"; LitI "select"; LitI "insert"; LitI "update";
                  LitI "delete"; LitI "drop"; LitI "create"])
       WordBoundary).

Definition comment_pattern : Regex :=
  any_of [LitI ";"; LitI "--"; LitI "*"; LitI "/*"; LitI "*/"].

Definition tautology_pattern : Regex :=
  Seq WordBoundary
    (Seq (any_of [LitI "or"; LitI "and"])
       (Seq WordBoundary
          (Seq (Star (Class is_space))
             (Seq (Plus (Class is_digit))
                (Seq (Star (Class is_space))
                   (Seq (LitI "=")
                      (Seq (Star (Class is_space)) (Plus (Class is_digit))))))))).

Definition quote_pattern : Regex :=
  any_of [Class (fun c => (code c =? 39)%nat);
          Class (fun c => (code c =? 34)%nat);
          Class (fun c => (code c =? 96)%nat)].

Definition suspicious_patterns : list Regex :=
  [keyword_pattern; comment_pattern; tautology_pattern; quote_pattern].

(** [SecurityManager.check_sql_injection]: [true] when nothing suspicious
    was found. *)
Definition check_sql_injection (data : string) : bool :=
  negb (existsb (fun pattern => re_search pattern (lower data)) suspicious_patterns).

(** ** Vocabulary for the patterns *)

Fixpoint all_chars (p : Ascii.ascii -> bool) (s : string) : bool :=
  match s with
  | EmptyString => true
  | String c s' => p c && all_chars p s'
  end.

Fixpoint has_char (p : Ascii.ascii -> bool) (s : string) : bool :=
  match s with
  | EmptyString => false
  | String c s' => p c || has_char p s'
  end.

(** The character before the end of [s], or [prev] when [s] is empty. *)
Fixpoint last_char (prev : option Ascii.ascii) (s : string) : option Ascii.ascii :=
  match s with
  | EmptyString => prev
  | String c s' => last_char (Some c) s'
  end.

(** The three shapes of address the patterns describe, the end of the
    subject left aside. *)
Definition legacy_shape (body : string) : bool :=
  match body with
  | String c rest =>
      one_or_three c && (25 <=? String.length rest)%nat
      && (String.length rest <=? 34)%nat && all_chars base58 rest
  | EmptyString => false
  end.

Definition bech32_shape (body : string) : bool :=
  match body with
  | String b (String c (String one rest)) =>
      String.eqb (String b (String c (String one EmptyString))) "bc1"
      && (39 <=? String.length rest)%nat && (String.length rest <=? 59)%nat
      && all_chars lower_or_digit rest
  | _ => false
  end.

Definition testnet_shape (body : string) : bool :=
  match body with
  | String c rest =>
      two_m_n c && (String.length rest =? 33)%nat && all_chars base58 rest
  | EmptyString => false
  end.

Definition address_shape (body : string) : bool :=
  legacy_shape body || bech32_shape body || testnet_shape body.

Definition newline : string := String (Ascii.ascii_of_nat 10) EmptyString.

(** The characters the comment and quote patterns look for. *)
Definition is_sql_punctuation (c : Ascii.ascii) : bool :=
  (code c =? 59)%nat || (code c =? 42)%nat || (code c =? 39)%nat
  || (code c =? 34)%nat || (code c =? 96)%nat.

(** A word character or the newline: the characters of an accepted
    address, once lowered. *)
Definition is_word_or_newline (c : Ascii.ascii) : bool :=
  is_word c || (code c =? 10)%nat.

(** What follows a keyword in [keyword_pattern]. *)
Definition then_boundary (prev : option Ascii.ascii) (s : string) : bool :=
  matches WordBoundary prev s (fun _ _ => true).

(** * Reasoning about the monad *)

Lemma wp_ret {A} (a : A) Q E w : Q a w -> wp (ret a) Q E w.
Proof. done. Qed.

Lemma wp_raise {A} e (Q : A -> World -> Prop) E w : E e w -> wp (raise e) Q E w.
Proof. done. Qed.

Lemma wp_bind {A B} (m : M A) (k : A -> M B) Q E w :
  wp m (fun a w' => wp (k a) Q E w') E w -> wp (bind m k) Q E w.
Proof. unfold wp, bind. by destruct (m w) as [w' [a|e]]. Qed.

Lemma wp_try_except {A} (m : M A) h Q E w :
  wp m Q (fun e w' => wp (h e) Q E w') w -> wp (try_except m h) Q E w.
Proof. unfold wp, try_except. by destruct (m w) as [w' [a|e]]. Qed.

Lemma wp_mono {A} (m : M A) (Q Q' : A -> World -> Prop) (E E' : string -> World -> Prop) w :
  wp m Q E w ->
  (forall a w', Q a w' -> Q' a w') ->
  (forall e w', E e w' -> E' e w') ->
  wp m Q' E' w.
Proof. unfold wp. destruct (m w) as [w' [a|e]]; auto. Qed.

Lemma wp_fst {A} (m : M A) (P : World -> Prop) w :
  P (fst (m w)) -> wp m (fun _ w' => P w') (fun _ w' => P w') w.
Proof. unfold wp. by destruct (m w) as [w' [a|e]]. Qed.

Lemma fst_wp {A} (m : M A) (P : World -> Prop) w :
  wp m (fun _ w' => P w') (fun _ w' => P w') w -> P (fst (m w)).
Proof. unfold wp. by destruct (m w) as [w' [a|e]]. Qed.

Lemma wp_steps {A} (R : World -> World -> Prop) (m : M A) Q E w :
  steps R m ->
  (forall a w', R w w' -> Q a w') ->
  (forall e w', R w w' -> E e w') ->
  wp m Q E w.
Proof.
  intros Hs HQ HE. specialize (Hs w). unfold wp.
  destruct (m w) as [w' [a|e]]; simpl in *; auto.
Qed.

Section Rules.

Variable env : Env.

Lemma wp_oracle {A} (answer : nat -> A) Q E w :
  Q (answer (tick w)) (next_tick w) -> wp (oracle answer) Q E w.
Proof. done. Qed.

Lemma wp_external {A} (answer : nat -> A) Q E w :
  (forall e, fault env (tick w) = Some e -> E e (next_tick w)) ->
  (fault env (tick w) = None -> Q (answer (tick w)) (next_tick w)) ->
  wp (external env answer) Q E w.
Proof.
  intros HE HQ. unfold wp, external.
  destruct (fault env (tick w)) as [e|]; auto.
Qed.

Lemma wp_rpc {A} call (answer : nat -> A) Q E w :
  (forall e, fault env (tick w) = Some e ->
     E e (next_tick (with_rpc_calls (cons call) w))) ->
  (fault env (tick w) = None ->
     Q (answer (tick w)) (next_tick (with_rpc_calls (cons call) w))) ->
  wp (rpc env call answer) Q E w.
Proof. intros HE HQ. unfold rpc. by apply wp_external. Qed.

Lemma wp_getattr {A} id (field : MixingTransaction -> A) Q E w :
  (forall t, transactions w !! id = Some t -> Q (field t) w) ->
  (transactions w !! id = None -> E "ObjectDeletedError" w) ->
  wp (getattr id field) Q E w.
Proof.
  intros HQ HE. unfold wp, getattr.
  destruct (transactions w !! id); auto.
Qed.

Lemma wp_setattr id f Q E w :
  Q tt (with_transactions (alter f id) w) -> wp (setattr id f) Q E w.
Proof. done. Qed.

End Rules.

Section MoreRules.

Variable env : Env.

Lemma wp_query_get id Q E w :
  (forall e, fault env (tick w) = Some e -> E e (next_tick w)) ->
  (fault env (tick w) = None -> Q (transactions w !! id) (next_tick w)) ->
  wp (query_get env id) Q E w.
Proof.
  intros HE HQ. apply wp_bind, wp_external; [done|].
  intros Hf. by apply HQ.
Qed.

Lemma wp_query_filter (p : MixingTransaction -> bool) Q E w :
  (forall e, fault env (tick w) = Some e -> E e (next_tick w)) ->
  (fault env (tick w) = None ->
     Q (map fst (filter (fun kv => p (snd kv)) (map_to_list (transactions w))))
       (next_tick w)) ->
  wp (query_filter env p) Q E w.
Proof.
  intros HE HQ. apply wp_bind, wp_external; [done|].
  intros Hf. by apply HQ.
Qed.

Lemma wp__log_action id action details Q E w :
  (forall e, fault env (tick w) = Some e -> E e (next_tick w)) ->
  (fault env (tick w) = None ->
     Q tt (with_mixing_logs
             (cons (mkLog id (utc_clock env (tick w)) action details))
             (next_tick w))) ->
  wp (_log_action env id action details) Q E w.
Proof.
  intros HE HQ. apply wp_bind, wp_external; [done|].
  intros Hf. by apply HQ.
Qed.

Lemma wp_getattr_known {A} id (field : MixingTransaction -> A) t Q E w :
  transactions w !! id = Some t -> Q (field t) w -> wp (getattr id field) Q E w.
Proof. intros Ht HQ. unfold wp, getattr. by rewrite Ht. Qed.

Lemma wp_random_choice seq Q E w :
  (seq = [] -> E "IndexError: Cannot choose from an empty sequence" w) ->
  (forall x, x ∈ seq -> Q x (next_tick w)) ->
  wp (random_choice env seq) Q E w.
Proof.
  intros HE HQ. destruct seq as [|x seq]; [by apply HE|].
  apply wp_oracle, HQ.
  set (i := Z.to_nat _).
  assert (Hi : (i < length (x :: seq))%nat).
  { subst i. apply Nat2Z.inj_lt. rewrite Z2Nat.id.
    - apply Z.mod_pos_bound. simpl length. lia.
    - apply Z.mod_pos_bound. simpl length. lia. }
  apply list_elem_of_In, nth_In, Hi.
Qed.

Lemma wp_random_randint a b Q E w :
  (b < a -> E "ValueError: empty range for randrange()" w) ->
  (forall n, a <= n <= b -> Q n (next_tick w)) ->
  wp (random_randint env a b) Q E w.
Proof.
  intros HE HQ. unfold random_randint. destruct (Z.ltb_spec b a); [by apply HE|].
  apply wp_oracle, HQ.
  pose proof (Z.mod_pos_bound (random_bits env (tick w)) (b - a + 1)). lia.
Qed.

End MoreRules.

(** One step of symbolic execution. *)
Ltac wp_step :=
  lazymatch goal with
  | |- wp (bind _ _) _ _ _ => apply wp_bind
  | |- wp (ret _) _ _ _ => apply wp_ret
  | |- wp (raise _) _ _ _ => apply wp_raise
  | |- wp (try_except _ _) _ _ _ => apply wp_try_except
  | |- wp (oracle _) _ _ _ => apply wp_oracle
  | |- wp (utcnow _) _ _ _ => apply wp_oracle
  | |- wp (external _ _) _ _ _ => apply wp_external; [intros ? ? | intros ?]
  | |- wp (db_commit _) _ _ _ => apply wp_external; [intros ? ? | intros ?]
  | |- wp (db_rollback _) _ _ _ => apply wp_external; [intros ? ? | intros ?]
  | |- wp (rpc _ _ _) _ _ _ => apply wp_rpc; [intros ? ? | intros ?]
  | |- wp (query_get _ _) _ _ _ => apply wp_query_get; [intros ? ? | intros ?]
  | |- wp (query_filter _ _) _ _ _ => apply wp_query_filter; [intros ? ? | intros ?]
  | |- wp (_log_action _ _ _ _) _ _ _ => apply wp__log_action; [intros ? ? | intros ?]
  | |- wp (setattr _ _) _ _ _ => apply wp_setattr
  | |- wp (random_choice _ _) _ _ _ => apply wp_random_choice; [intros ? | intros ? ?]
  | |- wp (random_randint _ _ _) _ _ _ => apply wp_random_randint; [intros ? | intros ? ?]
  | |- wp (if ?b then _ else _) _ _ _ => destruct b eqn:?
  | |- wp (match ?x with _ => _ end) _ _ _ => destruct x eqn:?
  end.

(** Reading a field of the row known to be stored under [id]. *)
Ltac wp_lookup H := simpl; rewrite ?lookup_alter_eq, H; reflexivity.

Ltac wp_exec H :=
  repeat first [ wp_step | eapply wp_getattr_known; [wp_lookup H|] ].

Ltac leb_to_le :=
  repeat match goal with
         | H : (_ <=? _) = true |- _ => apply Z.leb_le in H
         | H : (_ <=? _) = false |- _ => apply Z.leb_gt in H
         | H : (_ <? _) = true |- _ => apply Z.ltb_lt in H
         | H : (_ <? _) = false |- _ => apply Z.ltb_ge in H
         end.
(** ** What the database stores of a new row *)

Lemma store_numeric_columns_Some t stored :
  store_numeric_columns t = Some stored ->
  exists i f o,
    numeric_16_8 (input_amount t) = Some i /\
    numeric_16_8 (fee_amount t) = Some f /\
    numeric_16_8 (output_amount t) = Some o /\
    stored = set_amounts i f o t.
Proof.
  unfold store_numeric_columns.
  destruct (numeric_16_8 (input_amount t)) as [i|]; [|done].
  destruct (numeric_16_8 (fee_amount t)) as [f|]; [|done].
  destruct (numeric_16_8 (output_amount t)) as [o|]; [|done].
  intros [= <-]. by exists i, f, o.
Qed.

Lemma stored_row_is_new config s a ia oa ih uh sched created stored :
  store_numeric_columns
    (mkTx s a (dec_mul a (FEE_PERCENT config))
       (dec_sub a (dec_mul a (FEE_PERCENT config)))
       ia oa None PENDING 0 None None created None None sched ih uh None 0)
    = Some stored ->
  is_new_row config stored.
Proof.
  intros H. apply store_numeric_columns_Some in H as (i & f & o & Hi & Hf & Ho & ->).
  split; [done|]. split; [done|]. by exists a.
Qed.

(** ** Relations every run of a procedure stays within

    [R] is a preorder on stores closed under the primitive writes; the
    lemmas of this section lift it to the procedures.  [touch] is the set
    of primary keys the procedure may write to. *)
Section Frame.

Variable env : Env.
Variable R : World -> World -> Prop.
Variable touch : nat -> Prop.

Hypothesis R_refl : forall w, R w w.
Hypothesis R_trans : forall w1 w2 w3, R w1 w2 -> R w2 w3 -> R w1 w3.
Hypothesis R_tick : forall w, R w (next_tick w).
Hypothesis R_rpc : forall c w, R w (with_rpc_calls (cons c) w).
Hypothesis R_pool : forall f w, R w (with_mixing_pool f w).
Hypothesis R_queue : forall f w, R w (with_celery_queue f w).
Hypothesis R_log :
  forall l w, touch (transaction_id l) -> R w (with_mixing_logs (cons l) w).
Hypothesis R_set :
  forall id f w, touch id -> engine_update f ->
    R w (with_transactions (alter f id) w).
Hypothesis R_increment :
  forall id w, touch id -> R w (with_transactions (alter increment_rounds id) w).
Hypothesis R_completed :
  forall id w, touch id ->
    R w (with_transactions (alter (set_status COMPLETED) id) w).
Hypothesis R_insert :
  forall config id t w, transactions w !! id = None -> is_new_row config t ->
    R w (with_transactions (insert id t) w).
Hypothesis R_delete :
  forall ids f w,
    R w (with_security_alerts f (with_transactions (fun m => foldr delete m ids) w)).
Hypothesis touch_all : forall id, touch id.

Lemma steps_ret {A} (a : A) : steps R (ret a).
Proof. intros w. apply R_refl. Qed.

Lemma steps_raise {A} e : steps R (raise e : M A).
Proof. intros w. apply R_refl. Qed.

Lemma steps_bind {A B} (m : M A) (k : A -> M B) :
  steps R m -> (forall a, steps R (k a)) -> steps R (bind m k).
Proof.
  intros Hm Hk w. specialize (Hm w). unfold bind.
  destruct (m w) as [w' [a|e]]; simpl in *; [|done].
  eapply R_trans; [exact Hm | apply Hk].
Qed.

Lemma steps_try_except {A} (m : M A) h :
  steps R m -> (forall e, steps R (h e)) -> steps R (try_except m h).
Proof.
  intros Hm Hh w. specialize (Hm w). unfold try_except.
  destruct (m w) as [w' [a|e]]; simpl in *; [done|].
  eapply R_trans; [exact Hm | apply Hh].
Qed.

Lemma steps_for_each {A} (xs : list A) body :
  (forall x, x ∈ xs -> steps R (body x)) -> steps R (for_each xs body).
Proof.
  induction xs as [|x xs IH]; intros Hb; simpl.
  - apply steps_ret.
  - apply steps_bind; [apply Hb; left | intros _; apply IH].
    intros y Hy. apply Hb. by right.
Qed.

Lemma steps_pure {A} (f : World -> A) : steps R (fun w => (w, Ok (f w))).
Proof. intros w. apply R_refl. Qed.

Lemma steps_oracle {A} (answer : nat -> A) : steps R (oracle answer).
Proof. intros w. apply R_tick. Qed.

Lemma steps_external {A} (answer : nat -> A) : steps R (external env answer).
Proof. intros w. unfold external. destruct (fault env (tick w)); apply R_tick. Qed.

Lemma steps_rpc {A} call (answer : nat -> A) : steps R (rpc env call answer).
Proof.
  intros w. unfold rpc. eapply R_trans; [apply (R_rpc call)|].
  apply steps_external.
Qed.

Lemma steps_random_randint a b : steps R (random_randint env a b).
Proof.
  unfold random_randint. destruct (b <? a); [apply steps_raise | apply steps_oracle].
Qed.

Lemma steps_random_choice seq : steps R (random_choice env seq).
Proof. destruct seq; [apply steps_raise | apply steps_oracle]. Qed.

Lemma steps_query_get id : steps R (query_get env id).
Proof. apply steps_bind; [apply steps_external | intros _; apply steps_pure]. Qed.

Lemma steps_query_filter p : steps R (query_filter env p).
Proof. apply steps_bind; [apply steps_external | intros _; apply steps_pure]. Qed.

Lemma steps_getattr {A} id (field : MixingTransaction -> A) :
  steps R (getattr id field).
Proof. intros w. unfold getattr. destruct (transactions w !! id); apply R_refl. Qed.

Lemma steps_setattr id f : touch id -> engine_update f -> steps R (setattr id f).
Proof. intros Ht Hf w. by apply R_set. Qed.

Lemma steps__log_action id action details :
  touch id -> steps R (_log_action env id action details).
Proof.
  intros Ht. apply steps_bind; [apply steps_external|].
  intros ts w. by apply R_log.
Qed.

Lemma steps_validate_bitcoin_address a : steps R (validate_bitcoin_address env a).
Proof.
  apply steps_try_except; [|intros; apply steps_ret].
  apply steps_bind; [apply steps_rpc | intros; apply steps_ret].
Qed.

Lemma steps_query_active_pools n : steps R (query_active_pools env n).
Proof. apply steps_bind; [apply steps_external | intros _; apply steps_pure]. Qed.

Lemma steps_generate_pool_addresses n : steps R (generate_pool_addresses env n).
Proof.
  induction n as [|n IH]; simpl; [apply steps_ret|].
  apply steps_bind; [apply steps_rpc | intros a].
  apply steps_bind; [apply IH | intros; apply steps_ret].
Qed.

Lemma steps_db_insert_pools new : steps R (db_insert_pools env new).
Proof.
  apply steps_bind; [apply steps_external | intros _ w].
  case_bool_decide; simpl; [apply R_pool | apply R_refl].
Qed.

Lemma steps_get_mixing_pool_addresses n :
  steps R (get_mixing_pool_addresses env n).
Proof.
  apply steps_bind; [apply steps_query_active_pools | intros pools].
  apply steps_bind; [|intros; apply steps_ret].
  destruct (_ <? _)%nat; [|apply steps_ret].
  apply steps_bind; [apply steps_generate_pool_addresses | intros new].
  apply steps_bind; [apply steps_db_insert_pools | intros _].
  apply steps_query_active_pools.
Qed.

Lemma steps_db_insert_transaction config row :
  (forall created stored,
     store_numeric_columns (row created) = Some stored -> is_new_row config stored) ->
  steps R (db_insert_transaction env row).
Proof.
  intros Hrow. apply steps_bind; [apply steps_external | intros n w].
  cbv beta zeta.
  destruct (store_numeric_columns (row (utc_clock env n))) as [stored|] eqn:Hst;
    simpl; [|apply R_refl].
  destruct (transactions w !! uuid4 env n) eqn:Hid; simpl; [apply R_refl|].
  eapply R_insert; [done | by eapply Hrow].
Qed.

Lemma steps_create_mixing_transaction config a o s i u :
  steps R (create_mixing_transaction env config a o s i u).
Proof.
  unfold create_mixing_transaction.
  apply steps_bind; [apply steps_rpc | intros input].
  apply steps_bind; [apply steps_random_randint | intros delay].
  apply steps_bind; [apply steps_oracle | intros now].
  apply steps_bind;
    [apply (steps_db_insert_transaction config); intros created stored;
     apply stored_row_is_new | intros id].
  apply steps_bind; [apply steps__log_action, touch_all | intros; apply steps_ret].
Qed.

Lemma steps_check_incoming_payment id :
  touch id -> steps R (check_incoming_payment env id).
Proof.
  intros Ht. unfold check_incoming_payment.
  apply steps_bind; [apply steps_query_get | intros [t|]]; [|apply steps_ret].
  apply steps_try_except; [|intros; apply steps_ret].
  apply steps_bind; [apply steps_rpc | intros received].
  destruct (dec_leb _ _); [|apply steps_ret].
  apply steps_bind; [apply steps_rpc | intros txlist].
  apply steps_bind.
  { destruct txlist as [|[|txid ?] ?]; try apply steps_ret.
    apply steps_setattr; [done | constructor]. }
  intros _. apply steps_bind; [apply steps_setattr; [done | by constructor] | intros _].
  apply steps_bind; [apply steps_oracle | intros now].
  apply steps_bind; [apply steps_setattr; [done | constructor] | intros _].
  apply steps_bind; [apply steps_external | intros _].
  apply steps_bind; [apply steps_getattr | intros txid].
  apply steps_bind; [by apply steps__log_action | intros; apply steps_ret].
Qed.

Lemma steps__schedule_output_transaction id :
  touch id -> steps R (_schedule_output_transaction env id).
Proof.
  intros Ht. apply steps_bind; [apply steps_getattr | intros [time|]];
    [|apply steps_raise].
  apply steps_bind; [apply steps_getattr | intros; by apply steps__log_action].
Qed.

Lemma steps_perform_mixing_round config id :
  touch id -> steps R (perform_mixing_round env config id).
Proof.
  intros Ht. unfold perform_mixing_round.
  apply steps_bind; [apply steps_query_get | intros [t|]]; [|apply steps_ret].
  destruct (negb _); [apply steps_ret|].
  apply steps_try_except.
  - apply steps_bind; [apply steps_get_mixing_pool_addresses | intros pool].
    apply steps_bind; [apply steps_random_choice | intros addr].
    apply steps_bind; [apply steps_getattr | intros rounds].
    apply steps_bind.
    { destruct (rounds =? 0); [|apply steps_getattr].
      apply steps_bind; [apply steps_getattr | intros; apply steps_ret]. }
    intros from. apply steps_bind; [apply steps_getattr | intros out].
    apply steps_bind; [apply steps_setattr; [done | constructor] | intros _].
    apply steps_bind; [intros w; by apply R_increment | intros _].
    apply steps_bind; [apply steps_getattr | intros n].
    apply steps_bind; [by apply steps__log_action | intros _].
    apply steps_bind; [apply steps_getattr | intros n'].
    apply steps_bind; [|intros _; apply steps_bind;
                         [apply steps_external | intros; apply steps_ret]].
    destruct (_ <=? _); [|apply steps_ret].
    apply steps_bind; [intros w; by apply R_completed | intros _].
    apply steps_bind; [apply steps_oracle | intros now].
    apply steps_bind; [apply steps_setattr; [done | constructor] | intros _].
    by apply steps__schedule_output_transaction.
  - intros e.
    apply steps_bind; [apply steps_setattr; [done | by constructor] | intros _].
    apply steps_bind; [apply steps_setattr; [done | constructor] | intros _].
    apply steps_bind; [apply steps_external | intros; apply steps_ret].
Qed.

Lemma steps_send_output_transaction id :
  touch id -> steps R (send_output_transaction env id).
Proof.
  intros Ht. unfold send_output_transaction.
  apply steps_bind; [apply steps_query_get | intros [t|]]; [|apply steps_ret].
  destruct (negb _); [apply steps_ret|].
  apply steps_try_except.
  - apply steps_bind; [apply steps_getattr | intros addr].
    apply steps_bind; [apply steps_getattr | intros amt].
    apply steps_bind; [apply steps_rpc | intros txid].
    apply steps_bind; [apply steps_setattr; [done | constructor] | intros _].
    apply steps_bind; [apply steps_external | intros _].
    apply steps_bind; [by apply steps__log_action | intros; apply steps_ret].
  - intros e.
    apply steps_bind; [apply steps_setattr; [done | constructor] | intros _].
    apply steps_bind; [apply steps_setattr; [done | constructor] | intros _].
    apply steps_bind; [apply steps_external | intros; apply steps_ret].
Qed.

Lemma steps_check_pending_payments : steps R (check_pending_payments env).
Proof.
  apply steps_try_except; [|intros; apply steps_ret].
  apply steps_bind; [apply steps_oracle | intros now].
  apply steps_bind; [apply steps_query_filter | intros txs].
  apply steps_bind; [|intros; apply steps_ret].
  apply steps_for_each. intros tx _.
  apply steps_bind; [apply steps_check_incoming_payment, touch_all | intros [|]];
    [|apply steps_ret].
  intros w. apply R_queue.
Qed.

Lemma steps_send_scheduled_outputs : steps R (send_scheduled_outputs env).
Proof.
  apply steps_try_except; [|intros; apply steps_ret].
  apply steps_bind; [apply steps_oracle | intros now].
  apply steps_bind; [apply steps_query_filter | intros txs].
  apply steps_bind; [|intros; apply steps_ret].
  apply steps_for_each. intros tx _.
  apply steps_bind; [apply steps_send_output_transaction, touch_all
                    | intros; apply steps_ret].
Qed.

Lemma steps_process_mixing_loop config id fuel :
  steps R (process_mixing_loop env fuel config id).
Proof.
  induction fuel as [|fuel IH]; simpl; [apply steps_raise|].
  apply steps_bind; [apply steps_getattr | intros rounds].
  destruct (_ <? _); [|apply steps_ret].
  apply steps_bind; [apply steps_perform_mixing_round, touch_all | intros ok].
  destruct (negb ok); [apply steps_ret|].
  apply steps_bind; [apply steps_raise | intros _; apply IH].
Qed.

Lemma steps_process_mixing config id : steps R (process_mixing env config id).
Proof.
  apply steps_try_except; [|intros; apply steps_ret].
  apply steps_bind; [apply steps_query_get | intros [t|]]; [|apply steps_ret].
  destruct (negb _); [apply steps_ret | apply steps_process_mixing_loop].
Qed.

Lemma steps_process_mixing_rounds config : steps R (process_mixing_rounds env config).
Proof.
  apply steps_try_except; [|intros; apply steps_ret].
  apply steps_bind; [apply steps_query_filter | intros txs].
  apply steps_bind; [|intros; apply steps_ret].
  apply steps_for_each. intros tx _.
  apply steps_bind; [apply steps_getattr | intros rounds].
  destruct (_ <? _); [|apply steps_ret].
  apply steps_bind; [apply steps_perform_mixing_round, touch_all
                    | intros; apply steps_ret].
Qed.

Lemma steps_cleanup_old_transactions : steps R (cleanup_old_transactions env).
Proof.
  apply steps_try_except.
  - apply steps_bind; [apply steps_oracle | intros now].
    apply steps_bind; [apply steps_query_filter | intros txs].
    apply steps_bind; [|intros alerts].
    { apply steps_bind; [apply steps_external | intros _; apply steps_pure]. }
    apply steps_bind; [|intros; apply steps_ret].
    apply steps_bind; [apply steps_external | intros _ w; apply R_delete].
  - intros e. apply steps_bind; [apply steps_external | intros; apply steps_ret].
Qed.

Lemma steps_validate_on_submit config form :
  steps R (validate_on_submit env config form).
Proof.
  apply steps_bind; [|intros; apply steps_ret].
  unfold validate_output_address_field.
  destruct (output_address_required _);
    [apply steps_validate_bitcoin_address | apply steps_ret].
Qed.

Lemma steps_mixer config form s i u : steps R (mixer env config form s i u).
Proof.
  apply steps_bind; [apply steps_validate_on_submit | intros [|]];
    [|apply steps_ret].
  apply steps_try_except; [|intros; apply steps_ret].
  apply steps_bind.
  { apply steps_bind; [apply steps_oracle | intros; apply steps_raise]. }
  intros ok. apply steps_bind; [destruct (negb ok); [apply steps_raise | apply steps_ret]|].
  intros _. apply steps_bind; [apply steps_create_mixing_transaction
                              | intros; apply steps_ret].
Qed.

End Frame.

(** * Rows under the engine's writes *)

Lemma row_keeps_refl t : row_keeps t t.
Proof. repeat split; lia. Qed.

Lemma row_keeps_trans t1 t2 t3 : row_keeps t1 t2 -> row_keeps t2 t3 -> row_keeps t1 t3.
Proof.
  intros (?&?&?&?) (?&?&?&?). repeat split; try congruence; lia.
Qed.

Lemma engine_update_keeps f t : engine_update f -> row_keeps t (f t).
Proof. intros []; repeat split; simpl; lia. Qed.

Lemma increment_rounds_keeps t : row_keeps t (increment_rounds t).
Proof. repeat split; simpl; lia. Qed.

Lemma set_status_keeps s t : row_keeps t (set_status s t).
Proof. repeat split; simpl; lia. Qed.

Create HintDb evolve discriminated.

Lemma rows_evolve_refl w : rows_evolve w w.
Proof. intros id t Ht. exists t. split; [done | apply row_keeps_refl]. Qed.

Lemma rows_evolve_trans w1 w2 w3 :
  rows_evolve w1 w2 -> rows_evolve w2 w3 -> rows_evolve w1 w3.
Proof.
  intros H12 H23 id t Ht.
  destruct (H12 id t Ht) as (t2 & Ht2 & Hk2).
  destruct (H23 id t2 Ht2) as (t3 & Ht3 & Hk3).
  exists t3. split; [done | by eapply row_keeps_trans].
Qed.

Lemma rows_evolve_same w w' : transactions w' = transactions w -> rows_evolve w w'.
Proof. intros Heq id t Ht. exists t. rewrite Heq. split; [done | apply row_keeps_refl]. Qed.

Lemma rows_evolve_alter id f w :
  (forall t, row_keeps t (f t)) -> rows_evolve w (with_transactions (alter f id) w).
Proof.
  intros Hf j t Ht. simpl. destruct (decide (id = j)) as [->|Hne].
  - exists (f t). rewrite lookup_alter_eq, Ht. split; [done | apply Hf].
  - exists t. rewrite lookup_alter_ne by done. split; [done | apply row_keeps_refl].
Qed.

Lemma rows_evolve_insert id t w :
  transactions w !! id = None -> rows_evolve w (with_transactions (insert id t) w).
Proof.
  intros Hid j t' Ht'. exists t'. simpl.
  rewrite lookup_insert_ne by congruence. split; [done | apply row_keeps_refl].
Qed.

#[local] Hint Resolve rows_evolve_refl rows_evolve_trans : evolve.
#[local] Hint Extern 1 (rows_evolve _ _) =>
  first [ by apply rows_evolve_same
        | apply rows_evolve_alter; intros;
          first [ by apply engine_update_keeps
                | apply increment_rounds_keeps
                | apply set_status_keeps
                | by apply engine_update_keeps; constructor ]
        | by apply rows_evolve_insert ] : evolve.

Lemma rows_survive_refl w : rows_survive w w.
Proof. by intros id t. Qed.

Lemma rows_survive_trans w1 w2 w3 :
  rows_survive w1 w2 -> rows_survive w2 w3 -> rows_survive w1 w3.
Proof. intros H12 H23 id t Ht. by apply H12, H23. Qed.

Lemma rows_survive_delete ids f w :
  rows_survive w
    (with_security_alerts f (with_transactions (fun m => foldr delete m ids) w)).
Proof. intros id t. simpl. rewrite lookup_foldr_delete_Some. tauto. Qed.

Lemma rows_evolve_kept w w' : rows_evolve w w' -> rows_kept w w'.
Proof.
  intros H id t t' Ht Ht'. destruct (H id t Ht) as (t'' & Ht'' & Hk). congruence.
Qed.

Lemma rows_survive_kept w w' : rows_survive w w' -> rows_kept w w'.
Proof.
  intros H id t t' Ht Ht'. apply H in Ht'.
  replace t' with t by congruence. apply row_keeps_refl.
Qed.

Section Evolve.

Variable env : Env.

Lemma run_rows_kept config e w : rows_kept w (run env config e w).
Proof.
  destruct e; simpl.
  - apply rows_evolve_kept.
    apply (steps_create_mixing_transaction env rows_evolve (fun _ => True));
      eauto with evolve.
  - apply rows_evolve_kept.
    apply (steps_mixer env rows_evolve (fun _ => True)); eauto with evolve.
  - apply rows_evolve_kept.
    apply (steps_check_incoming_payment env rows_evolve (fun _ => True));
      eauto with evolve.
  - apply rows_evolve_kept.
    apply (steps_check_pending_payments env rows_evolve (fun _ => True));
      eauto with evolve.
  - apply rows_evolve_kept.
    apply (steps_process_mixing env rows_evolve (fun _ => True)); eauto with evolve.
  - apply rows_evolve_kept.
    apply (steps_process_mixing_rounds env rows_evolve (fun _ => True));
      eauto with evolve.
  - apply rows_evolve_kept.
    apply (steps_send_scheduled_outputs env rows_evolve (fun _ => True));
      eauto with evolve.
  - apply rows_survive_kept.
    apply (steps_cleanup_old_transactions env rows_survive
             rows_survive_refl rows_survive_trans);
      [by intros w' id t | apply rows_survive_delete].
Qed.

End Evolve.

(** * The round counter *)


Lemma same_transactions_trans w1 w2 w3 :
  same_transactions w1 w2 -> same_transactions w2 w3 -> same_transactions w1 w3.
Proof. unfold same_transactions. congruence. Qed.









Section Rounds.

Variable env : Env.
Variable config : Config.

Lemma get_mixing_pool_addresses_same_transactions n :
  steps same_transactions (get_mixing_pool_addresses env n).
Proof.
  apply steps_get_mixing_pool_addresses;
    first [ exact same_transactions_trans | by intros ].
Qed.



End Rounds.

Section RoundsOfEntryPoints.

Variable env : Env.
Variable config : Config.
Hypothesis rounds_nonneg : 0 <= MIXING_ROUNDS config.







End RoundsOfEntryPoints.

(** * Decimal arithmetic within the context precision *)

Lemma fix_prec_small d : (Z.abs (coef d) <? 10 ^ prec) = true -> fix_prec d = d.
Proof. intros H. unfold fix_prec. cbv zeta. by rewrite H. Qed.

Lemma dec_mul_exact a b :
  mul_exact a b = true ->
  dec_mul a b = mkDecimal (coef a * coef b) (expo a + expo b).
Proof. intros H. unfold dec_mul. by apply fix_prec_small. Qed.

Lemma dec_sub_exact a b :
  sub_exact a b = true ->
  dec_sub a b =
    mkDecimal (dec_align (Z.min (expo a) (expo b)) a
               - dec_align (Z.min (expo a) (expo b)) b)
              (Z.min (expo a) (expo b)).
Proof. intros H. unfold dec_sub. cbv zeta. by apply fix_prec_small. Qed.

Lemma ten_nonzero : ~ (10 # 1 == 0)%Q.
Proof. discriminate. Qed.

Lemma scale_value c k e :
  0 <= k ->
  (inject_Z (c * 10 ^ k) * (10 # 1) ^ e == inject_Z c * (10 # 1) ^ (k + e))%Q.
Proof.
  intros Hk.
  rewrite inject_Z_mult.
  rewrite (Zpower_Qpower 10 k Hk).
  rewrite (Qpower_plus (10 # 1) k e ten_nonzero).
  change (inject_Z 10) with (10 # 1). ring.
Qed.

(** Writing a decimal at a smaller exponent does not change its value. *)
Lemma dec_align_value e d :
  e <= expo d ->
  (inject_Z (dec_align e d) * (10 # 1) ^ e == dec_value d)%Q.
Proof.
  intros He. unfold dec_align, dec_value.
  rewrite scale_value by lia.
  by replace (expo d - e + e) with (expo d) by lia.
Qed.

Lemma dec_mul_value a b :
  mul_exact a b = true ->
  (dec_value (dec_mul a b) == dec_value a * dec_value b)%Q.
Proof.
  intros H. rewrite (dec_mul_exact _ _ H). unfold dec_value. simpl.
  rewrite inject_Z_mult, Qpower_plus by apply ten_nonzero. ring.
Qed.

Lemma dec_sub_value a b :
  sub_exact a b = true ->
  (dec_value (dec_sub a b) == dec_value a - dec_value b)%Q.
Proof.
  intros H. rewrite (dec_sub_exact _ _ H).
  set (e := Z.min (expo a) (expo b)).
  rewrite <- (dec_align_value e a), <- (dec_align_value e b) by lia.
  unfold dec_value. simpl. unfold Zminus.
  rewrite inject_Z_plus, inject_Z_opp. ring.
Qed.

(** The split of an amount into fee and output loses nothing while both
    operations stay within the context precision. *)
Lemma fee_split_exact a rate :
  mul_exact a rate = true ->
  sub_exact a (dec_mul a rate) = true ->
  (dec_value (dec_mul a rate) == dec_value a * dec_value rate)%Q /\
  (dec_value (dec_sub a (dec_mul a rate)) + dec_value (dec_mul a rate)
     == dec_value a)%Q.
Proof.
  intros Hm Hs. split; [by apply dec_mul_value|].
  rewrite (dec_sub_value _ _ Hs). ring.
Qed.

(** An amount of at most 16 significant digits, as the [Numeric(16, 8)]
    column holds, at a fee rate between 0 and 1 with at most 12 decimal
    places, stays within the precision. *)
Lemma numeric_16_8_exact a rate :
  0 <= coef a < 10 ^ 16 ->
  -12 <= expo rate <= 0 -> 0 <= coef rate <= 10 ^ (- expo rate) ->
  mul_exact a rate = true /\ sub_exact a (dec_mul a rate) = true.
Proof.
  intros Hca Her Hcr.
  assert (Hpow : 10 ^ (- expo rate) <= 10 ^ 12)
    by (apply Z.pow_le_mono_r; lia).
  assert (Hm : mul_exact a rate = true).
  { unfold mul_exact, prec. apply Z.ltb_lt. rewrite Z.abs_eq by nia.
    change (10 ^ 28) with (10 ^ 16 * 10 ^ 12). nia. }
  split; [exact Hm|].
  unfold sub_exact. rewrite (dec_mul_exact _ _ Hm). cbn [expo coef].
  rewrite Z.min_r by lia. unfold dec_align. cbn [expo coef].
  replace (expo a + expo rate - (expo a + expo rate)) with 0 by lia.
  replace (expo a - (expo a + expo rate)) with (- expo rate) by lia.
  apply Z.ltb_lt. unfold prec. rewrite Z.pow_0_r, Z.mul_1_r.
  change (10 ^ 28) with (10 ^ 16 * 10 ^ 12).
  rewrite Z.abs_eq by nia. nia.
Qed.

(** ** Comparisons and stored values *)

Lemma ten_power_positive e : (0 < (10 # 1) ^ e)%Q.
Proof. by apply Qpower_0_lt. Qed.

(** The comparison of two decimals is the comparison of the numbers they
    denote. *)
Lemma dec_ltb_value a b :
  dec_ltb a b = true <-> (dec_value a < dec_value b)%Q.
Proof.
  unfold dec_ltb. cbv zeta. set (e := Z.min (expo a) (expo b)).
  rewrite <- (dec_align_value e a), <- (dec_align_value e b) by lia.
  rewrite Qmult_lt_r by apply ten_power_positive.
  rewrite <- Zlt_Qlt. apply Z.ltb_lt.
Qed.

Lemma dec_ltb_false_value a b :
  dec_ltb a b = false <-> (dec_value b <= dec_value a)%Q.
Proof.
  split.
  - intros H. apply Qnot_lt_le. intros Hlt. apply dec_ltb_value in Hlt. congruence.
  - intros H. destruct (dec_ltb a b) eqn:Hab; [|done].
    apply dec_ltb_value in Hab. by apply Qle_not_lt in H.
Qed.

Lemma dec_truthy_value d : dec_truthy d = true <-> ~ (dec_value d == 0)%Q.
Proof.
  unfold dec_truthy, dec_value. rewrite negb_true_iff, Z.eqb_neq. split.
  - intros Hc H0. apply Qmult_integral in H0 as [H0 | H0].
    + by apply (inject_Z_injective (coef d) 0) in H0.
    + pose proof (ten_power_positive (expo d)) as Hpos.
      rewrite H0 in Hpos. by apply Qlt_irrefl in Hpos.
  - intros Hv Hc. apply Hv. rewrite Hc. apply Qmult_0_l.
Qed.

(** A value of at most eight decimal places is stored as it is. *)
Lemma numeric_16_8_keeps d stored :
  -8 <= expo d -> numeric_16_8 d = Some stored ->
  expo stored = -8 /\ (dec_value stored == dec_value d)%Q.
Proof.
  intros He. unfold numeric_16_8. cbv zeta.
  replace (-8 <=? expo d) with true by (symmetry; apply Z.leb_le; lia).
  destruct (_ <? _); [|done]. intros [= <-]. split; [done|].
  unfold dec_value. cbn [coef expo].
  rewrite scale_value by lia. by replace (expo d + 8 + -8) with (expo d) by lia.
Qed.

Lemma dec_truthy_false_value d : dec_truthy d = false <-> (dec_value d == 0)%Q.
Proof.
  split.
  - intros Hd. destruct (Qeq_dec (dec_value d) 0) as [H0 | Hne]; [done|].
    apply dec_truthy_value in Hne. congruence.
  - intros H0. destruct (dec_truthy d) eqn:Hd; [|done].
    by apply dec_truthy_value in Hd.
Qed.

(** What the amount field of the form refuses. *)
Lemma validate_amount_field_refuses config data :
  validate_amount_field config data = false <->
  data = None \/
  exists d, data = Some d /\
    ((dec_value d == 0)%Q \/
     (dec_value d < dec_value (MIN_AMOUNT config))%Q \/
     (dec_value (MAX_AMOUNT config) < dec_value d)%Q).
Proof.
  destruct data as [d|]; simpl; [|split; [by left | done]].
  unfold validate_amount.
  rewrite !andb_false_iff, !negb_false_iff, dec_truthy_false_value, !dec_ltb_value.
  split.
  - intros H. right. by exists d.
  - intros [? | (d' & [= <-] & H)]; done.
Qed.

(** * What the engine operations do to a store *)

Section EngineFacts.

Variable env : Env.

Lemma wp_db_insert_transaction row Q E w :
  (forall e, fault env (tick w) = Some e -> E e (next_tick w)) ->
  (fault env (tick w) = None ->
   store_numeric_columns (row (utc_clock env (tick w))) = None ->
     E "DataError: numeric field overflow" (next_tick w)) ->
  (fault env (tick w) = None ->
   forall t, transactions w !! uuid4 env (tick w) = Some t ->
     E "IntegrityError" (next_tick w)) ->
  (fault env (tick w) = None ->
   forall stored,
     store_numeric_columns (row (utc_clock env (tick w))) = Some stored ->
     transactions w !! uuid4 env (tick w) = None ->
     Q (uuid4 env (tick w))
       (with_transactions (insert (uuid4 env (tick w)) stored) (next_tick w))) ->
  wp (db_insert_transaction env row) Q E w.
Proof.
  intros HE HD HI HQ. apply wp_bind, wp_external; [done|].
  intros Hf. unfold wp. simpl.
  destruct (store_numeric_columns (row (utc_clock env (tick w))))
    as [stored|] eqn:Hst; [|eauto].
  destruct (transactions w !! uuid4 env (tick w)) as [t|] eqn:Ht; eauto.
Qed.

(** The row a creation adds carries the amount asked for, the fee computed
    from the configured rate and the output computed from the fee, each as
    its column stores it. *)
Lemma create_mixing_transaction_row config a o s i u w id t :
  transactions w !! id = None ->
  transactions (fst (create_mixing_transaction env config a o s i u w)) !! id
    = Some t ->
  stored_amounts_of config a t /\
  status t = PENDING /\ mixing_rounds_completed t = 0 /\ output_txid t = None.
Proof.
  intros Hnone. revert t.
  apply (fst_wp _ (fun w' => forall t, transactions w' !! id = Some t -> _)).
  unfold create_mixing_transaction.
  wp_step. wp_step. 1: (simpl; congruence).
  wp_step. wp_step. 1: (simpl; congruence).
  wp_step. wp_step. wp_step.
  apply wp_db_insert_transaction;
    [intros ? ? | intros ? ? | intros ? ? ? | intros ? stored Hst ?].
  1-3: (simpl; congruence).
  apply store_numeric_columns_Some in Hst as (ia & fa & oa & Hi & Hf & Ho & ->).
  repeat wp_step; intros t; simpl; rewrite lookup_insert; case_decide;
    solve [ by intros [= <-] | congruence ].
Qed.

End EngineFacts.

(** The primary keys a query returns are those of the rows that satisfy
    its filter. *)
Lemma elem_of_query_ids (p : MixingTransaction -> bool)
    (m : gmap nat MixingTransaction) id :
  id ∈ map fst (filter (fun kv => p (snd kv)) (map_to_list m)) <->
  exists t, m !! id = Some t /\ p t = true.
Proof.
  rewrite list_elem_of_In, in_map_iff. split.
  - intros ([k t] & <- & Hin). apply list_elem_of_In, list_elem_of_filter in Hin.
    destruct Hin as [Hp Hin]. apply elem_of_map_to_list in Hin.
    exists t. split; [done | by apply Is_true_eq_true].
  - intros (t & Ht & Hp). exists (id, t). split; [done|].
    apply list_elem_of_In, list_elem_of_filter. split.
    + simpl. by rewrite Hp.
    + by apply elem_of_map_to_list.
Qed.

Section Cleanup.

Variable env : Env.

Lemma cleanup_old_transactions_run w :
  fault env (S (tick w)) = None ->
  fault env (S (S (tick w))) = None ->
  fault env (S (S (S (tick w)))) = None ->
  wp (cleanup_old_transactions env)
    (fun r w' =>
       (exists n, r = CleanedUp n) /\
       forall id t, transactions w !! id = Some t ->
         transactions w' !! id =
           if created_at t <? utc_clock env (tick w) - timedelta_days 30
           then None else Some t)
    (fun _ _ => False) w.
Proof.
  intros H1 H2 H3. unfold cleanup_old_transactions.
  do 5 wp_step. 1: (simpl in *; congruence).
  wp_step. unfold query_alerts. do 2 wp_step. 1: (simpl in *; congruence).
  unfold wp at 1; cbv beta iota.
  wp_step. unfold db_commit_deletes. do 2 wp_step. 1: (simpl in *; congruence).
  unfold wp at 1; cbv beta iota.
  wp_step. split; [by eexists|].
  intros id t Ht. simpl.
  destruct (created_at t <? _) eqn:Hold.
  - apply lookup_foldr_delete.
    apply (elem_of_query_ids (fun t0 => created_at t0 <? _)). by exists t.
  - apply lookup_foldr_delete_Some. split; [|done].
    rewrite (elem_of_query_ids (fun t0 => created_at t0 <? _)).
    intros (t' & Ht' & Hp).
    replace t' with t in Hp by congruence. congruence.
Qed.

End Cleanup.

(** ** The pool *)

Lemma elem_of_insert_by_last_used (x p : MixingPool) l :
  x ∈ insert_by_last_used p l <-> x = p \/ x ∈ l.
Proof.
  induction l as [|q l IH]; simpl.
  - rewrite list_elem_of_singleton. split; [auto | intros [?|H]; [done | inversion H]].
  - destruct (last_used_leb p q); rewrite !elem_of_cons, ?IH; tauto.
Qed.

Lemma elem_of_order_by_last_used (x : MixingPool) l :
  x ∈ order_by_last_used l <-> x ∈ l.
Proof.
  induction l as [|q l IH]; simpl; [done|].
  rewrite elem_of_insert_by_last_used, elem_of_cons, IH. tauto.
Qed.

Section Pool.
Variable env : Env.

Lemma elem_of_selected_pools p n w :
  p ∈ selected_pools n w -> p ∈ mixing_pool w /\ is_active p = true.
Proof.
  intros Hp. apply elem_of_take in Hp as (i & Hi & _).
  apply list_elem_of_lookup_2 in Hi.
  apply elem_of_order_by_last_used, list_elem_of_filter in Hi. tauto.
Qed.

Lemma wp_query_active_pools n Q E w :
  (forall e, fault env (tick w) = Some e -> E e (next_tick w)) ->
  (fault env (tick w) = None -> Q (selected_pools n w) (next_tick w)) ->
  wp (query_active_pools env n) Q E w.
Proof.
  intros HE HQ. apply wp_bind, wp_external; [done|].
  intros Hf. by apply HQ.
Qed.

Lemma generate_pool_addresses_same_pool n :
  steps (fun w w' => mixing_pool w' = mixing_pool w) (generate_pool_addresses env n).
Proof.
  apply steps_generate_pool_addresses; first [ by intros | congruence ].
Qed.

Lemma get_mixing_pool_addresses_selected n w :
  wp (get_mixing_pool_addresses env n)
    (fun l w' => l = map address (selected_pools n w'))
    (fun _ _ => True) w.
Proof.
  unfold get_mixing_pool_addresses.
  wp_step. apply wp_query_active_pools; [done | intros Hf].
  wp_step. destruct (_ <? _)%nat.
  - wp_step.
    eapply wp_steps; [apply generate_pool_addresses_same_pool | | done].
    intros new w1 Hw1. wp_step. unfold db_insert_pools.
    wp_step. wp_step; [done|]. unfold wp at 1; cbv beta iota.
    case_bool_decide; [|done].
    apply wp_query_active_pools; [done | intros Hf'].
    by wp_step.
  - wp_step. by wp_step.
Qed.
End Pool.

(** ** The form *)

Lemma same_ledger_trans w1 w2 w3 :
  same_ledger w1 w2 -> same_ledger w2 w3 -> same_ledger w1 w3.
Proof. intros [? ?] [? ?]. split; congruence. Qed.

Section Form.

Variable env : Env.

Lemma validate_output_address_field_same_ledger data :
  steps same_ledger (validate_output_address_field env data).
Proof.
  unfold validate_output_address_field.
  destruct (output_address_required data).
  - apply steps_validate_bitcoin_address;
      first [ exact same_ledger_trans | by intros ].
  - by apply steps_ret.
Qed.

(** Validation answers; it never raises. *)
Lemma validate_output_address_field_returns data w :
  exists b, snd (validate_output_address_field env data w) = Ok b.
Proof.
  cut (wp (validate_output_address_field env data)
          (fun _ _ => True) (fun _ _ => False) w).
  { unfold wp. destruct (validate_output_address_field env data w) as [w' [b|e]];
      simpl; [by exists b | done]. }
  unfold validate_output_address_field, validate_bitcoin_address.
  repeat wp_step; done.
Qed.

(** The answer of the address field: a blank address is refused without
    asking the wallet, any other is refused unless the wallet answers that
    it is valid. *)
Lemma validate_output_address_field_run data w :
  validate_output_address_field env data w =
    if is_blank data then (w, Ok false)
    else (next_tick (with_rpc_calls (cons (RpcValidateAddress data)) w),
          Ok match fault env (tick w) with
             | Some _ => false
             | None => default false (wallet_validateaddress env (tick w) data)
             end).
Proof.
  unfold validate_output_address_field, output_address_required.
  destruct (is_blank data); simpl; [done|].
  unfold validate_bitcoin_address, try_except, bind, rpc, external. simpl.
  by destruct (fault env (tick w)).
Qed.

End Form.

(** * Payouts *)

Lemma row_untouched_refl id w : row_untouched id w w.
Proof. done. Qed.

Lemma row_untouched_trans id w1 w2 w3 :
  row_untouched id w1 w2 -> row_untouched id w2 w3 -> row_untouched id w1 w3.
Proof. intros [? ?] [? ?]. split; congruence. Qed.

Lemma row_untouched_log id l w :
  transaction_id l <> id -> row_untouched id w (with_mixing_logs (cons l) w).
Proof.
  intros Hne. split; [done|]. unfold logs_of. simpl.
  by rewrite filter_cons_False.
Qed.

Lemma row_untouched_set id j f w :
  j <> id -> row_untouched id w (with_transactions (alter f j) w).
Proof. intros Hne. split; [|done]. simpl. by rewrite lookup_alter_ne. Qed.

Section Payout.

Variable env : Env.

(** A payout attempt on another transaction leaves [id] alone. *)
Lemma send_output_transaction_untouched id j :
  j <> id -> steps (row_untouched id) (send_output_transaction env j).
Proof.
  intros Hne.
  apply (steps_send_output_transaction env (row_untouched id) (fun k => k <> id));
    first [ exact (row_untouched_trans id)
          | by intros; apply row_untouched_log
          | by intros; apply row_untouched_set
          | by intros ].
Qed.

(** A payout attempt on a transaction that is missing or not COMPLETED
    writes nothing and asks the wallet for nothing. *)
Lemma send_output_transaction_requires_completed j w :
  (forall t, transactions w !! j = Some t -> status t <> COMPLETED) ->
  same_ledger w (fst (send_output_transaction env j w)) /\
  rpc_calls (fst (send_output_transaction env j w)) = rpc_calls w.
Proof.
  intros Hj.
  apply (fst_wp _ (fun w' => same_ledger w w' /\ rpc_calls w' = rpc_calls w)).
  unfold send_output_transaction.
  wp_step. wp_step; [done|].
  wp_step; [|by wp_step].
  wp_step; [by wp_step|].
  apply negb_false_iff, bool_decide_eq_true in Heqb. by destruct (Hj _ eq_refl).
Qed.

(** A payout attempt asks the wallet for at most one transfer. *)
Lemma send_output_transaction_sends j w :
  (count_sends (rpc_calls (fst (send_output_transaction env j w)))
   <= S (count_sends (rpc_calls w)))%nat.
Proof.
  apply (fst_wp _ (fun w' => (count_sends (rpc_calls w') <= _)%nat)).
  unfold send_output_transaction.
  repeat first [ wp_step | apply wp_getattr; [intros ? ? | intros ?] ];
    simpl; lia.
Qed.

Lemma fst_send_each tx w :
  fst (send_each env tx w) = fst (send_output_transaction env tx w).
Proof.
  unfold send_each, bind. by destruct (send_output_transaction env tx w) as [? [|]].
Qed.

Lemma for_each_send_sends txs w :
  (count_sends (rpc_calls (fst (for_each txs (send_each env) w)))
   <= count_sends (rpc_calls w) + length txs)%nat.
Proof.
  revert w. induction txs as [|tx txs IH]; intros w; simpl; [lia|].
  pose proof (send_output_transaction_sends tx w) as Hs.
  rewrite <- fst_send_each in Hs. unfold bind at 1.
  destruct (send_each env tx w) as [w1 [[]|e]]; simpl in *; [|lia].
  specialize (IH w1). lia.
Qed.

Lemma for_each_send_untouched id txs :
  id ∉ txs -> steps (row_untouched id) (for_each txs (send_each env)).
Proof.
  intros Hid.
  apply steps_for_each; [done | exact (row_untouched_trans id) |].
  intros tx Htx w. rewrite fst_send_each.
  apply send_output_transaction_untouched. intros ->. done.
Qed.

(** The payout-due task never selects a transaction that carries a payout
    reference. *)
Lemma paid_not_due now (m : gmap nat MixingTransaction) id t :
  m !! id = Some t -> output_txid t <> None ->
  id ∉ map fst (filter (fun kv => output_is_due now (snd kv)) (map_to_list m)).
Proof.
  intros Ht Hpaid Hin.
  apply (elem_of_query_ids (output_is_due now)) in Hin.
  destruct Hin as (t' & Ht' & Hdue). replace t' with t in Hdue by congruence.
  unfold output_is_due in Hdue.
  apply andb_true_iff in Hdue as [_ Hnone].
  by apply bool_decide_eq_true in Hnone.
Qed.

(** What the query of the payout-due task selects. *)
Lemma elem_of_due_outputs now w k t :
  (k, t) ∈ due_outputs now w <->
  transactions w !! k = Some t /\ status t = COMPLETED /\ output_txid t = None /\
  exists time, scheduled_output_time t = Some time /\ time <= now.
Proof.
  unfold due_outputs. rewrite list_elem_of_filter, elem_of_map_to_list. simpl.
  unfold output_is_due. split.
  - intros [Hdue Hk]. apply Is_true_eq_true in Hdue.
    apply andb_true_iff in Hdue as [Hdue Hnone].
    apply andb_true_iff in Hdue as [Hs Htime].
    apply bool_decide_eq_true in Hs, Hnone.
    destruct (scheduled_output_time t) as [time|]; [|done].
    apply Z.leb_le in Htime. repeat split; try done. by exists time.
  - intros (Hk & Hs & Hnone & time & Htime & Hle). split; [|done].
    apply Is_true_eq_left. rewrite Htime.
    rewrite !bool_decide_true by done. simpl. rewrite andb_true_r.
    by apply Z.leb_le.
Qed.

(** One pass of the payout-due task writes to the transactions it selected
    and to no other, and asks the wallet for at most one transfer per
    transaction it selected. *)
Lemma send_scheduled_outputs_one_pass w :
  (forall id, id ∉ map fst (due_outputs (utc_clock env (tick w)) w) ->
     row_untouched id w (fst (send_scheduled_outputs env w))) /\
  (count_sends (rpc_calls (fst (send_scheduled_outputs env w)))
   <= count_sends (rpc_calls w)
      + length (due_outputs (utc_clock env (tick w)) w))%nat.
Proof.
  set (P := fun w' : World =>
    (forall id, id ∉ map fst (due_outputs (utc_clock env (tick w)) w) ->
       row_untouched id w w') /\
    (count_sends (rpc_calls w') <= count_sends (rpc_calls w)
       + length (due_outputs (utc_clock env (tick w)) w))%nat).
  apply (fst_wp _ P).
  unfold send_scheduled_outputs.
  do 5 wp_step.
  { wp_step. unfold P. simpl. split; [done | lia]. }
  wp_step.
  change (fun tx : nat => let! _ := send_output_transaction env tx in ret tt)
    with (send_each env).
  match goal with |- wp (for_each ?l _) _ _ ?w0 =>
    set (ready := l); set (w2 := w0) end.
  assert (Hloop : P (fst (for_each ready (send_each env) w2))).
  { split.
    - intros id Hid.
      destruct (for_each_send_untouched id ready) with (w := w2) as [Hrow Hlogs];
        [exact Hid|].
      split; [by rewrite Hrow | by rewrite Hlogs].
    - pose proof (for_each_send_sends ready w2) as Hs.
      subst ready w2. unfold due_outputs. rewrite length_map in Hs. simpl in Hs.
      exact Hs. }
  eapply wp_mono; [apply (wp_fst _ P); exact Hloop | |].
  - intros ? w' Hw'. by wp_step.
  - intros e w' Hw'. by wp_step.
Qed.

End Payout.

(** * The concrete run *)

(** 1.0 at a fee rate of 0.03: the row holds 1.00000000, the fee
    0.03000000 and the output 0.97000000. *)
Example creation_splits_the_amount :
  exists t, transactions demo_created !! 3%nat = Some t /\
    status t = PENDING /\ input_amount t = mkDecimal 100000000 (-8) /\
    fee_amount t = mkDecimal 3000000 (-8) /\
    output_amount t = mkDecimal 97000000 (-8).
Proof. eexists. split; [vm_compute; reflexivity | repeat split]. Qed.

(** Half of the amount received: the check answers False and the
    transaction stays PENDING. *)
Example underpayment_stays_pending :
  snd (check_incoming_payment (half_paid demo_env) 3 demo_created) = Ok false /\
  exists t,
    transactions (fst (check_incoming_payment (half_paid demo_env) 3 demo_created))
      !! 3%nat = Some t /\ status t = PENDING.
Proof.
  split; [vm_compute; reflexivity|].
  eexists. split; [vm_compute; reflexivity | reflexivity].
Qed.

(** Three ticks of the round-advance task complete the transaction. *)
Example three_rounds_complete :
  exists t, transactions demo_completed !! 3%nat = Some t /\
    status t = COMPLETED /\ mixing_rounds_completed t = 3 /\
    output_txid t = None /\
    count_logs 3 OUTPUT_SCHEDULED demo_completed = 1%nat.
Proof. eexists. split; [vm_compute; reflexivity | repeat split]. Qed.

(** A payout the wallet refuses leaves the transaction COMPLETED, with the
    message recorded and one more retry counted. *)
Example refused_payout_is_retryable :
  snd (send_output_transaction (failing_at 39 "wallet down" demo_env) 3
         demo_completed) = Ok false /\
  exists t,
    transactions (fst (send_output_transaction
                         (failing_at 39 "wallet down" demo_env) 3 demo_completed))
      !! 3%nat = Some t /\
    status t = COMPLETED /\ output_txid t = None /\
    error_message t = Some "wallet down" /\ retry_count t = 1.
Proof.
  split; [vm_compute; reflexivity|].
  eexists. split; [vm_compute; reflexivity | repeat split].
Qed.

(** Two rounds requested one after the other both run: the second caller
    meets no guard on the round just written. *)
Example two_rounds_in_a_row :
  snd (perform_mixing_round demo_env demo_config 3 demo_funded) = Ok true /\
  snd (perform_mixing_round demo_env demo_config 3
         (fst (perform_mixing_round demo_env demo_config 3 demo_funded)))
    = Ok true /\
  exists t,
    transactions
      (fst (perform_mixing_round demo_env demo_config 3
              (fst (perform_mixing_round demo_env demo_config 3 demo_funded))))
      !! 3%nat = Some t /\
    mixing_rounds_completed t = 2.
Proof.
  split; [vm_compute; reflexivity|]. split; [vm_compute; reflexivity|].
  eexists. split; [vm_compute; reflexivity | reflexivity].
Qed.

(** [process_mixing] runs one round and stops on the delay it cannot
    compute. *)
Example process_mixing_stops_after_one_round :
  snd (process_mixing demo_env demo_config 3 demo_funded)
    = Ok (TaskError "NameError: name 'random' is not defined") /\
  exists t,
    transactions (fst (process_mixing demo_env demo_config 3 demo_funded))
      !! 3%nat = Some t /\
    status t = MIXING /\ mixing_rounds_completed t = 1.
Proof.
  split; [vm_compute; reflexivity|].
  eexists. split; [vm_compute; reflexivity | repeat split].
Qed.

(** A request that passes the form of the /mixer route is answered with
    a 500: the suspicious-activity check raises before the transaction is
    created. *)
Example mixer_aborts_on_a_valid_form :
  snd (mixer demo_env demo_config demo_valid_form "session" "ip" "agent"
         initial_world) = Ok (Abort 500) /\
  transactions (fst (mixer demo_env demo_config demo_valid_form
                       "session" "ip" "agent" initial_world)) = ∅.
Proof. split; vm_compute; reflexivity. Qed.

(** The loop of [process_mixing] never needs more than its first turn. *)
Lemma process_mixing_loop_fuel env config id fuel w :
  process_mixing_loop env (S fuel) config id w
  = process_mixing_loop env 1 config id w.
Proof.
  simpl. unfold bind.
  destruct (getattr id mixing_rounds_completed w) as [w1 [rounds|e]]; [|done].
  destruct (rounds <? MIXING_ROUNDS config); [|done].
  destruct (perform_mixing_round env config id w1) as [w2 [ok|e]]; [|done].
  by destruct ok.
Qed.



(** * The pool of holding addresses *)

Lemma length_insert_by_last_used p l :
  length (insert_by_last_used p l) = S (length l).
Proof.
  induction l as [|q l IH]; simpl; [done|].
  destruct (last_used_leb p q); simpl; [done | by rewrite IH].
Qed.

Lemma length_order_by_last_used l : length (order_by_last_used l) = length l.
Proof.
  induction l as [|q l IH]; simpl; [done|].
  by rewrite length_insert_by_last_used, IH.
Qed.

Lemma length_selected_pools n w :
  length (selected_pools n w) = (n `min` length (active_pools w))%nat.
Proof.
  unfold selected_pools, active_pools.
  by rewrite length_take, length_order_by_last_used.
Qed.

Lemma replicate_app_cons {A} n (x : A) l :
  replicate n x ++ x :: l = x :: replicate n x ++ l.
Proof. induction n as [|n IH]; simpl; [done | by rewrite IH]. Qed.

Section PoolFacts.

Variable env : Env.

(** The entries generated for the pool: as many as asked for, all active,
    none of them marked as used; the pool table itself is written by the
    commit that follows. *)
Lemma generate_pool_addresses_new n w :
  wp (generate_pool_addresses env n)
    (fun new w' =>
       length new = n /\
       Forall (fun p => is_active p = true /\ last_used p = None) new /\
       mixing_pool w' = mixing_pool w /\
       calls_since w w' (replicate n (RpcGetNewAddress "mixing_pool")))
    (fun _ w' =>
       mixing_pool w' = mixing_pool w /\
       exists k, (k <= n)%nat /\
         calls_since w w' (replicate k (RpcGetNewAddress "mixing_pool")))
    w.
Proof.
  revert w. induction n as [|n IH]; intros w; simpl.
  - wp_step. by repeat split.
  - wp_step. wp_step.
    + simpl. split; [done|]. exists 1%nat. split; [lia | done].
    + wp_step. eapply wp_mono; [apply IH | |].
      * intros new w' (Hlen & Hact & Hpool & Hcalls). wp_step.
        simpl. split; [by rewrite Hlen|]. split; [by constructor|].
        split; [done|]. unfold calls_since in *. rewrite Hcalls. simpl.
        apply replicate_app_cons.
      * intros e w' (Hpool & k & Hk & Hcalls). split; [done|].
        exists (S k). split; [lia|]. unfold calls_since in *. rewrite Hcalls. simpl.
        apply replicate_app_cons.
Qed.

End PoolFacts.

Section PoolRun.

Variable env : Env.

Lemma active_pools_app w new :
  Forall (fun p => is_active p = true /\ last_used p = None) new ->
  filter (fun p => is_active p = true) (mixing_pool w ++ new)
  = active_pools w ++ new.
Proof.
  intros Hnew. unfold active_pools. rewrite filter_app. f_equal.
  induction Hnew as [|p new [Hp _] _ IH]; [done|].
  by rewrite filter_cons_True, IH.
Qed.

(** One call of [get_mixing_pool_addresses]: the entries missing from the
    pool are asked of the wallet, one call each, and appended. *)
Lemma get_mixing_pool_addresses_run count w :
  wp (get_mixing_pool_addresses env count)
    (fun l w' =>
       length l = count /\ l = map address (selected_pools count w') /\
       exists new,
         mixing_pool w' = mixing_pool w ++ new /\
         length new = (count - length (active_pools w))%nat /\
         Forall (fun p => is_active p = true /\ last_used p = None) new /\
         (NoDup (map address (mixing_pool w)) ->
          NoDup (map address (mixing_pool w'))) /\
         calls_since w w'
           (replicate (length new) (RpcGetNewAddress "mixing_pool")))
    (fun _ w' =>
       exists new k,
         mixing_pool w' = mixing_pool w ++ new /\
         (length new <= count - length (active_pools w))%nat /\
         Forall (fun p => is_active p = true /\ last_used p = None) new /\
         (NoDup (map address (mixing_pool w)) ->
          NoDup (map address (mixing_pool w'))) /\
         (k <= count - length (active_pools w))%nat /\
         calls_since w w' (replicate k (RpcGetNewAddress "mixing_pool")))
    w.
Proof.
  unfold get_mixing_pool_addresses.
  wp_step. apply wp_query_active_pools.
  { intros e He. exists [], 0%nat. simpl. rewrite app_nil_r.
    repeat split; first [lia | done]. }
  intros Hf. pose proof (length_selected_pools count w) as Hsel.
  wp_step. destruct (Nat.ltb_spec (length (selected_pools count w)) count) as [Hlt|Hge].
  - assert (Hact : length (selected_pools count w) = length (active_pools w)) by lia.
    rewrite Hact.
    wp_step. eapply wp_mono; [apply generate_pool_addresses_new | |].
    2: { intros e w' (Hpool & k & Hk & Hcalls). exists [], k. simpl in *.
         rewrite app_nil_r. rewrite Hpool.
         repeat split; first [lia | done]. }
    intros new w1 (Hlen & Hnew & Hpool & Hcalls). simpl in Hpool, Hcalls.
    wp_step. unfold db_insert_pools. wp_step. wp_step.
    { exists [], (length new). simpl. rewrite app_nil_r, Hpool.
      repeat split; first [lia | done | by rewrite Hlen]. }
    unfold wp at 1; cbv beta iota. case_bool_decide as Hnodup.
    2: { exists [], (length new). simpl. rewrite app_nil_r, Hpool.
         repeat split; first [lia | done | by rewrite Hlen]. }
    simpl in Hnodup. rewrite Hpool in Hnodup.
    apply wp_query_active_pools.
    { intros e He. exists new, (length new). simpl. rewrite Hpool.
      repeat split; first [lia | done | by rewrite Hlen]. }
    intros Hf'. wp_step. simpl.
    split.
    { rewrite length_map, length_selected_pools. unfold active_pools at 1.
      simpl. rewrite Hpool, (active_pools_app w new Hnew), length_app. lia. }
    split; [done|]. exists new. simpl. rewrite Hpool, Hlen. done.
  - wp_step. wp_step. simpl.
    split; [rewrite length_map; lia|]. split; [done|].
    exists []. simpl. rewrite app_nil_r. repeat split; first [lia | done].
Qed.

End PoolRun.

(** X1.  A call of [get_mixing_pool_addresses] that returns hands out
    exactly [count] addresses, each of an active entry of the pool table,
    after asking the wallet for exactly the entries that were missing and
    appending them to the table. *)
Theorem get_mixing_pool_addresses_fills (env : Env) (count : nat) (w : World)
    (l : list string) :
  snd (get_mixing_pool_addresses env count w) = Ok l ->
  length l = count /\
  (forall a, a ∈ l ->
     exists p, p ∈ mixing_pool (fst (get_mixing_pool_addresses env count w)) /\
       address p = a /\ is_active p = true) /\
  exists new,
    mixing_pool (fst (get_mixing_pool_addresses env count w))
      = mixing_pool w ++ new /\
    length new = (count - length (active_pools w))%nat /\
    calls_since w (fst (get_mixing_pool_addresses env count w))
      (replicate (length new) (RpcGetNewAddress "mixing_pool")).
Proof.
  intros Hok. pose proof (get_mixing_pool_addresses_run env count w) as Hrun.
  unfold wp in Hrun.
  destruct (get_mixing_pool_addresses env count w) as [w' [l'|e]];
    simpl in *; [|discriminate].
  injection Hok as ->.
  destruct Hrun as (Hlen & Hl & new & Hpool & Hnew & _ & _ & Hcalls).
  split; [exact Hlen|]. split.
  - intros a Ha. rewrite Hl in Ha. apply list_elem_of_fmap in Ha as (p & -> & Hp).
    exists p. destruct (elem_of_selected_pools p count w' Hp). done.
  - exists new. done.
Qed.

Lemma get_mixing_pool_addresses_fills_witness :
  exists l, snd (get_mixing_pool_addresses demo_env 5 initial_world) = Ok l /\
    length l = 5%nat /\
    length (mixing_pool (fst (get_mixing_pool_addresses demo_env 5 initial_world)))
      = 5%nat.
Proof.
  destruct (snd (get_mixing_pool_addresses demo_env 5 initial_world))
    as [l|e] eqn:Hl; [|vm_compute in Hl; discriminate].
  exists l. split; [reflexivity|].
  destruct (get_mixing_pool_addresses_fills demo_env 5 initial_world l Hl)
    as (Hlen & _ & new & Hpool & Hnew & _).
  split; [exact Hlen|]. rewrite Hpool, length_app, Hnew. reflexivity.
Defined.

(** X2.  Once a call of [get_mixing_pool_addresses] has returned, the next
    call with the same count asks the wallet for nothing, leaves the pool
    table as it is and, when its query is answered, returns the same
    addresses: no entry is ever marked as used or retired. *)
Theorem get_mixing_pool_addresses_settles (env : Env) (count : nat) (w : World)
    (l : list string) :
  snd (get_mixing_pool_addresses env count w) = Ok l ->
  mixing_pool (fst (get_mixing_pool_addresses env count
                      (fst (get_mixing_pool_addresses env count w))))
    = mixing_pool (fst (get_mixing_pool_addresses env count w)) /\
  rpc_calls (fst (get_mixing_pool_addresses env count
                    (fst (get_mixing_pool_addresses env count w))))
    = rpc_calls (fst (get_mixing_pool_addresses env count w)) /\
  (fault env (tick (fst (get_mixing_pool_addresses env count w))) = None ->
   snd (get_mixing_pool_addresses env count
          (fst (get_mixing_pool_addresses env count w))) = Ok l).
Proof.
  intros Hok. pose proof (get_mixing_pool_addresses_run env count w) as Hrun.
  unfold wp in Hrun.
  destruct (get_mixing_pool_addresses env count w) as [w1 [l'|e]];
    simpl in *; [|discriminate].
  injection Hok as ->.
  destruct Hrun as (Hlen & Hl & _).
  assert (Hfull : (count <= length (active_pools w1))%nat).
  { rewrite Hl, length_map, length_selected_pools in Hlen. lia. }
  pose proof (get_mixing_pool_addresses_run env count w1) as Hrun.
  unfold wp in Hrun.
  assert (Hsnd : fault env (tick w1) = None ->
            snd (get_mixing_pool_addresses env count w1) = Ok l).
  { intros Hf. unfold get_mixing_pool_addresses, query_active_pools, bind, external.
    rewrite Hf. simpl.
    change (selected_pools count (next_tick w1)) with (selected_pools count w1).
    replace (length (selected_pools count w1) <? count)%nat with false.
    - simpl. by rewrite Hl.
    - symmetry. apply Nat.ltb_ge. rewrite length_selected_pools. lia. }
  destruct (get_mixing_pool_addresses env count w1) as [w2 [l2|e]]; simpl in *.
  - destruct Hrun as (_ & _ & new & Hpool & Hnew & _ & _ & Hcalls).
    replace (count - length (active_pools w1))%nat with 0%nat in Hnew by lia.
    destruct new; [|discriminate]. rewrite app_nil_r in Hpool. done.
  - destruct Hrun as (new & k & Hpool & Hnew & _ & _ & Hk & Hcalls).
    destruct new; [|simpl in Hnew; lia]. rewrite app_nil_r in Hpool.
    replace k with 0%nat in Hcalls by lia. done.
Qed.

Lemma get_mixing_pool_addresses_settles_witness :
  exists l, snd (get_mixing_pool_addresses demo_env 5 initial_world) = Ok l /\
    snd (get_mixing_pool_addresses demo_env 5
           (fst (get_mixing_pool_addresses demo_env 5 initial_world))) = Ok l.
Proof.
  destruct (snd (get_mixing_pool_addresses demo_env 5 initial_world))
    as [l|e] eqn:Hl; [|vm_compute in Hl; discriminate].
  exists l. split; [reflexivity|].
  exact (proj2 (proj2 (get_mixing_pool_addresses_settles demo_env 5
                         initial_world l Hl)) eq_refl).
Defined.

(** * Creation *)

Section Creation.

Variable env : Env.

(** The row of a creation, given the address, the delay and the two clock
    readings drawn on the way. *)
Lemma create_mixing_transaction_run config a o s i u w :
  wp (create_mixing_transaction env config a o s i u)
    (fun id w' =>
       transactions w !! id = None /\
       exists delay ts stored,
         DELAY_MINUTES_MIN config <= delay <= DELAY_MINUTES_MAX config /\
         store_numeric_columns
           (mkTx s a (dec_mul a (FEE_PERCENT config))
              (dec_sub a (dec_mul a (FEE_PERCENT config)))
              (wallet_getnewaddress env (tick w)) o None PENDING 0
              None None (utc_clock env (S (S (S (tick w))))) None None
              (Some (utc_clock env (S (S (tick w))) + timedelta_minutes delay))
              i u None 0) = Some stored /\
         transactions w' = <[id := stored]> (transactions w) /\
         mixing_logs w' =
           mkLog id ts CREATED
             [("input_amount", DDecimalStr a); ("output_address", DStr o);
              ("delay_minutes", DInt delay)] :: mixing_logs w)
    (fun _ w' =>
       mixing_logs w' = mixing_logs w /\
       (DELAY_MINUTES_MAX config < DELAY_MINUTES_MIN config ->
        transactions w' = transactions w))
    w.
Proof.
  unfold create_mixing_transaction.
  wp_step. wp_step; [done|].
  wp_step. apply wp_random_randint; [done | intros delay Hdelay].
  wp_step. wp_step. wp_step.
  apply wp_db_insert_transaction;
    [intros e He | intros Hf Hst | intros Hf t Ht | intros Hf stored Hst Hnone].
  1-3: (split; [done | intros; lia]).
  wp_step. wp_step; [split; [done | intros; lia]|].
  wp_step. simpl in *. split; [done|].
  exists delay. eexists. exists stored. split; [done|]. split; [exact Hst|].
  split; reflexivity.
Qed.

End Creation.

(** X3.  With DELAY_MINUTES_MAX below DELAY_MINUTES_MIN every creation
    raises: the wallet has been asked for an input address, and neither a
    transaction nor a log entry is stored. *)
Theorem create_mixing_transaction_empty_delay_range (env : Env) (config : Config)
    (a : Decimal) (o s i u : string) (w : World) :
  DELAY_MINUTES_MAX config < DELAY_MINUTES_MIN config ->
  (exists e, snd (create_mixing_transaction env config a o s i u w) = Raise e) /\
  same_ledger w (fst (create_mixing_transaction env config a o s i u w)) /\
  calls_since w (fst (create_mixing_transaction env config a o s i u w))
    [RpcGetNewAddress "mixer_input"].
Proof.
  intros Hrange.
  cut (wp (create_mixing_transaction env config a o s i u)
         (fun _ _ => False)
         (fun _ w' => same_ledger w w' /\
                      calls_since w w' [RpcGetNewAddress "mixer_input"]) w).
  { unfold wp.
    destruct (create_mixing_transaction env config a o s i u w) as [w' [id|e]];
      simpl; [done|]. intros [? ?]. split; [by exists e | done]. }
  unfold create_mixing_transaction.
  wp_step. wp_step; [done|].
  wp_step. apply wp_random_randint; [done | intros delay Hdelay]. lia.
Qed.

Lemma create_mixing_transaction_empty_delay_range_witness :
  DELAY_MINUTES_MAX (mkConfig (mkDecimal 1 (-3)) (mkDecimal 100 0)
                       (mkDecimal 3 (-2)) 3 60 10)
    < DELAY_MINUTES_MIN (mkConfig (mkDecimal 1 (-3)) (mkDecimal 100 0)
                           (mkDecimal 3 (-2)) 3 60 10) /\
  transactions
    (fst (create_mixing_transaction demo_env
            (mkConfig (mkDecimal 1 (-3)) (mkDecimal 100 0) (mkDecimal 3 (-2)) 3 60 10)
            (mkDecimal 10 (-1)) "destination" "session" "ip" "agent"
            initial_world))
    = transactions initial_world.
Proof.
  assert (H : DELAY_MINUTES_MAX (mkConfig (mkDecimal 1 (-3)) (mkDecimal 100 0)
                                   (mkDecimal 3 (-2)) 3 60 10)
              < DELAY_MINUTES_MIN (mkConfig (mkDecimal 1 (-3)) (mkDecimal 100 0)
                                     (mkDecimal 3 (-2)) 3 60 10))
    by (simpl; lia).
  split; [exact H|].
  exact (proj1 (proj1 (proj2 (create_mixing_transaction_empty_delay_range
                                demo_env _ (mkDecimal 10 (-1)) "destination"
                                "session" "ip" "agent" initial_world H)))).
Defined.

(** X4.  A creation that returns has stored one new row, under a primary
    key not in use, and one CREATED log entry: the row is PENDING with no
    round, no holding address and no wallet reference, it is paid in at the
    address the wallet handed out, and its payout is scheduled between
    DELAY_MINUTES_MIN and DELAY_MINUTES_MAX minutes after the clock
    reading; every other row is as before. *)
Theorem create_mixing_transaction_schedules (env : Env) (config : Config)
    (a : Decimal) (o s i u : string) (w : World) (id : nat) :
  snd (create_mixing_transaction env config a o s i u w) = Ok id ->
  transactions w !! id = None /\
  exists t delay ts,
    transactions (fst (create_mixing_transaction env config a o s i u w))
      = <[id := t]> (transactions w) /\
    DELAY_MINUTES_MIN config <= delay <= DELAY_MINUTES_MAX config /\
    scheduled_output_time t
      = Some (utc_clock env (S (S (tick w))) + timedelta_minutes delay) /\
    status t = PENDING /\ mixing_rounds_completed t = 0 /\
    mixing_address t = None /\ input_txid t = None /\ output_txid t = None /\
    input_address t = wallet_getnewaddress env (tick w) /\
    output_address t = o /\ session_id t = s /\
    mixing_logs (fst (create_mixing_transaction env config a o s i u w))
      = mkLog id ts CREATED
          [("input_amount", DDecimalStr a); ("output_address", DStr o);
           ("delay_minutes", DInt delay)] :: mixing_logs w.
Proof.
  intros Hok. pose proof (create_mixing_transaction_run env config a o s i u w) as Hrun.
  unfold wp in Hrun.
  destruct (create_mixing_transaction env config a o s i u w) as [w' [id'|e]];
    simpl in *; [|discriminate].
  injection Hok as ->.
  destruct Hrun as (Hnone & delay & ts & stored & Hdelay & Hst & Htx & Hlog).
  apply store_numeric_columns_Some in Hst as (ia & fa & oa & _ & _ & _ & ->).
  split; [exact Hnone|].
  eexists _, delay, ts. split; [exact Htx|]. split; [exact Hdelay|].
  repeat split. exact Hlog.
Qed.

Lemma create_mixing_transaction_schedules_witness :
  snd (create_mixing_transaction demo_env demo_config (mkDecimal 10 (-1))
         "destination" "session" "ip" "agent" initial_world) = Ok 3%nat /\
  transactions initial_world !! 3%nat = None.
Proof.
  assert (H : snd (create_mixing_transaction demo_env demo_config
                     (mkDecimal 10 (-1)) "destination" "session" "ip" "agent"
                     initial_world) = Ok 3%nat) by (vm_compute; reflexivity).
  split; [exact H|].
  exact (proj1 (create_mixing_transaction_schedules demo_env demo_config
                  (mkDecimal 10 (-1)) "destination" "session" "ip" "agent"
                  initial_world 3%nat H)).
Defined.

(** * Payment detection *)

(** X5.  When the wallet cannot be reached, or reports less than the
    amount expected at the input address, [check_incoming_payment] returns
    False after that one wallet call and stores nothing: the transaction
    and the log are as before. *)
Theorem check_incoming_payment_underpaid (env : Env) (id : nat) (w : World)
    (t : MixingTransaction) :
  transactions w !! id = Some t ->
  fault env (tick w) = None ->
  fault env (S (tick w)) <> None \/
  dec_leb (py_float env (input_amount t))
    (wallet_getreceivedbyaddress env (S (tick w)) (input_address t)) = false ->
  snd (check_incoming_payment env id w) = Ok false /\
  same_ledger w (fst (check_incoming_payment env id w)) /\
  calls_since w (fst (check_incoming_payment env id w))
    [RpcGetReceivedByAddress (input_address t)].
Proof.
  intros Ht Hq Hlow.
  cut (wp (check_incoming_payment env id)
         (fun b w' => b = false /\ same_ledger w w' /\
            calls_since w w' [RpcGetReceivedByAddress (input_address t)])
         (fun _ _ => False) w).
  { unfold wp. destruct (check_incoming_payment env id w) as [w' [b|e]];
      simpl; [|done]. by intros (-> & ? & ?). }
  unfold check_incoming_payment.
  wp_step. apply wp_query_get; [congruence | intros _].
  rewrite Ht. wp_step. wp_step. wp_step.
  - by wp_step.
  - simpl in *. destruct Hlow as [Hlow | Hlow]; [done|].
    rewrite Hlow. by wp_step.
Qed.

Lemma check_incoming_payment_underpaid_witness :
  exists t, transactions demo_created !! 3%nat = Some t /\
    snd (check_incoming_payment (half_paid demo_env) 3 demo_created) = Ok false /\
    transactions (fst (check_incoming_payment (half_paid demo_env) 3 demo_created))
      = transactions demo_created.
Proof.
  destruct (transactions demo_created !! 3%nat) as [t|] eqn:Ht;
    [|vm_compute in Ht; discriminate].
  exists t. split; [reflexivity|].
  assert (Hlow : dec_leb (py_float (half_paid demo_env) (input_amount t))
                   (wallet_getreceivedbyaddress (half_paid demo_env)
                      (S (tick demo_created)) (input_address t)) = false).
  { vm_compute in Ht. injection Ht as <-. reflexivity. }
  destruct (check_incoming_payment_underpaid (half_paid demo_env) 3%nat
              demo_created t Ht eq_refl (or_intror Hlow))
    as (Hr & [Htx _] & _).
  split; [exact Hr | exact Htx].
Defined.

Lemma set_input_txid_same t : set_input_txid (input_txid t) t = t.
Proof. by destruct t. Qed.

Lemma alter_known (m : gmap nat MixingTransaction) id f t :
  m !! id = Some t -> alter f id m = <[id := f t]> m.
Proof.
  intros Ht. apply map_eq. intros j. destruct (decide (id = j)) as [<-|Hne].
  - by rewrite lookup_alter_eq, lookup_insert_eq, Ht.
  - by rewrite lookup_alter_ne, lookup_insert_ne.
Qed.

Lemma check_incoming_payment_detects_run env id w t :
  transactions w !! id = Some t ->
  wp (check_incoming_payment env id)
    (fun b w' => b = true -> payment_detected env id w t w')
    (fun _ _ => True) w.
Proof.
  intros Ht. unfold payment_detected.
  unfold check_incoming_payment.
  wp_step. apply wp_query_get; [done | intros _].
  rewrite Ht. wp_step. wp_step. wp_step; [by wp_step|].
  wp_step; [|by wp_step]. simpl in *.
  wp_step. wp_step; [by wp_step|].
  set (w1 := next_tick _).
  assert (Hlk : transactions w1 !! id = Some t) by done.
  assert (Hset : forall f, alter f id (transactions w) = <[id := f t]> (transactions w)).
  { intros f. by apply alter_known. }
  wp_step.
  eapply wp_mono with
    (Q := fun _ w' => exists txid,
       txid = match wallet_listreceivedbyaddress env (S (S (tick w)))
                      (input_address t)
              with
              | (ref :: _) :: _ => Some ref
              | _ => input_txid t
              end /\
       transactions w' = <[id := set_input_txid txid t]> (transactions w) /\
       mixing_logs w' = mixing_logs w /\
       tick w' = S (S (S (tick w))))
    (E := fun _ _ => True); [| |done].
  { subst w1. simpl tick.
    destruct (wallet_listreceivedbyaddress env (S (S (tick w))) (input_address t))
      as [|[|ref rest] more] eqn:Hlist.
    - wp_step. exists (input_txid t). split; [done|]. simpl.
      split; [by rewrite set_input_txid_same, insert_id | done].
    - wp_step. exists (input_txid t). split; [done|]. simpl.
      split; [by rewrite set_input_txid_same, insert_id | done].
    - wp_step. exists (Some ref). split; [done|].
      simpl. by rewrite Hset. }
  intros _ w2 (txid & Htxid & Htx2 & Hlog2 & Htick2).
  assert (Hlk2 : transactions w2 !! id = Some (set_input_txid txid t)).
  { by rewrite Htx2, lookup_insert_eq. }
  do 7 wp_step. wp_step; [done|].
  wp_step. eapply wp_getattr_known; [wp_lookup Hlk2|].
  wp_step. wp_step; [done|]. wp_step.
  intros _. split; [done|]. exists txid. eexists. split; [exact Htxid|].
  simpl. rewrite Hlog2, Htick2, Htx2. split; [|reflexivity].
  rewrite !alter_alter_eq.
  apply map_eq. intros j. destruct (decide (id = j)) as [<-|Hne].
  - by rewrite lookup_alter_eq, !lookup_insert_eq.
  - by rewrite lookup_alter_ne, !lookup_insert_ne.
Qed.


(** X6.  [check_incoming_payment] returns True only when the wallet has
    reported at least the expected amount: the transaction is then MIXING
    with the reading of the clock as its mixing start, its input reference
    is the first one the wallet lists for the input address when it lists
    one and the reference it had otherwise, the rest of the row is as
    before, and one PAYMENT_RECEIVED entry is logged with the amount
    reported and that reference. *)
Theorem check_incoming_payment_detects (env : Env) (id : nat) (w : World)
    (t : MixingTransaction) :
  transactions w !! id = Some t ->
  snd (check_incoming_payment env id w) = Ok true ->
  dec_leb (py_float env (input_amount t))
    (wallet_getreceivedbyaddress env (S (tick w)) (input_address t)) = true /\
  exists txid ts,
    txid = match wallet_listreceivedbyaddress env (S (S (tick w))) (input_address t)
           with
           | (ref :: _) :: _ => Some ref
           | _ => input_txid t
           end /\
    transactions (fst (check_incoming_payment env id w))
      = <[id := set_mixing_started_at (Some (utc_clock env (S (S (S (tick w))))))
                  (set_status MIXING (set_input_txid txid t))]> (transactions w) /\
    mixing_logs (fst (check_incoming_payment env id w))
      = mkLog id ts PAYMENT_RECEIVED
          [("amount", DDecimalStr (wallet_getreceivedbyaddress env (S (tick w))
                                     (input_address t)));
           ("txid", detail_of_option txid)] :: mixing_logs w.
Proof.
  intros Ht Hok.
  pose proof (check_incoming_payment_detects_run env id w t Ht) as Hrun.
  unfold wp in Hrun.
  destruct (check_incoming_payment env id w) as [w' [b|e]];
    simpl in *; [|discriminate].
  injection Hok as ->. exact (Hrun eq_refl).
Qed.

Lemma check_incoming_payment_detects_witness :
  exists t, transactions demo_created !! 3%nat = Some t /\
    snd (check_incoming_payment demo_env 3 demo_created) = Ok true /\
    dec_leb (py_float demo_env (input_amount t))
      (wallet_getreceivedbyaddress demo_env (S (tick demo_created))
         (input_address t)) = true.
Proof.
  destruct (transactions demo_created !! 3%nat) as [t|] eqn:Ht;
    [|vm_compute in Ht; discriminate].
  assert (Hok : snd (check_incoming_payment demo_env 3 demo_created) = Ok true)
    by (vm_compute; reflexivity).
  exists t. split; [reflexivity|]. split; [exact Hok|].
  exact (proj1 (check_incoming_payment_detects demo_env 3%nat demo_created t
                  Ht Hok)).
Defined.

(** X7.  Once its lookup is answered, [check_incoming_payment] returns a
    boolean whatever the wallet and the database do afterwards; for an
    unknown id it returns False without asking the wallet. *)
Theorem check_incoming_payment_returns (env : Env) (id : nat) (w : World) :
  fault env (tick w) = None ->
  (exists b, snd (check_incoming_payment env id w) = Ok b) /\
  (transactions w !! id = None ->
   snd (check_incoming_payment env id w) = Ok false /\
   fst (check_incoming_payment env id w) = next_tick w).
Proof.
  intros Hq. split.
  - cut (wp (check_incoming_payment env id) (fun _ _ => True) (fun _ _ => False) w).
    { unfold wp. destruct (check_incoming_payment env id w) as [w' [b|e]];
        simpl; [by exists b | done]. }
    unfold check_incoming_payment.
    wp_step. apply wp_query_get; [congruence | intros _].
    destruct (transactions w !! id) as [t|]; [|by wp_step].
    wp_step. eapply wp_mono with (Q := fun _ _ => True) (E := fun _ _ => True);
      [|done | intros; by wp_step].
    by apply wp_fst with (P := fun _ => True).
  - intros Hnone. unfold check_incoming_payment, query_get, bind, external.
    rewrite Hq. simpl. by rewrite Hnone.
Qed.

Lemma check_incoming_payment_returns_witness :
  fault demo_env (tick initial_world) = None /\
  snd (check_incoming_payment demo_env 3 initial_world) = Ok false.
Proof.
  split; [reflexivity|].
  exact (proj1 (proj2 (check_incoming_payment_returns demo_env 3%nat
                         initial_world eq_refl) eq_refl)).
Defined.

(** * Rounds *)

Lemma wp_and_steps {A} (R : World -> World -> Prop) (m : M A) Q E w :
  wp m Q E w -> steps R m ->
  wp m (fun a w' => Q a w' /\ R w w') (fun e w' => E e w' /\ R w w') w.
Proof.
  intros Hwp Hs. specialize (Hs w). unfold wp in *.
  by destruct (m w) as [w' [a|e]].
Qed.

Lemma count_sends_app l1 l2 :
  count_sends (l1 ++ l2) = (count_sends l1 + count_sends l2)%nat.
Proof.
  induction l1 as [|c l1 IH]; simpl; [done|].
  destruct c; simpl; rewrite IH; done.
Qed.

Lemma count_sends_replicate_getnewaddress k label :
  count_sends (replicate k (RpcGetNewAddress label)) = 0%nat.
Proof. induction k as [|k IH]; simpl; done. Qed.

Section RoundFacts.

Variable env : Env.

(** Filling the pool writes neither a transaction nor a log entry, and
    asks the wallet for new addresses only. *)
Lemma get_mixing_pool_addresses_quiet count w :
  wp (get_mixing_pool_addresses env count)
    (fun l w' =>
       same_ledger w w' /\
       exists k, (k <= count)%nat /\
         calls_since w w' (replicate k (RpcGetNewAddress "mixing_pool")))
    (fun _ w' =>
       same_ledger w w' /\
       exists k, (k <= count)%nat /\
         calls_since w w' (replicate k (RpcGetNewAddress "mixing_pool")))
    w.
Proof.
  eapply wp_mono.
  - apply (wp_and_steps same_ledger); [apply get_mixing_pool_addresses_run|].
    apply steps_get_mixing_pool_addresses;
      first [ exact same_ledger_trans | by intros ].
  - intros l w' [(_ & _ & new & _ & Hnew & _ & _ & Hcalls) Hsame].
    split; [done|]. exists (length new). split; [lia | done].
  - intros e w' [(new & k & _ & _ & _ & _ & Hk & Hcalls) Hsame].
    split; [done|]. exists k. split; [lia | done].
Qed.

End RoundFacts.

(** X8.  A round asked for a transaction that is missing or not MIXING
    does nothing: no row, log entry or pool entry is written and the
    wallet is not called; the answer is False. *)
Theorem perform_mixing_round_requires_mixing (env : Env) (config : Config)
    (id : nat) (w : World) :
  (forall t, transactions w !! id = Some t -> status t <> MIXING) ->
  same_ledger w (fst (perform_mixing_round env config id w)) /\
  mixing_pool (fst (perform_mixing_round env config id w)) = mixing_pool w /\
  rpc_calls (fst (perform_mixing_round env config id w)) = rpc_calls w /\
  (fault env (tick w) = None ->
   snd (perform_mixing_round env config id w) = Ok false).
Proof.
  intros Hid.
  cut (wp (perform_mixing_round env config id)
         (fun b w' => b = false /\ same_ledger w w' /\
            mixing_pool w' = mixing_pool w /\ rpc_calls w' = rpc_calls w)
         (fun _ w' => fault env (tick w) <> None /\ same_ledger w w' /\
            mixing_pool w' = mixing_pool w /\ rpc_calls w' = rpc_calls w) w).
  { unfold wp. destruct (perform_mixing_round env config id w) as [w' [b|e]]; simpl.
    - by intros (-> & ? & ? & ?).
    - by intros (? & ? & ? & ?). }
  unfold perform_mixing_round.
  wp_step. wp_step; [split; [congruence | done]|].
  wp_step; [|by wp_step].
  wp_step; [by wp_step|].
  apply negb_false_iff, bool_decide_eq_true in Heqb. by destruct (Hid _ eq_refl).
Qed.

Lemma perform_mixing_round_requires_mixing_witness :
  (forall t, transactions demo_created !! 3%nat = Some t -> status t <> MIXING) /\
  snd (perform_mixing_round demo_env demo_config 3 demo_created) = Ok false /\
  transactions (fst (perform_mixing_round demo_env demo_config 3 demo_created))
    = transactions demo_created.
Proof.
  assert (H : forall t, transactions demo_created !! 3%nat = Some t ->
                status t <> MIXING).
  { intros t Ht. vm_compute in Ht. injection Ht as <-. discriminate. }
  split; [exact H|].
  destruct (perform_mixing_round_requires_mixing demo_env demo_config 3%nat
              demo_created H) as ([Htx _] & _ & _ & Hr).
  split; [exact (Hr eq_refl) | exact Htx].
Defined.

(** X9.  A round that returns True was asked for a MIXING transaction and
    has raised its counter by exactly one, moved it to a holding address
    and logged the hop under the new count, from the input address on the
    first round and from the previous holding address afterwards; the
    transaction is COMPLETED, with its completion time set and
    OUTPUT_SCHEDULED logged, exactly when the new count has reached
    MIXING_ROUNDS, and MIXING otherwise.  The wallet was asked for no
    transfer. *)
Theorem perform_mixing_round_advances (env : Env) (config : Config)
    (id : nat) (w : World) (t : MixingTransaction) :
  transactions w !! id = Some t ->
  snd (perform_mixing_round env config id w) = Ok true ->
  status t = MIXING /\
  exists t' a ts,
    transactions (fst (perform_mixing_round env config id w)) !! id = Some t' /\
    mixing_rounds_completed t' = mixing_rounds_completed t + 1 /\
    mixing_address t' = Some a /\
    status t' = (if MIXING_ROUNDS config <=? mixing_rounds_completed t + 1
                 then COMPLETED else MIXING) /\
    (status t' = COMPLETED ->
     completed_at t' <> None /\
     count_logs id OUTPUT_SCHEDULED (fst (perform_mixing_round env config id w))
       = S (count_logs id OUTPUT_SCHEDULED w)) /\
    (status t' = MIXING -> completed_at t' = completed_at t) /\
    output_txid t' = output_txid t /\
    mkLog id ts (MIXING_ROUND (mixing_rounds_completed t + 1))
      [("from", detail_of_option
                  (if mixing_rounds_completed t =? 0
                   then Some (input_address t) else mixing_address t));
       ("to", DStr a);
       ("amount", DHopAmountStr (output_amount t))]
      ∈ mixing_logs (fst (perform_mixing_round env config id w)) /\
    count_sends (rpc_calls (fst (perform_mixing_round env config id w)))
      = count_sends (rpc_calls w).
Proof.
  intros Ht Hok.
  set (Q := fun (b : bool) (w' : World) =>
    b = true ->
    status t = MIXING /\
    exists t' a ts,
      transactions w' !! id = Some t' /\
      mixing_rounds_completed t' = mixing_rounds_completed t + 1 /\
      mixing_address t' = Some a /\
      status t' = (if MIXING_ROUNDS config <=? mixing_rounds_completed t + 1
                   then COMPLETED else MIXING) /\
      (status t' = COMPLETED ->
       completed_at t' <> None /\
       count_logs id OUTPUT_SCHEDULED w' = S (count_logs id OUTPUT_SCHEDULED w)) /\
      (status t' = MIXING -> completed_at t' = completed_at t) /\
      output_txid t' = output_txid t /\
      mkLog id ts (MIXING_ROUND (mixing_rounds_completed t + 1))
        [("from", detail_of_option
                    (if mixing_rounds_completed t =? 0
                     then Some (input_address t) else mixing_address t));
         ("to", DStr a);
         ("amount", DHopAmountStr (output_amount t))] ∈ mixing_logs w' /\
      count_sends (rpc_calls w') = count_sends (rpc_calls w)).
  cut (wp (perform_mixing_round env config id) Q (fun _ _ => True) w).
  { unfold wp. destruct (perform_mixing_round env config id w) as [w' [b|e]];
      simpl in *; [|discriminate]. injection Hok as ->. intros HQ. by apply HQ. }
  unfold perform_mixing_round.
  wp_step. apply wp_query_get; [done | intros _].
  rewrite Ht. simpl. case_bool_decide as Hs; simpl; [|by wp_step].
  wp_step.
  eapply wp_mono with (Q := Q) (E := fun _ _ => True); [|done|].
  2: { intros e w' _. repeat wp_step; done. }
  wp_step.
  eapply wp_mono; [apply get_mixing_pool_addresses_quiet | | done].
  intros pool w1 ([Htx1 Hlog1] & k & _ & Hcalls1). simpl in Htx1, Hlog1.
  assert (Hlk : transactions w1 !! id = Some t) by (by rewrite Htx1).
  assert (Hsends : count_sends (rpc_calls w1) = count_sends (rpc_calls w)).
  { unfold calls_since in Hcalls1. simpl in Hcalls1.
    by rewrite Hcalls1, count_sends_app, count_sends_replicate_getnewaddress. }
  wp_step. apply wp_random_choice; [done | intros a _].
  wp_step. eapply wp_getattr_known; [wp_lookup Hlk|].
  wp_step.
  eapply wp_mono with
    (Q := fun from w' =>
       w' = next_tick w1 /\
       from = if mixing_rounds_completed t =? 0
              then Some (input_address t) else mixing_address t)
    (E := fun _ _ => False); [| |done].
  { destruct (_ =? 0).
    - wp_step. eapply wp_getattr_known; [wp_lookup Hlk|]. by wp_step.
    - by eapply wp_getattr_known; [wp_lookup Hlk|]. }
  intros from ? [-> ->].
  unfold _schedule_output_transaction.
  wp_exec Hlk; try done.
  - intros _. split; [done|]. eexists _, a, _.
    split; [wp_lookup Hlk|]. simpl.
    match goal with H : (MIXING_ROUNDS config <=? _) = _ |- _ =>
      simpl in H; rewrite H end.
    repeat split; try done.
    + unfold count_logs, logs_of. simpl. rewrite Hlog1.
      rewrite (filter_cons_True (fun l => transaction_id l = id)) by done.
      rewrite (filter_cons_True (fun l => transaction_id l = id)) by done.
      rewrite (filter_cons_True (fun l => action l = OUTPUT_SCHEDULED)) by done.
      by rewrite (filter_cons_False (fun l => action l = OUTPUT_SCHEDULED)).
    + right. left.
  - intros _. split; [done|]. eexists _, a, _.
    split; [wp_lookup Hlk|]. simpl.
    match goal with H : (MIXING_ROUNDS config <=? _) = _ |- _ =>
      simpl in H; rewrite H end.
    repeat split; try done; try congruence. left.
Qed.

Lemma perform_mixing_round_advances_witness :
  exists t, transactions demo_round2 !! 3%nat = Some t /\
    snd (perform_mixing_round demo_env demo_config 3 demo_round2) = Ok true /\
    status t = MIXING.
Proof.
  destruct (transactions demo_round2 !! 3%nat) as [t|] eqn:Ht;
    [|vm_compute in Ht; discriminate].
  assert (Hok : snd (perform_mixing_round demo_env demo_config 3 demo_round2)
                = Ok true) by (vm_compute; reflexivity).
  exists t. split; [reflexivity|]. split; [exact Hok|].
  exact (proj1 (perform_mixing_round_advances demo_env demo_config 3%nat
                  demo_round2 t Ht Hok)).
Defined.

(** * From the engine operations to the entry points

    A preorder on stores that every engine operation stays within is one
    every task and route stays within.  A round is only ever asked for
    behind the test of the counter against MIXING_ROUNDS, which its premise
    may use. *)
Section EntryPoints.

Variable env : Env.
Variable config : Config.
Variable R : World -> World -> Prop.

Hypothesis R_refl : forall w, R w w.
Hypothesis R_trans : forall w1 w2 w3, R w1 w2 -> R w2 w3 -> R w1 w3.
Hypothesis R_tick : forall w, R w (next_tick w).
Hypothesis R_queue : forall f w, R w (with_celery_queue f w).
Hypothesis R_delete :
  forall ids f w,
    R w (with_security_alerts f (with_transactions (fun m => foldr delete m ids) w)).
Hypothesis R_validate : forall a, steps R (validate_bitcoin_address env a).
Hypothesis R_create :
  forall a o s i u, steps R (create_mixing_transaction env config a o s i u).
Hypothesis R_check : forall id, steps R (check_incoming_payment env id).
Hypothesis R_round :
  forall id w,
    (forall t, transactions w !! id = Some t ->
       mixing_rounds_completed t < MIXING_ROUNDS config) ->
    R w (fst (perform_mixing_round env config id w)).
Hypothesis R_send : forall id, steps R (send_output_transaction env id).

Lemma entry_check_pending_payments : steps R (check_pending_payments env).
Proof.
  apply (steps_try_except R R_trans); [|intros; by apply steps_ret].
  apply (steps_bind R R_trans); [by apply steps_oracle | intros now].
  apply (steps_bind R R_trans); [by apply steps_query_filter | intros txs].
  apply (steps_bind R R_trans); [|intros; by apply steps_ret].
  apply (steps_for_each R R_refl R_trans). intros tx _.
  apply (steps_bind R R_trans); [apply R_check | intros [|]];
    [|by apply steps_ret].
  intros w. apply R_queue.
Qed.

Lemma entry_guarded_round id (k : bool -> M unit) :
  (forall ok, steps R (k ok)) ->
  steps R
    (let! rounds := getattr id mixing_rounds_completed in
     if rounds <? MIXING_ROUNDS config
     then (let! ok := perform_mixing_round env config id in k ok)
     else ret tt).
Proof.
  intros Hk w. unfold bind at 1, getattr.
  destruct (transactions w !! id) as [t|] eqn:Ht; simpl; [|apply R_refl].
  destruct (Z.ltb_spec (mixing_rounds_completed t) (MIXING_ROUNDS config));
    [|apply R_refl].
  assert (Hround : R w (fst (perform_mixing_round env config id w))).
  { apply R_round. intros t' Ht'. by replace t' with t by congruence. }
  unfold bind. destruct (perform_mixing_round env config id w) as [w' [ok|e]];
    simpl in *; [|done].
  eapply R_trans; [exact Hround | apply Hk].
Qed.

Lemma entry_process_mixing_rounds : steps R (process_mixing_rounds env config).
Proof.
  apply (steps_try_except R R_trans); [|intros; by apply steps_ret].
  apply (steps_bind R R_trans); [by apply steps_query_filter | intros txs].
  apply (steps_bind R R_trans); [|intros; by apply steps_ret].
  apply (steps_for_each R R_refl R_trans). intros tx _.
  apply (entry_guarded_round tx (fun _ => ret tt)). intros; by apply steps_ret.
Qed.

Lemma entry_process_mixing id : steps R (process_mixing env config id).
Proof.
  apply (steps_try_except R R_trans); [|intros; by apply steps_ret].
  apply (steps_bind R R_trans); [by apply steps_query_get | intros [t|]];
    [|by apply steps_ret].
  destruct (negb _); [by apply steps_ret|].
  intros w. rewrite process_mixing_loop_fuel. revert w. simpl.
  intros w. unfold bind at 1, getattr.
  destruct (transactions w !! id) as [t'|] eqn:Ht; simpl; [|apply R_refl].
  destruct (Z.ltb_spec (mixing_rounds_completed t') (MIXING_ROUNDS config));
    [|apply R_refl].
  assert (Hround : R w (fst (perform_mixing_round env config id w))).
  { apply R_round. intros t'' Ht''. by replace t'' with t' by congruence. }
  unfold bind. destruct (perform_mixing_round env config id w) as [w' [ok|e]];
    simpl in *; [|done].
  by destruct ok.
Qed.

Lemma entry_send_scheduled_outputs : steps R (send_scheduled_outputs env).
Proof.
  apply (steps_try_except R R_trans); [|intros; by apply steps_ret].
  apply (steps_bind R R_trans); [by apply steps_oracle | intros now].
  apply (steps_bind R R_trans); [by apply steps_query_filter | intros txs].
  apply (steps_bind R R_trans); [|intros; by apply steps_ret].
  apply (steps_for_each R R_refl R_trans). intros tx _.
  apply (steps_bind R R_trans); [apply R_send | intros; by apply steps_ret].
Qed.

Lemma entry_mixer form s i u : steps R (mixer env config form s i u).
Proof.
  apply (steps_bind R R_trans); [|intros [|]]; [| |by apply steps_ret].
  { apply (steps_bind R R_trans); [|intros; by apply steps_ret].
    unfold validate_output_address_field.
    destruct (output_address_required _); [apply R_validate | by apply steps_ret]. }
  apply (steps_try_except R R_trans); [|intros; by apply steps_ret].
  apply (steps_bind R R_trans).
  { apply (steps_bind R R_trans); [by apply steps_oracle
                                  | intros; by apply steps_raise]. }
  intros ok. apply (steps_bind R R_trans);
    [destruct (negb ok); [by apply steps_raise | by apply steps_ret]|].
  intros _. apply (steps_bind R R_trans); [apply R_create
                                          | intros; by apply steps_ret].
Qed.

Lemma entry_run e w : R w (run env config e w).
Proof.
  destruct e; simpl.
  - apply R_create.
  - apply entry_mixer.
  - apply R_check.
  - apply entry_check_pending_payments.
  - apply entry_process_mixing.
  - apply entry_process_mixing_rounds.
  - apply entry_send_scheduled_outputs.
  - by apply (steps_cleanup_old_transactions env R).
Qed.

End EntryPoints.

Lemma asked_for_pool_addresses_only_refl w : asked_for_pool_addresses_only w w.
Proof. by exists 0%nat. Qed.

Lemma asked_for_pool_addresses_only_trans w1 w2 w3 :
  asked_for_pool_addresses_only w1 w2 -> asked_for_pool_addresses_only w2 w3 ->
  asked_for_pool_addresses_only w1 w3.
Proof.
  intros [k1 H1] [k2 H2]. exists (k2 + k1)%nat. unfold calls_since in *.
  by rewrite H2, H1, replicate_add, app_assoc.
Qed.

Lemma asked_for_pool_addresses_only_same w w' :
  rpc_calls w' = rpc_calls w -> asked_for_pool_addresses_only w w'.
Proof. intros H. by exists 0%nat. Qed.

Section NoTransfer.

Variable env : Env.
Variable config : Config.

Lemma perform_mixing_round_asks_pool_addresses_only id :
  steps asked_for_pool_addresses_only (perform_mixing_round env config id).
Proof.
  intros w. apply (fst_wp _ (asked_for_pool_addresses_only w)).
  unfold perform_mixing_round.
  wp_step. wp_step; [by apply asked_for_pool_addresses_only_same|].
  wp_step; [|wp_step; by apply asked_for_pool_addresses_only_same].
  wp_step; [wp_step; by apply asked_for_pool_addresses_only_same|].
  wp_step.
  eapply wp_mono with (Q := fun _ w' => asked_for_pool_addresses_only w w')
                      (E := fun _ w' => asked_for_pool_addresses_only w w');
    [|done|].
  2: { intros e w' [k Hk]. repeat wp_step; by exists k. }
  wp_step.
  eapply wp_mono; [apply get_mixing_pool_addresses_quiet | |].
  2: { intros e w1 (_ & k & _ & Hk). by exists k. }
  intros pool w1 ([Htx1 _] & k & _ & Hcalls1). simpl in Htx1, Hcalls1.
  assert (Hlk : transactions w1 !! id = Some m) by (by rewrite Htx1).
  wp_step. apply wp_random_choice; [intros _; by exists k | intros a _].
  wp_step. eapply wp_getattr_known; [wp_lookup Hlk|].
  wp_step.
  eapply wp_mono with (Q := fun _ w' => w' = next_tick w1)
                      (E := fun _ _ => False); [| |done].
  { destruct (_ =? 0).
    - wp_step. eapply wp_getattr_known; [wp_lookup Hlk|]. by wp_step.
    - by eapply wp_getattr_known; [wp_lookup Hlk|]. }
  intros from ? ->.
  unfold _schedule_output_transaction.
  wp_exec Hlk; by exists k.
Qed.

End NoTransfer.

(** X10.  Mixing moves no coins: whatever a round does, and whatever the
    two tasks that run rounds do, the only calls they make to the wallet
    are requests for new pool addresses; no transfer is asked for. *)
Theorem mixing_asks_for_no_transfer (env : Env) (config : Config) (w : World) :
  (forall id,
     asked_for_pool_addresses_only w (fst (perform_mixing_round env config id w)) /\
     asked_for_pool_addresses_only w (fst (process_mixing env config id w))) /\
  asked_for_pool_addresses_only w (fst (process_mixing_rounds env config w)) /\
  count_sends (rpc_calls (fst (process_mixing_rounds env config w)))
    = count_sends (rpc_calls w).
Proof.
  assert (Htick : forall w0, asked_for_pool_addresses_only w0 (next_tick w0))
    by (intros; by apply asked_for_pool_addresses_only_same).
  assert (Hround : forall id w0,
            (forall t, transactions w0 !! id = Some t ->
               mixing_rounds_completed t < MIXING_ROUNDS config) ->
            asked_for_pool_addresses_only w0
              (fst (perform_mixing_round env config id w0))).
  { intros id w0 _. apply perform_mixing_round_asks_pool_addresses_only. }
  assert (Hrounds : asked_for_pool_addresses_only w
                      (fst (process_mixing_rounds env config w))).
  { apply (entry_process_mixing_rounds env config asked_for_pool_addresses_only
             asked_for_pool_addresses_only_refl
             asked_for_pool_addresses_only_trans Htick Hround). }
  split; [|split; [exact Hrounds|]].
  - intros id. split; [apply perform_mixing_round_asks_pool_addresses_only|].
    apply (entry_process_mixing env config asked_for_pool_addresses_only
             asked_for_pool_addresses_only_refl
             asked_for_pool_addresses_only_trans Htick Hround).
  - destruct Hrounds as [k Hk]. unfold calls_since in Hk.
    by rewrite Hk, count_sends_app, count_sends_replicate_getnewaddress.
Qed.

(** * Payouts, continued *)

(** X11.  A payout that returns True was asked for a COMPLETED transaction
    and has asked the wallet for exactly one transfer, of the output amount
    to the output address; the reference the wallet answered is recorded on
    the row, nothing else of the row changes, and one OUTPUT_SENT entry is
    logged. *)
Theorem send_output_transaction_pays (env : Env) (id : nat) (w : World)
    (t : MixingTransaction) :
  transactions w !! id = Some t ->
  snd (send_output_transaction env id w) = Ok true ->
  status t = COMPLETED /\
  calls_since w (fst (send_output_transaction env id w))
    [RpcSendToAddress (output_address t) (py_float env (output_amount t))] /\
  transactions (fst (send_output_transaction env id w))
    = <[id := set_output_txid (Some (wallet_sendtoaddress env (S (tick w)))) t]>
        (transactions w) /\
  exists ts,
    mixing_logs (fst (send_output_transaction env id w))
      = mkLog id ts OUTPUT_SENT
          [("txid", DStr (wallet_sendtoaddress env (S (tick w))));
           ("amount", DDecimalStr (output_amount t));
           ("address", DStr (output_address t))] :: mixing_logs w.
Proof.
  intros Ht Hok.
  set (Q := fun (b : bool) (w' : World) =>
    b = true ->
    status t = COMPLETED /\
    calls_since w w'
      [RpcSendToAddress (output_address t) (py_float env (output_amount t))] /\
    transactions w'
      = <[id := set_output_txid (Some (wallet_sendtoaddress env (S (tick w)))) t]>
          (transactions w) /\
    exists ts,
      mixing_logs w'
        = mkLog id ts OUTPUT_SENT
            [("txid", DStr (wallet_sendtoaddress env (S (tick w))));
             ("amount", DDecimalStr (output_amount t));
             ("address", DStr (output_address t))] :: mixing_logs w).
  cut (wp (send_output_transaction env id) Q (fun _ _ => True) w).
  { unfold wp. destruct (send_output_transaction env id w) as [w' [b|e]];
      simpl in *; [|discriminate]. injection Hok as ->. intros HQ. by apply HQ. }
  unfold send_output_transaction.
  wp_step. apply wp_query_get; [done | intros _].
  rewrite Ht. simpl. case_bool_decide as Hs; simpl; [|by wp_step].
  wp_exec Ht; try done.
  intros _. split; [done|]. split; [done|]. simpl.
  split; [by apply alter_known | by eexists].
Qed.

Lemma send_output_transaction_pays_witness :
  exists t, transactions demo_completed !! 3%nat = Some t /\
    snd (send_output_transaction demo_env 3 demo_completed) = Ok true /\
    status t = COMPLETED.
Proof.
  destruct (transactions demo_completed !! 3%nat) as [t|] eqn:Ht;
    [|vm_compute in Ht; discriminate].
  assert (Hok : snd (send_output_transaction demo_env 3 demo_completed) = Ok true)
    by (vm_compute; reflexivity).
  exists t. split; [reflexivity|]. split; [exact Hok|].
  exact (proj1 (send_output_transaction_pays demo_env 3%nat demo_completed t
                  Ht Hok)).
Defined.

(** X12.  A payout the wallet refuses is answered False: the message is
    recorded and the retry count raised by one, no reference is set and
    nothing is logged.  The transaction stays COMPLETED, so that it is due
    again at every later pass of the payout task, however often it has
    failed: the retry count is never read. *)
Theorem send_output_transaction_refused (env : Env) (id : nat) (w : World)
    (t : MixingTransaction) (e : string) :
  transactions w !! id = Some t ->
  status t = COMPLETED ->
  fault env (tick w) = None ->
  fault env (S (tick w)) = Some e ->
  fault env (S (S (tick w))) = None ->
  snd (send_output_transaction env id w) = Ok false /\
  transactions (fst (send_output_transaction env id w))
    = <[id := set_retry_count (retry_count t + 1) (set_error_message (Some e) t)]>
        (transactions w) /\
  mixing_logs (fst (send_output_transaction env id w)) = mixing_logs w /\
  forall now,
    output_is_due now t = true ->
    output_is_due now
      (set_retry_count (retry_count t + 1) (set_error_message (Some e) t)) = true.
Proof.
  intros Ht Hs Hq Hsend Hcommit.
  cut (wp (send_output_transaction env id)
         (fun b w' => b = false /\
            transactions w'
              = <[id := set_retry_count (retry_count t + 1)
                          (set_error_message (Some e) t)]> (transactions w) /\
            mixing_logs w' = mixing_logs w)
         (fun _ _ => False) w).
  { unfold wp. destruct (send_output_transaction env id w) as [w' [b|e']];
      simpl; [|done]. intros (-> & ? & ?). done. }
  unfold send_output_transaction.
  wp_step. apply wp_query_get; [congruence | intros _].
  rewrite Ht. simpl. rewrite bool_decide_true by done. simpl.
  wp_exec Ht; simpl in *; try congruence.
  split; [done|]. split; [|done].
  rewrite alter_alter_eq, (alter_known _ _ _ _ Ht).
  by replace e0 with e by congruence.
Qed.

Lemma send_output_transaction_refused_witness :
  exists t, transactions demo_completed !! 3%nat = Some t /\
    status t = COMPLETED /\
    snd (send_output_transaction (failing_at 39 "wallet down" demo_env) 3
           demo_completed) = Ok false.
Proof.
  destruct (transactions demo_completed !! 3%nat) as [t|] eqn:Ht;
    [|vm_compute in Ht; discriminate].
  assert (Hs : status t = COMPLETED).
  { vm_compute in Ht. injection Ht as <-. reflexivity. }
  exists t. split; [reflexivity|]. split; [exact Hs|].
  exact (proj1 (send_output_transaction_refused
                  (failing_at 39 "wallet down" demo_env) 3%nat demo_completed t
                  "wallet down" Ht Hs eq_refl eq_refl eq_refl)).
Defined.

(** The payout-due task never selects a transaction that is not due. *)
Lemma not_due_not_selected now (m : gmap nat MixingTransaction) id t :
  m !! id = Some t -> output_is_due now t = false ->
  id ∉ map fst (filter (fun kv => output_is_due now (snd kv)) (map_to_list m)).
Proof.
  intros Ht Hdue Hin.
  apply (elem_of_query_ids (output_is_due now)) in Hin.
  destruct Hin as (t' & Ht' & Hdue'). replace t' with t in Hdue' by congruence.
  congruence.
Qed.

(** X13.  The payout task pays nothing ahead of time: a transaction whose
    scheduled output time lies after the clock reading the task starts
    with, or that is not COMPLETED, keeps its row and its log entries
    through the pass. *)
Theorem send_scheduled_outputs_waits (env : Env) (w : World) (id : nat)
    (t : MixingTransaction) :
  transactions w !! id = Some t ->
  status t <> COMPLETED \/
  (exists time, scheduled_output_time t = Some time /\
                utc_clock env (tick w) < time) ->
  row_untouched id w (fst (send_scheduled_outputs env w)).
Proof.
  intros Ht Hwait.
  assert (Hdue : output_is_due (utc_clock env (tick w)) t = false).
  { unfold output_is_due. destruct Hwait as [Hs | (time & -> & Hlt)].
    - by rewrite bool_decide_false.
    - replace (time <=? utc_clock env (tick w)) with false
        by (symmetry; apply Z.leb_gt; lia).
      by rewrite andb_false_r. }
  apply (fst_wp _ (row_untouched id w)).
  unfold send_scheduled_outputs.
  do 5 wp_step. 1: done.
  wp_step.
  change (fun tx : nat => let! _ := send_output_transaction env tx in ret tt)
    with (send_each env).
  match goal with |- wp (for_each ?l _) _ _ ?w0 =>
    set (ready := l); set (w2 := w0) end.
  assert (Hloop : row_untouched id w (fst (for_each ready (send_each env) w2))).
  { apply (row_untouched_trans id w w2); [done|].
    apply for_each_send_untouched. subst ready. simpl.
    by eapply not_due_not_selected. }
  eapply wp_mono; [apply (wp_fst _ (row_untouched id w)); exact Hloop | |].
  - intros ? w' Hw'. by wp_step.
  - intros e' w' Hw'. by wp_step.
Qed.

Lemma send_scheduled_outputs_waits_witness :
  exists t, transactions demo_round2 !! 3%nat = Some t /\
    status t <> COMPLETED /\
    transactions (fst (send_scheduled_outputs demo_env demo_round2)) !! 3%nat
      = Some t.
Proof.
  destruct (transactions demo_round2 !! 3%nat) as [t|] eqn:Ht;
    [|vm_compute in Ht; discriminate].
  assert (Hs : status t <> COMPLETED).
  { vm_compute in Ht. injection Ht as <-. discriminate. }
  exists t. split; [reflexivity|]. split; [exact Hs|].
  destruct (send_scheduled_outputs_waits demo_env demo_round2 3%nat t Ht
              (or_introl Hs)) as [Hrow _].
  rewrite Hrow. exact Ht.
Defined.

(** * One round at a time *)

Lemma at_most_one_round_refl id w : at_most_one_round id w w.
Proof. intros t Ht. exists t. split; [done | lia]. Qed.

Lemma at_most_one_round_same id w w' :
  transactions w' !! id = transactions w !! id -> at_most_one_round id w w'.
Proof. intros Heq t Ht. exists t. rewrite Heq. split; [done | lia]. Qed.

Lemma at_most_one_round_then_untouched id w1 w2 w3 :
  at_most_one_round id w1 w2 -> row_untouched id w2 w3 ->
  at_most_one_round id w1 w3.
Proof.
  intros H12 [H23 _] t Ht. destruct (H12 t Ht) as (t' & Ht' & Hr).
  exists t'. by rewrite H23.
Qed.

Lemma untouched_then_at_most_one_round id w1 w2 w3 :
  row_untouched id w1 w2 -> at_most_one_round id w2 w3 ->
  at_most_one_round id w1 w3.
Proof. intros [H12 _] H23 t Ht. apply H23. by rewrite H12. Qed.

Lemma row_untouched_same id w w' :
  transactions w' = transactions w -> mixing_logs w' = mixing_logs w ->
  row_untouched id w w'.
Proof. intros Htx Hlog. unfold row_untouched, logs_of. by rewrite Htx, Hlog. Qed.

Section OneRound.

Variable env : Env.
Variable config : Config.

(** A round on another transaction leaves [id] alone. *)
Lemma perform_mixing_round_untouched id j :
  j <> id -> steps (row_untouched id) (perform_mixing_round env config j).
Proof.
  intros Hne.
  apply (steps_perform_mixing_round env (row_untouched id) (fun k => k <> id));
    first [ exact (row_untouched_trans id)
          | by intros; apply row_untouched_log
          | by intros; apply row_untouched_set
          | by intros ].
Qed.

Lemma check_incoming_payment_untouched id j :
  j <> id -> steps (row_untouched id) (check_incoming_payment env j).
Proof.
  intros Hne.
  apply (steps_check_incoming_payment env (row_untouched id) (fun k => k <> id));
    first [ exact (row_untouched_trans id)
          | by intros; apply row_untouched_log
          | by intros; apply row_untouched_set
          | by intros ].
Qed.

(** Whatever its outcome, a round leaves the counter where it was or one
    above. *)
Lemma perform_mixing_round_at_most_one id w :
  at_most_one_round id w (fst (perform_mixing_round env config id w)).
Proof.
  intros t Ht.
  apply (fst_wp _ (fun w' => exists t', transactions w' !! id = Some t' /\
           mixing_rounds_completed t <= mixing_rounds_completed t'
             <= mixing_rounds_completed t + 1)).
  assert (Hsame : forall w', transactions w' = transactions w ->
            exists t', transactions w' !! id = Some t' /\
              mixing_rounds_completed t <= mixing_rounds_completed t'
                <= mixing_rounds_completed t + 1).
  { intros w' ->. exists t. split; [done | lia]. }
  unfold perform_mixing_round.
  wp_step. wp_step; [by apply Hsame|].
  rewrite Ht. simpl. destruct (negb _); [wp_step; by apply Hsame|].
  wp_step. wp_step.
  eapply wp_steps; [apply get_mixing_pool_addresses_same_transactions | |];
    intros ? w1 Hw1; simpl in Hw1;
    assert (Hlk : transactions w1 !! id = Some t) by (by rewrite Hw1).
  2: { wp_exec Hlk; eexists; (split; [wp_lookup Hlk|]); simpl; lia. }
  wp_step. apply wp_random_choice; [intros _ | intros x _].
  { wp_exec Hlk; eexists; (split; [wp_lookup Hlk|]); simpl; lia. }
  wp_step. eapply wp_getattr_known; [wp_lookup Hlk|].
  wp_step.
  eapply wp_mono with (Q := fun _ w' => w' = next_tick w1)
                      (E := fun _ _ => False); [| |done].
  { destruct (_ =? 0).
    - wp_step. eapply wp_getattr_known; [wp_lookup Hlk|]. by wp_step.
    - by eapply wp_getattr_known; [wp_lookup Hlk|]. }
  intros from ? ->.
  unfold _schedule_output_transaction.
  wp_exec Hlk; eexists; (split; [wp_lookup Hlk|]); simpl; lia.
Qed.

(** The round of one turn of a task: asked for only while the counter is
    below MIXING_ROUNDS. *)
Lemma guarded_round_at_most_one {A} id (k : bool -> M A) (a : A) w :
  (forall ok, steps (row_untouched id) (k ok)) ->
  at_most_one_round id w
    (fst ((let! rounds := getattr id mixing_rounds_completed in
           if rounds <? MIXING_ROUNDS config
           then (let! ok := perform_mixing_round env config id in k ok)
           else ret a) w)).
Proof.
  intros Hk. unfold bind at 1, getattr.
  destruct (transactions w !! id) as [t|] eqn:Ht; simpl;
    [|apply at_most_one_round_refl].
  destruct (_ <? _); [|apply at_most_one_round_refl].
  pose proof (perform_mixing_round_at_most_one id w) as Hround.
  unfold bind. destruct (perform_mixing_round env config id w) as [w' [ok|e]];
    simpl in *; [|done].
  eapply at_most_one_round_then_untouched; [exact Hround | apply Hk].
Qed.

Lemma guarded_round_untouched {A} id j (k : bool -> M A) (a : A) :
  j <> id ->
  (forall ok, steps (row_untouched id) (k ok)) ->
  steps (row_untouched id)
    (let! rounds := getattr j mixing_rounds_completed in
     if rounds <? MIXING_ROUNDS config
     then (let! ok := perform_mixing_round env config j in k ok)
     else ret a).
Proof.
  intros Hne Hk.
  apply (steps_bind _ (row_untouched_trans id)); [by apply steps_getattr|].
  intros rounds. destruct (_ <? _); [|by apply steps_ret].
  apply (steps_bind _ (row_untouched_trans id)); [|exact Hk].
  by apply perform_mixing_round_untouched.
Qed.

(** A pass over transactions that are pairwise distinct runs at most one
    round on each. *)
Lemma for_each_guarded_round_at_most_one id txs w :
  NoDup txs ->
  at_most_one_round id w
    (fst (for_each txs (fun tx =>
            let! rounds := getattr tx mixing_rounds_completed in
            if rounds <? MIXING_ROUNDS config
            then (let! _ := perform_mixing_round env config tx in ret tt)
            else ret tt) w)).
Proof.
  intros Hnd. revert w. induction Hnd as [|tx txs Hnotin Hnd IH]; intros w; simpl.
  - apply at_most_one_round_refl.
  - unfold bind at 1.
    destruct (decide (tx = id)) as [->|Hne].
    + pose proof (guarded_round_at_most_one id (fun _ => ret tt) tt w
                    (fun _ => steps_ret _ (row_untouched_refl id) tt)) as Hfirst.
      match goal with |- context [(let (w', r) := ?m w in _)] =>
        change (at_most_one_round id w (fst (m w))) in Hfirst;
        destruct (m w) as [w1 [[]|e]] end; simpl in *; [|done].
      eapply at_most_one_round_then_untouched; [exact Hfirst|].
      apply (steps_for_each _ (row_untouched_refl id) (row_untouched_trans id)).
      intros tx Htx. apply guarded_round_untouched;
        [intros ->; done | intros; by apply steps_ret].
    + pose proof (guarded_round_untouched id tx (fun _ => ret tt) tt Hne
                    (fun _ => steps_ret _ (row_untouched_refl id) tt) w) as Hfirst.
      match goal with |- context [(let (w', r) := ?m w in _)] =>
        change (row_untouched id w (fst (m w))) in Hfirst;
        destruct (m w) as [w1 [[]|e]] end; simpl in *.
      * eapply untouched_then_at_most_one_round; [exact Hfirst | apply IH].
      * destruct Hfirst as [Hrow _]. by apply at_most_one_round_same.
Qed.

End OneRound.

Lemma NoDup_query_ids (p : MixingTransaction -> bool)
    (m : gmap nat MixingTransaction) :
  NoDup (map fst (filter (fun kv => p (snd kv)) (map_to_list m))).
Proof.
  eapply sublist_NoDup; [apply (NoDup_fst_map_to_list m)|].
  apply (fmap_sublist fst), sublist_filter.
Qed.

(** X14.  The payment task looks only at PENDING transactions created
    within the last 24 hours: a transaction that is not PENDING, or that
    was created more than 24 hours before the clock reading the task starts
    with, keeps its row and its log entries through the pass. *)
Theorem check_pending_payments_skips (env : Env) (w : World) (id : nat)
    (t : MixingTransaction) :
  transactions w !! id = Some t ->
  status t <> PENDING \/
  created_at t < utc_clock env (tick w) - timedelta_hours 24 ->
  row_untouched id w (fst (check_pending_payments env w)).
Proof.
  intros Ht Hskip.
  set (p := fun t0 : MixingTransaction =>
    bool_decide (status t0 = PENDING)
    && (utc_clock env (tick w) - timedelta_hours 24 <=? created_at t0)).
  assert (Hnot : id ∉ map fst (filter (fun kv => p (snd kv))
                                 (map_to_list (transactions w)))).
  { intros Hin. apply (elem_of_query_ids p) in Hin.
    destruct Hin as (t' & Ht' & Hp). replace t' with t in Hp by congruence.
    unfold p in Hp. apply andb_true_iff in Hp as [Hs Hc].
    apply bool_decide_eq_true in Hs. apply Z.leb_le in Hc.
    destruct Hskip; [done | lia]. }
  apply (fst_wp _ (row_untouched id w)).
  unfold check_pending_payments.
  do 5 wp_step. 1: done.
  wp_step. fold p.
  match goal with |- wp (for_each ?l ?b) _ _ ?w0 =>
    set (pending := l) in *; set (body := b); set (w2 := w0) end.
  assert (Hloop : row_untouched id w (fst (for_each pending body w2))).
  { apply (row_untouched_trans id w w2); [done|].
    apply (steps_for_each _ (row_untouched_refl id) (row_untouched_trans id)).
    intros tx Htx. subst body. simpl.
    apply (steps_bind _ (row_untouched_trans id)).
    - apply check_incoming_payment_untouched. intros ->. done.
    - intros [|]; [by intros w0 | by apply steps_ret]. }
  eapply wp_mono; [apply (wp_fst _ (row_untouched id w)); exact Hloop | |].
  - intros ? w' Hw'. by wp_step.
  - intros e' w' Hw'. by wp_step.
Qed.

Lemma check_pending_payments_skips_witness :
  exists t, transactions demo_funded !! 3%nat = Some t /\
    status t <> PENDING /\
    transactions (fst (check_pending_payments demo_env demo_funded)) !! 3%nat
      = Some t.
Proof.
  destruct (transactions demo_funded !! 3%nat) as [t|] eqn:Ht;
    [|vm_compute in Ht; discriminate].
  assert (Hs : status t <> PENDING).
  { vm_compute in Ht. injection Ht as <-. discriminate. }
  exists t. split; [reflexivity|]. split; [exact Hs|].
  destruct (check_pending_payments_skips demo_env demo_funded 3%nat t Ht
              (or_introl Hs)) as [Hrow _].
  rewrite Hrow. exact Ht.
Defined.

(** X15.  [process_mixing] never raises, and one call of it runs at most
    one round: the counter of every transaction is where it was or one
    above, and the answer "Mixing completed" is only given when nothing
    was written at all.  (After a round that succeeds, the delay between
    rounds cannot be computed and the task ends.) *)
Theorem process_mixing_runs_one_round (env : Env) (config : Config) (id : nat)
    (w : World) :
  (exists r, snd (process_mixing env config id w) = Ok r) /\
  (snd (process_mixing env config id w) = Ok (MixingCompleted id) ->
   same_ledger w (fst (process_mixing env config id w))) /\
  (forall j, at_most_one_round j w (fst (process_mixing env config id w))).
Proof.
  split; [|split].
  - unfold process_mixing, try_except.
    match goal with |- context [match ?m w with _ => _ end] =>
      destruct (m w) as [w' [r|e]] end; simpl; eauto.
  - cut (wp (process_mixing env config id)
           (fun r w' => r = MixingCompleted id -> same_ledger w w')
           (fun _ _ => True) w).
    { unfold wp. destruct (process_mixing env config id w) as [w' [r|e]];
        simpl; [|done]. intros HQ [= ->]. by apply HQ. }
    unfold process_mixing.
    wp_step. wp_step. wp_step; [by wp_step|].
    wp_step; [|by wp_step]. wp_step; [by wp_step|].
    unfold wp at 1. rewrite process_mixing_loop_fuel.
    change (wp (process_mixing_loop env 1 config id)
              (fun r w' => r = MixingCompleted id -> same_ledger w w')
              (fun e w' => wp (ret (TaskError e))
                             (fun r w'0 => r = MixingCompleted id -> same_ledger w w'0)
                             (fun _ _ => True) w')
              (next_tick w)).
    simpl. wp_step. apply wp_getattr; [intros t Ht | intros _; by wp_step].
    wp_step; [|by wp_step].
    wp_step.
    eapply wp_mono; [apply (wp_fst _ (fun _ => True)); exact I | |].
    + intros ok w' _. destruct ok; simpl; [|by wp_step].
      wp_step. wp_step. by wp_step.
    + intros e w' _. by wp_step.
  - intros j.
    apply (fst_wp _ (at_most_one_round j w)).
    unfold process_mixing.
    wp_step. wp_step. wp_step; [wp_step; by apply at_most_one_round_same|].
    wp_step; [|wp_step; by apply at_most_one_round_same].
    wp_step; [wp_step; by apply at_most_one_round_same|].
    unfold wp at 1. rewrite process_mixing_loop_fuel.
    assert (Hloop : at_most_one_round j w
              (fst (process_mixing_loop env 1 config id (next_tick w)))).
    { apply (untouched_then_at_most_one_round j w (next_tick w)); [done|].
      simpl. destruct (decide (id = j)) as [<-|Hne].
      - apply guarded_round_at_most_one. intros [|]; simpl.
        + apply (steps_bind _ (row_untouched_trans id));
            [by apply steps_raise | intros; by apply steps_raise].
        + by apply steps_ret.
      - apply at_most_one_round_same.
        apply (guarded_round_untouched env config j id); [done|].
        intros [|]; simpl.
        + apply (steps_bind _ (row_untouched_trans j));
            [by apply steps_raise | intros; by apply steps_raise].
        + by apply steps_ret. }
    destruct (process_mixing_loop env 1 config id (next_tick w)) as [w' [r|e]];
      simpl in *; [done | by wp_step].
Qed.

(** X16.  One pass of [process_mixing_rounds] runs at most one round on
    each transaction: every counter is where it was or one above, and a
    transaction that was not MIXING when the pass began keeps its row and
    its log entries. *)
Theorem process_mixing_rounds_one_round_each (env : Env) (config : Config)
    (w : World) (id : nat) (t : MixingTransaction) :
  transactions w !! id = Some t ->
  (exists t',
     transactions (fst (process_mixing_rounds env config w)) !! id = Some t' /\
     mixing_rounds_completed t <= mixing_rounds_completed t'
       <= mixing_rounds_completed t + 1) /\
  (status t <> MIXING ->
   row_untouched id w (fst (process_mixing_rounds env config w))).
Proof.
  intros Ht. split.
  - revert t Ht. change (at_most_one_round id w
                           (fst (process_mixing_rounds env config w))).
    apply (fst_wp _ (at_most_one_round id w)).
    unfold process_mixing_rounds.
    wp_step. wp_step. wp_step; [wp_step; by apply at_most_one_round_same|].
    wp_step.
    match goal with |- wp (for_each ?l ?b) _ _ ?w0 =>
      set (txs := l); set (w2 := w0) end.
    pose proof (for_each_guarded_round_at_most_one env config id txs w2
                  (NoDup_query_ids
                     (fun t0 => bool_decide (status t0 = MIXING)) _)) as Hloop.
    apply (untouched_then_at_most_one_round id w w2) in Hloop; [|done].
    eapply wp_mono; [apply (wp_fst _ (at_most_one_round id w)); exact Hloop | |].
    + intros ? w' Hw'. by wp_step.
    + intros e' w' Hw'. by wp_step.
  - intros Hs.
    set (p := fun t0 : MixingTransaction => bool_decide (status t0 = MIXING)).
    assert (Hnot : id ∉ map fst (filter (fun kv => p (snd kv))
                                   (map_to_list (transactions w)))).
    { intros Hin. apply (elem_of_query_ids p) in Hin.
      destruct Hin as (t' & Ht' & Hp). replace t' with t in Hp by congruence.
      by apply bool_decide_eq_true in Hp. }
    apply (fst_wp _ (row_untouched id w)).
    unfold process_mixing_rounds.
    wp_step. wp_step. wp_step; [by wp_step|].
    wp_step. fold p.
    match goal with |- wp (for_each ?l ?b) _ _ ?w0 =>
      set (txs := l) in *; set (w2 := w0) end.
    assert (Hloop : row_untouched id w2
              (fst (for_each txs (fun tx =>
                 let! rounds := getattr tx mixing_rounds_completed in
                 if rounds <? MIXING_ROUNDS config
                 then (let! _ := perform_mixing_round env config tx in ret tt)
                 else ret tt) w2))).
    { apply (steps_for_each _ (row_untouched_refl id) (row_untouched_trans id)).
      intros tx Htx. apply guarded_round_untouched;
        [intros ->; done | intros; by apply steps_ret]. }
    apply (row_untouched_trans id w w2) in Hloop; [|done].
    eapply wp_mono; [apply (wp_fst _ (row_untouched id w)); exact Hloop | |].
    + intros ? w' Hw'. by wp_step.
    + intros e' w' Hw'. by wp_step.
Qed.

Lemma process_mixing_rounds_one_round_each_witness :
  exists t t', transactions demo_funded !! 3%nat = Some t /\
    transactions demo_round1 !! 3%nat = Some t' /\
    mixing_rounds_completed t <= mixing_rounds_completed t'
      <= mixing_rounds_completed t + 1.
Proof.
  destruct (transactions demo_funded !! 3%nat) as [t|] eqn:Ht;
    [|vm_compute in Ht; discriminate].
  destruct (proj1 (process_mixing_rounds_one_round_each demo_env demo_config
                     demo_funded 3%nat t Ht)) as (t' & Ht' & Hr).
  exists t, t'. split; [reflexivity|]. split; [exact Ht' | exact Hr].
Defined.

(** * Cleanup, continued *)

(** X17.  The cleanup is all or nothing: unless it reports its count, the
    transaction and alert tables are exactly as before; and when its
    rollback is answered it always returns, with the count or with the
    error. *)
Theorem cleanup_old_transactions_all_or_nothing (env : Env) (w : World) :
  ((exists n, snd (cleanup_old_transactions env w) = Ok (CleanedUp n)) \/
   (transactions (fst (cleanup_old_transactions env w)) = transactions w /\
    security_alerts (fst (cleanup_old_transactions env w)) = security_alerts w)) /\
  ((forall n, fault env n = None \/ fault env (S n) = None) ->
   exists r, snd (cleanup_old_transactions env w) = Ok r).
Proof.
  split.
  - cut (wp (cleanup_old_transactions env)
           (fun r w' => (exists n, r = CleanedUp n) \/
              (transactions w' = transactions w /\
               security_alerts w' = security_alerts w))
           (fun _ w' => transactions w' = transactions w /\
               security_alerts w' = security_alerts w) w).
    { unfold wp. destruct (cleanup_old_transactions env w) as [w' [r|e]]; simpl.
      - intros [[n ->] | ?]; [left; by exists n | by right].
      - by right. }
    unfold cleanup_old_transactions.
    do 5 wp_step. 1: (repeat wp_step; first [by right | done]).
    wp_step. unfold query_alerts. do 2 wp_step.
    1: (repeat wp_step; first [by right | done]).
    unfold wp at 1; cbv beta iota.
    wp_step. unfold db_commit_deletes. do 2 wp_step.
    1: (repeat wp_step; first [by right | done]).
    unfold wp at 1; cbv beta iota.
    wp_step. left. by eexists.
  - intros Hfault.
    cut (wp (cleanup_old_transactions env) (fun _ _ => True) (fun _ _ => False) w).
    { unfold wp. destruct (cleanup_old_transactions env w) as [w' [r|e]]; simpl;
        [by exists r | done]. }
    unfold cleanup_old_transactions.
    do 5 wp_step.
    { wp_step. wp_step; [|by wp_step]. simpl in *.
      destruct (Hfault (S (tick w))); congruence. }
    wp_step. unfold query_alerts. do 2 wp_step.
    { wp_step. wp_step; [|by wp_step]. simpl in *.
      destruct (Hfault (S (S (tick w)))); congruence. }
    unfold wp at 1; cbv beta iota.
    wp_step. unfold db_commit_deletes. do 2 wp_step.
    { wp_step. wp_step; [|by wp_step]. simpl in *.
      destruct (Hfault (S (S (S (tick w))))); congruence. }
    unfold wp at 1; cbv beta iota. by wp_step.
Qed.

(** X18.  When the database answers the three interactions of the cleanup,
    the security alerts created more than 30 days before the task's clock
    reading are gone and the others are all still there. *)
Theorem cleanup_purges_alerts_by_age (env : Env) (w : World) :
  fault env (S (tick w)) = None ->
  fault env (S (S (tick w))) = None ->
  fault env (S (S (S (tick w)))) = None ->
  forall a,
    a ∈ security_alerts (fst (cleanup_old_transactions env w)) <->
    a ∈ security_alerts w /\
    utc_clock env (tick w) - timedelta_days 30 <= alert_created_at a.
Proof.
  intros H1 H2 H3 a.
  apply (fst_wp _ (fun w' => a ∈ security_alerts w' <->
           a ∈ security_alerts w /\
           utc_clock env (tick w) - timedelta_days 30 <= alert_created_at a)).
  unfold cleanup_old_transactions.
  do 5 wp_step. 1: (simpl in *; congruence).
  wp_step. unfold query_alerts. do 2 wp_step. 1: (simpl in *; congruence).
  unfold wp at 1; cbv beta iota.
  wp_step. unfold db_commit_deletes. do 2 wp_step. 1: (simpl in *; congruence).
  unfold wp at 1; cbv beta iota.
  wp_step. simpl.
  rewrite list_elem_of_filter, list_elem_of_filter.
  split.
  - intros [Hnot Hin]. split; [done|].
    destruct (Z.ltb_spec (alert_created_at a)
                (utc_clock env (tick w) - timedelta_days 30)) as [Hlt|Hge]; [|done].
    exfalso. by apply Hnot.
  - intros [Hin Hge]. split; [|done].
    intros [Hold _]. apply Z.ltb_lt in Hold. lia.
Qed.

Lemma cleanup_purges_alerts_by_age_witness :
  fault (a_month_later demo_env) (S (tick demo_alerted)) = None /\
  mkAlert "RATE_LIMIT_EXCEEDED" "medium" None 0 ∈ security_alerts demo_alerted /\
  mkAlert "RATE_LIMIT_EXCEEDED" "medium" None 0
    ∉ security_alerts
        (fst (cleanup_old_transactions (a_month_later demo_env) demo_alerted)).
Proof.
  split; [reflexivity|]. split; [left|].
  intros Hin.
  apply (cleanup_purges_alerts_by_age (a_month_later demo_env) demo_alerted
           eq_refl eq_refl eq_refl) in Hin.
  destruct Hin as [_ Hyoung]. vm_compute in Hyoung. by apply Hyoung.
Defined.

(** * What a row keeps for good *)

Lemma same_identity_refl t : same_identity t t.
Proof. by repeat split. Qed.

Lemma same_identity_trans t1 t2 t3 :
  same_identity t1 t2 -> same_identity t2 t3 -> same_identity t1 t3.
Proof.
  intros (?&?&?&?&?&?&?) (?&?&?&?&?&?&?). repeat split; congruence.
Qed.

Lemma engine_update_same_identity f t : engine_update f -> same_identity t (f t).
Proof. intros []; by repeat split. Qed.

Lemma identities_kept_refl w : identities_kept w w.
Proof. intros id t Ht. exists t. split; [done | apply same_identity_refl]. Qed.

Lemma identities_kept_trans w1 w2 w3 :
  identities_kept w1 w2 -> identities_kept w2 w3 -> identities_kept w1 w3.
Proof.
  intros H12 H23 id t Ht.
  destruct (H12 id t Ht) as (t2 & Ht2 & Hk2).
  destruct (H23 id t2 Ht2) as (t3 & Ht3 & Hk3).
  exists t3. split; [done | by eapply same_identity_trans].
Qed.

Lemma identities_kept_same w w' :
  transactions w' = transactions w -> identities_kept w w'.
Proof.
  intros Heq id t Ht. exists t. rewrite Heq. split; [done | apply same_identity_refl].
Qed.

Lemma identities_kept_alter id f w :
  (forall t, same_identity t (f t)) ->
  identities_kept w (with_transactions (alter f id) w).
Proof.
  intros Hf j t Ht. simpl. destruct (decide (id = j)) as [->|Hne].
  - exists (f t). rewrite lookup_alter_eq, Ht. split; [done | apply Hf].
  - exists t. rewrite lookup_alter_ne by done. split; [done | apply same_identity_refl].
Qed.

Lemma identities_kept_insert id t w :
  transactions w !! id = None ->
  identities_kept w (with_transactions (insert id t) w).
Proof.
  intros Hid j t' Ht'. exists t'. simpl.
  rewrite lookup_insert_ne by congruence. split; [done | apply same_identity_refl].
Qed.

(** Closes the side conditions of the frame lemmas at [identities_kept]. *)
Ltac identity_frame :=
  first [ exact identities_kept_refl
        | exact identities_kept_trans
        | by intros; apply identities_kept_same
        | by intros; apply identities_kept_alter; intros;
             apply engine_update_same_identity
        | by intros; apply identities_kept_alter; intros; repeat split
        | by intros; apply identities_kept_insert
        | done ].

Section Identity.

Variable env : Env.

Lemma check_incoming_payment_identities id :
  steps identities_kept (check_incoming_payment env id).
Proof.
  apply (steps_check_incoming_payment env identities_kept (fun _ => True));
    identity_frame.
Qed.

Lemma perform_mixing_round_identities config id :
  steps identities_kept (perform_mixing_round env config id).
Proof.
  apply (steps_perform_mixing_round env identities_kept (fun _ => True));
    identity_frame.
Qed.

Lemma send_output_transaction_identities id :
  steps identities_kept (send_output_transaction env id).
Proof.
  apply (steps_send_output_transaction env identities_kept (fun _ => True));
    identity_frame.
Qed.

Lemma create_mixing_transaction_identities config a o s i u :
  steps identities_kept (create_mixing_transaction env config a o s i u).
Proof.
  apply (steps_create_mixing_transaction env identities_kept (fun _ => True));
    identity_frame.
Qed.

End Identity.

(** X19.  The session, the two addresses, the creation time, the scheduled
    output time and the two client hashes of a transaction are fixed for
    good: no entry point, under any configuration, changes them on a row
    that is still stored afterwards. *)
Theorem identity_fields_are_immutable (env : Env) (config : Config)
    (e : EntryPoint) (w : World) (id : nat) (t t' : MixingTransaction) :
  transactions w !! id = Some t ->
  transactions (run env config e w) !! id = Some t' ->
  same_identity t t'.
Proof.
  intros Ht Ht'.
  assert (Hkept : identities_kept w (run env config e w) \/
                  rows_survive w (run env config e w)).
  { destruct e; simpl.
    - left. apply create_mixing_transaction_identities.
    - left. apply (steps_mixer env identities_kept (fun _ => True)); identity_frame.
    - left. apply check_incoming_payment_identities.
    - left. apply (steps_check_pending_payments env identities_kept (fun _ => True));
        identity_frame.
    - left. apply (steps_process_mixing env identities_kept (fun _ => True));
        identity_frame.
    - left. apply (steps_process_mixing_rounds env identities_kept (fun _ => True));
        identity_frame.
    - left. apply (steps_send_scheduled_outputs env identities_kept (fun _ => True));
        identity_frame.
    - right. apply (steps_cleanup_old_transactions env rows_survive
                      rows_survive_refl rows_survive_trans);
        [by intros w' id' t0 | apply rows_survive_delete]. }
  destruct Hkept as [Hkept | Hsurvive].
  - destruct (Hkept id t Ht) as (t'' & Ht'' & Hid).
    by replace t' with t'' by congruence.
  - apply Hsurvive in Ht'. replace t' with t by congruence.
    apply same_identity_refl.
Qed.

Lemma identity_fields_are_immutable_witness :
  exists t t', transactions demo_completed !! 3%nat = Some t /\
    transactions (run demo_env demo_config SendScheduledOutputs demo_completed)
      !! 3%nat = Some t' /\
    output_txid t = None /\ output_txid t' <> None /\
    same_identity t t'.
Proof.
  destruct (transactions demo_completed !! 3%nat) as [t|] eqn:Ht;
    [|vm_compute in Ht; discriminate].
  destruct (transactions (run demo_env demo_config SendScheduledOutputs
                            demo_completed) !! 3%nat) as [t'|] eqn:Ht';
    [|vm_compute in Ht'; discriminate].
  exists t, t'. split; [reflexivity|]. split; [reflexivity|].
  split; [vm_compute in Ht; by injection Ht as <-|].
  split; [vm_compute in Ht'; by injection Ht' as <-|].
  exact (identity_fields_are_immutable demo_env demo_config
           SendScheduledOutputs demo_completed 3%nat t t' Ht Ht').
Defined.

(** * The routes *)

(** The report of a stored row. *)
Lemma get_transaction_status_run env id w :
  wp (get_transaction_status env id)
    (fun r w' =>
       w' = next_tick w /\
       r = match transactions w !! id with
           | None => None
           | Some t =>
               Some (mkStatusReport id (status_value (status t))
                       (input_address t) (input_amount t) (output_amount t)
                       (fee_amount t) (mixing_rounds_completed t) (created_at t)
                       (scheduled_output_time t) (input_txid t) (output_txid t))
           end)
    (fun _ w' => w' = next_tick w /\ fault env (tick w) <> None) w.
Proof.
  unfold get_transaction_status.
  wp_step. apply wp_query_get; [intros e He; split; [done | congruence]|].
  intros _. destruct (transactions w !! id); by wp_step.
Qed.

(** X20.  The status page of a transaction is rendered only for the
    session that created it, and then reports the row as stored; an unknown
    id is answered 404 and another session 403.  The route writes nothing
    and does not call the wallet. *)
Theorem transaction_status_is_for_the_owner (env : Env) (id : nat)
    (sid : string) (w : World) :
  (same_ledger w (fst (transaction_status env id sid w)) /\
   rpc_calls (fst (transaction_status env id sid w)) = rpc_calls w) /\
  (forall r,
     snd (transaction_status env id sid w) = Ok (StatusRendered r) ->
     exists t, transactions w !! id = Some t /\ session_id t = sid /\
       r = mkStatusReport id (status_value (status t))
             (input_address t) (input_amount t) (output_amount t)
             (fee_amount t) (mixing_rounds_completed t) (created_at t)
             (scheduled_output_time t) (input_txid t) (output_txid t)) /\
  (fault env (tick w) = None -> fault env (S (tick w)) = None ->
   snd (transaction_status env id sid w)
     = Ok match transactions w !! id with
          | None => StatusAborted 404
          | Some t =>
              if String.eqb (session_id t) sid
              then StatusRendered
                     (mkStatusReport id (status_value (status t))
                        (input_address t) (input_amount t) (output_amount t)
                        (fee_amount t) (mixing_rounds_completed t) (created_at t)
                        (scheduled_output_time t) (input_txid t) (output_txid t))
              else StatusAborted 403
          end).
Proof.
  set (report := fun t : MixingTransaction =>
    mkStatusReport id (status_value (status t))
      (input_address t) (input_amount t) (output_amount t)
      (fee_amount t) (mixing_rounds_completed t) (created_at t)
      (scheduled_output_time t) (input_txid t) (output_txid t)).
  cut (wp (transaction_status env id sid)
         (fun page w' =>
            (same_ledger w w' /\ rpc_calls w' = rpc_calls w) /\
            (forall r, page = StatusRendered r ->
               exists t, transactions w !! id = Some t /\ session_id t = sid /\
                 r = report t) /\
            page = match transactions w !! id with
                   | None => StatusAborted 404
                   | Some t => if String.eqb (session_id t) sid
                               then StatusRendered (report t)
                               else StatusAborted 403
                   end)
         (fun _ w' =>
            (same_ledger w w' /\ rpc_calls w' = rpc_calls w) /\
            (fault env (tick w) <> None \/ fault env (S (tick w)) <> None)) w).
  { unfold wp. destruct (transaction_status env id sid w) as [w' [page|e]]; simpl.
    - intros (Hsame & Hr & Hpage). split; [done|]. split.
      + intros r [= ->]. by apply Hr.
      + intros _ _. by rewrite Hpage.
    - intros (Hsame & Hfault). split; [done|]. split; [done|].
      intros H0 H1. by destruct Hfault. }
  unfold transaction_status.
  wp_step. eapply wp_mono; [apply get_transaction_status_run | |].
  2: { intros e w' [-> Hf]. split; [done | by left]. }
  intros r w' [-> ->].
  destruct (transactions w !! id) as [t|] eqn:Ht.
  2: { wp_step. split; [done|]. split; [done | done]. }
  wp_step. apply wp_query_get; [intros e He; split; [done | right; simpl in He; congruence]|].
  intros _. simpl. rewrite Ht.
  destruct (String.eqb_spec (session_id t) sid) as [Hsid|Hsid]; simpl; wp_step.
  - split; [done|]. split; [|done]. intros r [= <-]. by exists t.
  - split; [done|]. split; done.
Qed.

(** X21.  The payment route runs the check only for the session that
    created the transaction: for an unknown id or another session it
    answers 404 or 403, asks the wallet for nothing and leaves the
    transaction and the log as they are. *)
Theorem check_payment_is_for_the_owner (env : Env) (id : nat) (sid : string)
    (w : World) :
  (forall t, transactions w !! id = Some t -> session_id t <> sid) ->
  same_ledger w (fst (check_payment env id sid w)) /\
  rpc_calls (fst (check_payment env id sid w)) = rpc_calls w /\
  (fault env (tick w) = None ->
   snd (check_payment env id sid w)
     = Ok (PaymentError (match transactions w !! id with Some _ => 403 | None => 404 end))).
Proof.
  intros Hother.
  cut (wp (check_payment env id sid)
         (fun r w' => (same_ledger w w' /\ rpc_calls w' = rpc_calls w) /\
            r = PaymentError (match transactions w !! id with Some _ => 403 | None => 404 end))
         (fun _ w' => (same_ledger w w' /\ rpc_calls w' = rpc_calls w) /\
            fault env (tick w) <> None) w).
  { unfold wp. destruct (check_payment env id sid w) as [w' [r|e]]; simpl.
    - intros ([? ?] & ->). done.
    - intros ([? ?] & ?). done. }
  unfold check_payment.
  wp_step. apply wp_query_get; [intros e He; split; [done | congruence]|].
  intros _. destruct (transactions w !! id) as [t|] eqn:Ht; [|by wp_step].
  destruct (String.eqb_spec (session_id t) sid) as [Hsid|Hsid]; simpl.
  - by destruct (Hother t eq_refl).
  - by wp_step.
Qed.

Lemma check_payment_is_for_the_owner_witness :
  (forall t, transactions demo_created !! 3%nat = Some t ->
     session_id t <> "another session") /\
  snd (check_payment demo_env 3 "another session" demo_created)
    = Ok (PaymentError 403) /\
  rpc_calls (fst (check_payment demo_env 3 "another session" demo_created))
    = rpc_calls demo_created.
Proof.
  assert (H : forall t, transactions demo_created !! 3%nat = Some t ->
                session_id t <> "another session").
  { intros t Ht. vm_compute in Ht. injection Ht as <-. discriminate. }
  split; [exact H|].
  destruct (check_payment_is_for_the_owner demo_env 3%nat "another session"
              demo_created H) as (_ & Hcalls & Hr).
  split; [exact (Hr eq_refl) | exact Hcalls].
Defined.

(** X22.  A body of the payment route that says the payment was received
    reports the status "mixing"; the address and the expected amount it
    shows are those the transaction was created with, and the session is
    the one that created it. *)
Theorem check_payment_reports (env : Env) (id : nat) (sid : string) (w : World)
    (body : PaymentReport) :
  snd (check_payment env id sid w) = Ok (PaymentJson body) ->
  (exists t, transactions w !! id = Some t /\ session_id t = sid /\
     payment_input_address body = input_address t /\
     payment_expected_amount body = input_amount t) /\
  (payment_received body = true -> payment_status body = "mixing").
Proof.
  intros Hok.
  set (Q := fun (r : PaymentResponse) (w' : World) =>
    forall body, r = PaymentJson body ->
    (exists t, transactions w !! id = Some t /\ session_id t = sid /\
       payment_input_address body = input_address t /\
       payment_expected_amount body = input_amount t) /\
    (payment_received body = true -> payment_status body = "mixing")).
  cut (wp (check_payment env id sid) Q (fun _ _ => True) w).
  { unfold wp. destruct (check_payment env id sid w) as [w' [r|e]];
      simpl in *; [|discriminate]. injection Hok as ->. intros HQ. by apply HQ. }
  unfold check_payment.
  wp_step. apply wp_query_get; [done | intros _].
  destruct (transactions w !! id) as [t|] eqn:Ht; [|wp_step; by intros ? [=]].
  destruct (String.eqb_spec (session_id t) sid) as [Hsid|Hsid]; simpl;
    [|wp_step; by intros ? [=]].
  wp_step.
  assert (Hlk : transactions (next_tick w) !! id = Some t) by done.
  eapply wp_mono;
    [ apply (wp_and_steps identities_kept);
      [ apply (wp_and_steps rows_evolve);
        [ apply (check_incoming_payment_detects_run env id (next_tick w) t Hlk) |]
      | apply check_incoming_payment_identities ]
    | | done ].
  { apply (steps_check_incoming_payment env rows_evolve (fun _ => True));
      eauto with evolve. }
  intros received w' [[Hdet Hrows] Hids].
  destruct (Hrows id t Hlk) as (t1 & Ht1 & _ & _ & _ & _).
  destruct (Hids id t Hlk) as (t2 & Ht2 & _ & Haddr & _).
  destruct (Hrows id t Hlk) as (t3 & Ht3 & Hamount & _).
  replace t2 with t1 in * by congruence. replace t3 with t1 in * by congruence.
  wp_step. eapply wp_getattr_known; [exact Ht1|].
  wp_step. eapply wp_getattr_known; [exact Ht1|].
  wp_step. eapply wp_getattr_known; [exact Ht1|].
  wp_step. intros body' [= <-]. simpl. split.
  - exists t. done.
  - intros ->. destruct (Hdet eq_refl) as (_ & txid & ts & _ & Htx & _).
    rewrite Htx, lookup_insert_eq in Ht1. by injection Ht1 as <-.
Qed.

Lemma check_payment_reports_witness :
  exists body,
    snd (check_payment demo_env 3 "session" demo_created) = Ok (PaymentJson body) /\
    payment_received body = true /\ payment_status body = "mixing".
Proof.
  destruct (snd (check_payment demo_env 3 "session" demo_created))
    as [[body|code]|e] eqn:Hr; [|vm_compute in Hr; discriminate..].
  exists body. split; [reflexivity|].
  assert (Hpaid : payment_received body = true).
  { vm_compute in Hr. by injection Hr as <-. }
  split; [exact Hpaid|].
  exact (proj2 (check_payment_reports demo_env 3%nat "session" demo_created
                  body Hr) Hpaid).
Defined.

(** X23.  The /mixer route never creates a transaction: it answers with
    the form again or with a 500, and in both cases no transaction and no
    log entry is written.  A request that passes validation is always
    answered 500, because the suspicious-activity check raises before the
    transaction is created. *)
Theorem mixer_never_creates (env : Env) (config : Config) (form : MixerForm)
    (s i u : string) (w : World) :
  same_ledger w (fst (mixer env config form s i u w)) /\
  (snd (mixer env config form s i u w) = Ok RenderMixer \/
   snd (mixer env config form s i u w) = Ok (Abort 500)) /\
  (snd (validate_on_submit env config form w) = Ok true ->
   snd (mixer env config form s i u w) = Ok (Abort 500)).
Proof.
  pose proof (validate_output_address_field_same_ledger env
                (form_output_address form) w) as Hsame.
  destruct (validate_output_address_field_returns env
              (form_output_address form) w) as [b Hb].
  unfold mixer, validate_on_submit, bind, try_except, check_suspicious_activity,
    utcnow, oracle, raise, ret in *.
  destruct (validate_output_address_field env (form_output_address form) w)
    as [w1 r]. simpl in *. subst r.
  destruct (validate_amount_field config (amount form) && b); simpl.
  - split; [exact Hsame|]. split; [by right | done].
  - split; [exact Hsame|]. split; [by left | done].
Qed.

(** * The form *)

(** X24.  The amount field of the form accepts exactly the amounts that
    are not zero and lie between MIN_AMOUNT and MAX_AMOUNT, both bounds
    included, compared as numbers whatever their number of decimals; an
    amount that could not be parsed is refused. *)
Theorem validate_amount_field_accepts (config : Config) :
  validate_amount_field config None = false /\
  forall d,
    validate_amount_field config (Some d) = true <->
    ~ (dec_value d == 0)%Q /\
    (dec_value (MIN_AMOUNT config) <= dec_value d)%Q /\
    (dec_value d <= dec_value (MAX_AMOUNT config))%Q.
Proof.
  split; [done|]. intros d. unfold validate_amount_field, validate_amount.
  rewrite !andb_true_iff, !negb_true_iff, dec_truthy_value,
    !dec_ltb_false_value. tauto.
Qed.

(** * The rows the entry points can produce *)

Lemma all_settled_alter config (m : gmap nat MixingTransaction) id f t :
  (forall i x, m !! i = Some x -> settled config x) ->
  m !! id = Some t ->
  settled config (f t) ->
  forall i x, alter f id m !! i = Some x -> settled config x.
Proof.
  intros Hm Ht Hf i x. destruct (decide (id = i)) as [->|Hne].
  - rewrite lookup_alter_eq, Ht. simpl. by intros [= <-].
  - rewrite lookup_alter_ne by done. apply Hm.
Qed.

Lemma keeps_settled_refl config w : keeps_settled config w w.
Proof. by intros H. Qed.

Lemma keeps_settled_trans config w1 w2 w3 :
  keeps_settled config w1 w2 -> keeps_settled config w2 w3 ->
  keeps_settled config w1 w3.
Proof. unfold keeps_settled. auto. Qed.

Lemma keeps_settled_same config w w' :
  transactions w' = transactions w -> keeps_settled config w w'.
Proof. intros Heq Hinv id t. rewrite Heq. apply Hinv. Qed.

Lemma keeps_settled_delete config ids f w :
  keeps_settled config w
    (with_security_alerts f (with_transactions (fun m => foldr delete m ids) w)).
Proof.
  intros Hinv i x. simpl. rewrite lookup_foldr_delete_Some. intros [_ Hx].
  by eapply Hinv.
Qed.

(** Proves a row settled from the row it was written from. *)
Ltac settled_row Hrow :=
  unfold settled, untouched_by_mixing in *; simpl in *;
  repeat match goal with
         | |- _ /\ _ => split
         | |- _ -> _ => intros ?
         end;
  try done; try lia; try congruence;
  try solve [intuition (first [done | lia | congruence])].

Ltac settled_leaf Hinv Hlk :=
  simpl in *; leb_to_le;
  unfold all_settled; simpl; rewrite ?alter_alter_eq;
  first [ exact Hinv
        | eapply all_settled_alter; [exact Hinv | exact Hlk |];
          let Hrow := fresh "Hrow" in
          pose proof (Hinv _ _ Hlk) as Hrow; settled_row Hrow ].

Section Settled.

Variable env : Env.
Variable config : Config.
Hypothesis rounds_nonneg : 0 <= MIXING_ROUNDS config.

Lemma check_incoming_payment_keeps_settled id :
  steps (keeps_settled config) (check_incoming_payment env id).
Proof.
  intros w Hinv. apply fst_wp.
  unfold check_incoming_payment.
  wp_step. wp_step; [done|].
  wp_step; [|by wp_step].
  rename m into t. rename Heqo into Hlk.
  assert (Hlk1 : transactions (next_tick w) !! id = Some t) by done.
  wp_step. wp_step. wp_step; [by wp_step|].
  wp_step; [|by wp_step].
  wp_step. wp_step; [by wp_step|].
  wp_step.
  eapply wp_mono with
    (Q := fun _ w' => exists txid,
       transactions w' = alter (set_input_txid txid) id (transactions w))
    (E := fun _ _ => False); [| |done].
  { destruct (wallet_listreceivedbyaddress _ _ _) as [|[|ref rest] more].
    - wp_step. exists (input_txid t). simpl.
      by rewrite (alter_known _ _ _ _ Hlk), set_input_txid_same, insert_id.
    - wp_step. exists (input_txid t). simpl.
      by rewrite (alter_known _ _ _ _ Hlk), set_input_txid_same, insert_id.
    - wp_step. by exists (Some ref). }
  intros _ w2 (txid & Htx2).
  assert (Hlk2 : transactions w2 !! id = Some (set_input_txid txid t)).
  { by rewrite Htx2, lookup_alter_eq, Hlk. }
  wp_exec Hlk2; simpl; unfold all_settled; simpl;
    rewrite Htx2, ?alter_alter_eq;
    (eapply all_settled_alter; [exact Hinv | exact Hlk |]);
    pose proof (Hinv _ _ Hlk) as Hrow; settled_row Hrow.
Qed.

Lemma send_output_transaction_keeps_settled id :
  steps (keeps_settled config) (send_output_transaction env id).
Proof.
  intros w Hinv. apply fst_wp.
  unfold send_output_transaction.
  wp_step. wp_step; [done|].
  wp_step; [|by wp_step].
  wp_step; [by wp_step|].
  rename m into t. rename Heqo into Hlk.
  apply negb_false_iff, bool_decide_eq_true in Heqb.
  wp_exec Hlk; settled_leaf Hinv Hlk.
Qed.

Lemma create_mixing_transaction_keeps_settled a o s i u :
  steps (keeps_settled config) (create_mixing_transaction env config a o s i u).
Proof.
  intros w Hinv.
  assert (Hstep : steps (fun w0 w' => transactions w' = transactions w0 \/
                           exists id t,
                             transactions w' = <[id := t]> (transactions w0) /\
                             transactions w0 !! id = None /\
                             is_new_row config t /\
                             scheduled_output_time t <> None /\
                             untouched_by_mixing t)
                        (create_mixing_transaction env config a o s i u)).
  { clear. intros w. apply fst_wp. unfold create_mixing_transaction.
    wp_step. wp_step; [by left|].
    wp_step. wp_step; [by left|].
    wp_step. wp_step. wp_step.
    apply wp_db_insert_transaction;
      [intros ? ? | intros ? ? | intros ? ? ? | intros ? stored Hst ?].
    1-3: by left.
    pose proof (stored_row_is_new _ _ _ _ _ _ _ _ _ _ Hst) as Hnew.
    apply store_numeric_columns_Some in Hst as (ia & fa & oa & _ & _ & _ & ->).
    repeat wp_step; right; eexists _, _; (split; [reflexivity|]);
      (split; [eassumption|]); (split; [exact Hnew|]); by repeat split. }
  specialize (Hstep w).
  destruct Hstep as [Hsame | (id & t & Htx & Hnone & (Hs & Hr & _) & Hsched & Hun)].
  - intros j x. rewrite Hsame. apply Hinv.
  - intros j x. rewrite Htx. destruct (decide (id = j)) as [->|Hne].
    + rewrite lookup_insert_eq. intros [= <-].
      destruct Hun as (? & ? & ? & ? & ? & ? & ? & ?).
      unfold settled, untouched_by_mixing.
      repeat split; try congruence; try lia.
    + rewrite lookup_insert_ne by done. apply Hinv.
Qed.

(** A round asked for while the counter is below the configured count. *)
Lemma perform_mixing_round_keeps_settled id w :
  (forall t, transactions w !! id = Some t ->
     mixing_rounds_completed t < MIXING_ROUNDS config) ->
  keeps_settled config w (fst (perform_mixing_round env config id w)).
Proof.
  intros Hguard Hinv. apply fst_wp.
  unfold perform_mixing_round.
  wp_step. wp_step; [done|].
  wp_step; [|by wp_step].
  wp_step; [by wp_step|].
  rename m into t. rename Heqo into Hlk.
  apply negb_false_iff, bool_decide_eq_true in Heqb.
  specialize (Hguard _ eq_refl).
  wp_step. wp_step.
  eapply wp_steps; [apply get_mixing_pool_addresses_same_transactions | |];
    intros ? w1 Hw1; simpl in Hw1;
    assert (Hinv1 : forall i x, transactions w1 !! i = Some x -> settled config x)
      by (rewrite Hw1; exact Hinv);
    assert (Hlk1 : transactions w1 !! id = Some t) by (by rewrite Hw1).
  2: { wp_exec Hlk1; settled_leaf Hinv1 Hlk1. }
  wp_step. wp_step. 1: (wp_exec Hlk1; settled_leaf Hinv1 Hlk1).
  wp_step. eapply wp_getattr_known; [wp_lookup Hlk1|].
  wp_step.
  eapply wp_mono with (Q := fun _ w' => w' = next_tick w1)
                      (E := fun _ _ => False); [| |done].
  { destruct (_ =? 0).
    - wp_step. eapply wp_getattr_known; [wp_lookup Hlk1|]. by wp_step.
    - by eapply wp_getattr_known; [wp_lookup Hlk1|]. }
  intros from ? ->.
  unfold _schedule_output_transaction.
  wp_exec Hlk1; settled_leaf Hinv1 Hlk1.
Qed.

Lemma run_keeps_settled e w :
  all_settled config w -> all_settled config (run env config e w).
Proof.
  apply (entry_run env config (keeps_settled config)).
  - apply keeps_settled_refl.
  - apply keeps_settled_trans.
  - by intros w0; apply keeps_settled_same.
  - by intros f w0; apply keeps_settled_same.
  - apply keeps_settled_delete.
  - intros a. apply steps_validate_bitcoin_address;
      first [ apply keeps_settled_refl | apply keeps_settled_trans
            | by intros; apply keeps_settled_same ].
  - apply create_mixing_transaction_keeps_settled.
  - apply check_incoming_payment_keeps_settled.
  - apply perform_mixing_round_keeps_settled.
  - apply send_output_transaction_keeps_settled.
Qed.

Lemma reachable_all_settled w :
  reachable env config w -> all_settled config w.
Proof.
  induction 1 as [|e w Hw IH]; [by intros id t|].
  by apply run_keeps_settled.
Qed.

End Settled.

Lemma demo_paid_reachable : reachable demo_env demo_config demo_paid.
Proof. repeat apply reachable_run. apply reachable_initial. Qed.



(** X26.  With a non-negative configured round count, in every store the
    entry points can reach, no transaction is CANCELLED; a PENDING
    transaction is as creation left it (no round, no holding address, no
    wallet reference, no time stamp of mixing, no error, no retry), and a
    transaction that has left PENDING carries its mixing start. *)
Theorem pending_rows_are_as_created (env : Env) (config : Config)
    (w : World) (id : nat) (t : MixingTransaction) :
  0 <= MIXING_ROUNDS config ->
  reachable env config w ->
  transactions w !! id = Some t ->
  status t <> CANCELLED /\
  (status t = PENDING -> untouched_by_mixing t) /\
  (status t <> PENDING -> mixing_started_at t <> None) /\
  scheduled_output_time t <> None.
Proof.
  intros HR Hw Ht.
  destruct (reachable_all_settled env config HR w Hw id t Ht)
    as (Hc & _ & _ & _ & _ & Hpending & Hstarted & Hsched & _).
  done.
Qed.

Lemma demo_created_reachable : reachable demo_env demo_config demo_created.
Proof. repeat apply reachable_run. apply reachable_initial. Qed.

Lemma pending_rows_are_as_created_witness :
  exists t, transactions demo_created !! 3%nat = Some t /\
    status t = PENDING /\ untouched_by_mixing t.
Proof.
  destruct (transactions demo_created !! 3%nat) as [t|] eqn:Ht;
    [|vm_compute in Ht; discriminate].
  assert (Hs : status t = PENDING).
  { vm_compute in Ht. by injection Ht as <-. }
  exists t. split; [reflexivity|]. split; [exact Hs|].
  assert (HR : 0 <= MIXING_ROUNDS demo_config) by (vm_compute; discriminate).
  exact (proj1 (proj2 (pending_rows_are_as_created demo_env demo_config
                         demo_created 3%nat t HR demo_created_reachable Ht)) Hs).
Defined.

(** * The pool the entry points fill *)

Lemma keeps_pool_settled_refl w : keeps_pool_settled w w.
Proof. by intros H. Qed.

Lemma keeps_pool_settled_trans w1 w2 w3 :
  keeps_pool_settled w1 w2 -> keeps_pool_settled w2 w3 -> keeps_pool_settled w1 w3.
Proof. unfold keeps_pool_settled. auto. Qed.

Lemma keeps_pool_settled_same w w' :
  mixing_pool w' = mixing_pool w -> keeps_pool_settled w w'.
Proof. intros Heq. unfold keeps_pool_settled, pool_settled. by rewrite Heq. Qed.

Lemma same_pool_trans w1 w2 w3 :
  mixing_pool w2 = mixing_pool w1 -> mixing_pool w3 = mixing_pool w2 ->
  mixing_pool w3 = mixing_pool w1.
Proof. congruence. Qed.

Lemma pool_settled_all_active w :
  pool_settled w -> active_pools w = mixing_pool w.
Proof.
  intros (_ & Hall). unfold active_pools.
  induction Hall as [|p l [Hp _] _ IH]; [done|].
  by rewrite filter_cons_True, IH.
Qed.

Section PoolSettled.

Variable env : Env.
Variable config : Config.

(** Filling the pool adds distinct, active, unused entries. *)
Lemma get_mixing_pool_addresses_keeps_pool_settled w :
  keeps_pool_settled w (fst (get_mixing_pool_addresses env 5 w)).
Proof.
  intros Hpool.
  pose proof (pool_settled_all_active w Hpool) as Hact.
  destruct Hpool as (Hnodup & Hall).
  pose proof (get_mixing_pool_addresses_run env 5 w) as Hrun. unfold wp in Hrun.
  rewrite Hact in Hrun.
  destruct (get_mixing_pool_addresses env 5 w) as [w' [l|e]]; simpl.
  - destruct Hrun as (_ & _ & new & Hpool' & Hnew & Hallnew & Hnd & _).
    split; [by apply Hnd|]. rewrite Hpool'. by apply Forall_app.
  - destruct Hrun as (new & k & Hpool' & Hnew & Hallnew & Hnd & _).
    split; [by apply Hnd|]. rewrite Hpool'. by apply Forall_app.
Qed.

Lemma perform_mixing_round_keeps_pool_settled id :
  steps keeps_pool_settled (perform_mixing_round env config id).
Proof.
  intros w Hpool. apply fst_wp.
  unfold perform_mixing_round.
  wp_step. wp_step; [done|].
  wp_step; [|by wp_step].
  wp_step; [by wp_step|].
  rename m into t. rename Heqo into Hlk.
  wp_step. wp_step.
  assert (Hfill : keeps_pool_settled (next_tick w)
            (fst (get_mixing_pool_addresses env 5 (next_tick w))))
    by apply get_mixing_pool_addresses_keeps_pool_settled.
  eapply wp_mono;
    [ apply (wp_and_steps same_transactions);
      [ apply (wp_fst _ pool_settled); by apply Hfill
      | apply get_mixing_pool_addresses_same_transactions ]
    | | ].
  2: { intros e w1 [Hp1 Hw1]. simpl in Hw1.
       assert (Hlk1 : transactions w1 !! id = Some t) by (by rewrite Hw1).
       wp_exec Hlk1; exact Hp1. }
  intros pool w1 [Hp1 Hw1]. simpl in Hw1.
  assert (Hlk1 : transactions w1 !! id = Some t) by (by rewrite Hw1).
  wp_step. wp_step. 1: (wp_exec Hlk1; exact Hp1).
  wp_step. eapply wp_getattr_known; [wp_lookup Hlk1|].
  wp_step.
  eapply wp_mono with (Q := fun _ w' => w' = next_tick w1)
                      (E := fun _ _ => False); [| |done].
  { destruct (_ =? 0).
    - wp_step. eapply wp_getattr_known; [wp_lookup Hlk1|]. by wp_step.
    - by eapply wp_getattr_known; [wp_lookup Hlk1|]. }
  intros from ? ->.
  unfold _schedule_output_transaction.
  wp_exec Hlk1; exact Hp1.
Qed.

Lemma run_keeps_pool_settled e w :
  pool_settled w -> pool_settled (run env config e w).
Proof.
  apply (entry_run env config keeps_pool_settled).
  - apply keeps_pool_settled_refl.
  - apply keeps_pool_settled_trans.
  - by intros w0; apply keeps_pool_settled_same.
  - by intros f w0; apply keeps_pool_settled_same.
  - by intros ids f w0; apply keeps_pool_settled_same.
  - intros a w0. apply keeps_pool_settled_same.
    apply (steps_validate_bitcoin_address env
             (fun w1 w2 => mixing_pool w2 = mixing_pool w1));
      first [ exact same_pool_trans | by intros ].
  - intros a o s i u w0. apply keeps_pool_settled_same.
    apply (steps_create_mixing_transaction env
             (fun w1 w2 => mixing_pool w2 = mixing_pool w1) (fun _ => True));
      first [ exact same_pool_trans | by intros ].
  - intros id w0. apply keeps_pool_settled_same.
    apply (steps_check_incoming_payment env
             (fun w1 w2 => mixing_pool w2 = mixing_pool w1) (fun _ => True));
      first [ exact same_pool_trans | by intros ].
  - intros id w0 _. apply perform_mixing_round_keeps_pool_settled.
  - intros id w0. apply keeps_pool_settled_same.
    apply (steps_send_output_transaction env
             (fun w1 w2 => mixing_pool w2 = mixing_pool w1) (fun _ => True));
      first [ exact same_pool_trans | by intros ].
Qed.

End PoolSettled.

(** X27.  No pool entry is ever retired or marked as used: in every
    store the service calls, the routes and the periodic tasks can reach,
    the addresses of the pool table are pairwise distinct and every entry
    is active and has no last-used time.  The selection of a round, which
    orders the active entries by that time, therefore never leaves an
    entry out for being inactive and never has a time to order by. *)
Theorem pool_entries_are_never_retired (env : Env) (config : Config) (w : World) :
  reachable env config w ->
  NoDup (map address (mixing_pool w)) /\
  (forall p, p ∈ mixing_pool w -> is_active p = true /\ last_used p = None) /\
  active_pools w = mixing_pool w.
Proof.
  intros Hw.
  assert (Hpool : pool_settled w).
  { induction Hw as [|e w Hw IH].
    - split; constructor.
    - by apply run_keeps_pool_settled. }
  pose proof (pool_settled_all_active w Hpool) as Hact.
  destruct Hpool as (Hnodup & Hall).
  split; [done|]. split; [|done].
  intros p Hp. by apply (proj1 (Forall_forall _ _) Hall).
Qed.

Lemma pool_entries_are_never_retired_witness :
  length (mixing_pool demo_paid) = 5%nat /\
  NoDup (map address (mixing_pool demo_paid)) /\
  active_pools demo_paid = mixing_pool demo_paid.
Proof.
  split; [vm_compute; reflexivity|].
  destruct (pool_entries_are_never_retired demo_env demo_config demo_paid
              demo_paid_reachable) as (Hnodup & _ & Hact).
  split; [exact Hnodup | exact Hact].
Defined.

(** * The claims *)

(** C1, as amended.  One pass of the payout-due task, run on its own,
    selects exactly the COMPLETED transactions whose scheduled time has
    passed and that carry no payout reference; it writes to no transaction
    it did not select, so that the row and the log entries of every
    transaction that carries a payout reference are as before, and it
    asks the wallet for at most one transfer per transaction it selected.
    [send_output_transaction] itself is a no-op on a transaction that is
    missing or not COMPLETED. *)
Theorem send_scheduled_outputs_skips_paid (env : Env) (w : World) :
  (forall id t,
     (id, t) ∈ due_outputs (utc_clock env (tick w)) w <->
     transactions w !! id = Some t /\ status t = COMPLETED /\
     output_txid t = None /\
     exists time, scheduled_output_time t = Some time /\
                  time <= utc_clock env (tick w)) /\
  (forall id,
     id ∉ map fst (due_outputs (utc_clock env (tick w)) w) ->
     transactions (fst (send_scheduled_outputs env w)) !! id
       = transactions w !! id /\
     logs_of id (fst (send_scheduled_outputs env w)) = logs_of id w) /\
  (forall id t,
     transactions w !! id = Some t -> output_txid t <> None ->
     transactions (fst (send_scheduled_outputs env w)) !! id = Some t /\
     logs_of id (fst (send_scheduled_outputs env w)) = logs_of id w) /\
  (count_sends (rpc_calls (fst (send_scheduled_outputs env w)))
   <= count_sends (rpc_calls w)
      + length (due_outputs (utc_clock env (tick w)) w))%nat /\
  (forall id,
     (forall t, transactions w !! id = Some t -> status t <> COMPLETED) ->
     transactions (fst (send_output_transaction env id w)) = transactions w /\
     mixing_logs (fst (send_output_transaction env id w)) = mixing_logs w /\
     rpc_calls (fst (send_output_transaction env id w)) = rpc_calls w).
Proof.
  split; [intros id t; apply elem_of_due_outputs|].
  destruct (send_scheduled_outputs_one_pass env w) as [Hrows Hsends].
  split; [exact Hrows|]. split; [|split; [exact Hsends|]].
  - intros id t Ht Hpaid.
    destruct (Hrows id) as [Hrow Hlogs]; [|by rewrite Hrow].
    by eapply paid_not_due.
  - intros id Hid.
    destruct (send_output_transaction_requires_completed env id w Hid)
      as [[Htx Hlog] Hrpc].
    done.
Qed.

Lemma send_scheduled_outputs_skips_paid_witness :
  exists t, transactions demo_paid !! 3%nat = Some t /\
    output_txid t <> None /\
    transactions (fst (send_scheduled_outputs demo_env demo_paid)) !! 3%nat
      = Some t /\
    count_sends (rpc_calls (fst (send_scheduled_outputs demo_env demo_paid)))
      = count_sends (rpc_calls demo_paid).
Proof.
  destruct (transactions demo_paid !! 3%nat) as [t|] eqn:Ht;
    [|vm_compute in Ht; discriminate].
  exists t. split; [reflexivity|].
  assert (Hpaid : output_txid t <> None).
  { vm_compute in Ht. injection Ht as <-. discriminate. }
  split; [exact Hpaid|].
  destruct (send_scheduled_outputs_skips_paid demo_env demo_paid)
    as (_ & _ & Hrows & _ & _).
  split; [exact (proj1 (Hrows 3%nat t Ht Hpaid))|]. vm_compute. reflexivity.
Defined.

(** C1, as stated, fails: on a COMPLETED transaction that carries a payout
    reference, [send_output_transaction] asks the wallet for a second
    transfer, replaces the reference and logs OUTPUT_SENT again. *)
Lemma send_output_transaction_pays_again :
  (exists t, transactions demo_paid !! 3%nat = Some t /\
     status t = COMPLETED /\ output_txid t = Some "payout-j") /\
  snd (send_output_transaction demo_env 3 demo_paid) = Ok true /\
  (exists t', transactions (fst (send_output_transaction demo_env 3 demo_paid))
                !! 3%nat = Some t' /\
     output_txid t' = Some "payout-n") /\
  count_sends (rpc_calls demo_paid) = 1%nat /\
  count_sends (rpc_calls (fst (send_output_transaction demo_env 3 demo_paid)))
    = 2%nat /\
  count_logs 3 OUTPUT_SENT demo_paid = 1%nat /\
  count_logs 3 OUTPUT_SENT (fst (send_output_transaction demo_env 3 demo_paid))
    = 2%nat.
Proof.
  split; [eexists; split; [vm_compute; reflexivity | split; reflexivity]|].
  split; [vm_compute; reflexivity|].
  split; [eexists; split; [vm_compute; reflexivity | reflexivity]|].
  repeat split; vm_compute; reflexivity.
Qed.

(** C2: [check_incoming_payment] moves a FAILED transaction, and a
    COMPLETED one whose payout was sent, back to MIXING. *)
Theorem check_incoming_payment_reopens :
  (exists t, transactions demo_failed !! 3%nat = Some t /\ status t = FAILED) /\
  snd (check_incoming_payment demo_env 3 demo_failed) = Ok true /\
  (exists t, transactions (fst (check_incoming_payment demo_env 3 demo_failed))
               !! 3%nat = Some t /\ status t = MIXING) /\
  (exists t, transactions demo_paid !! 3%nat = Some t /\ status t = COMPLETED) /\
  (exists t, transactions (fst (check_incoming_payment demo_env 3 demo_paid))
               !! 3%nat = Some t /\ status t = MIXING).
Proof.
  split; [eexists; split; [vm_compute; reflexivity | reflexivity]|].
  split; [vm_compute; reflexivity|].
  repeat split; eexists; (split; [vm_compute; reflexivity | reflexivity]).
Qed.

(** C3: a second [check_incoming_payment] on a transaction already MIXING
    returns True again, logs PAYMENT_RECEIVED a second time and stamps a
    new mixing_started_at. *)
Theorem check_incoming_payment_not_idempotent :
  (exists t, transactions demo_funded !! 3%nat = Some t /\
     status t = MIXING /\ mixing_started_at t = Some 480000000) /\
  snd (check_incoming_payment demo_env 3 demo_funded) = Ok true /\
  (exists t, transactions (fst (check_incoming_payment demo_env 3 demo_funded))
               !! 3%nat = Some t /\
     status t = MIXING /\ mixing_started_at t = Some 840000000) /\
  count_logs 3 PAYMENT_RECEIVED demo_funded = 1%nat /\
  count_logs 3 PAYMENT_RECEIVED
    (fst (check_incoming_payment demo_env 3 demo_funded)) = 2%nat.
Proof.
  split; [eexists; split; [vm_compute; reflexivity | split; reflexivity]|].
  split; [vm_compute; reflexivity|].
  split; [eexists; split; [vm_compute; reflexivity | split; reflexivity]|].
  split; vm_compute; reflexivity.
Qed.

(** C4, as amended.  On a MIXING transaction, a round that returns False
    has moved the transaction to FAILED with the message of the error
    recorded, and the round counter is at its prior value or one above it;
    when the error is raised while the pool addresses are allocated (the
    wallet call of the round, made before the counter is written) the
    round returns False and the counter is at its prior value; and once
    the round has logged its hop the counter is one above its prior value,
    whatever happens afterwards and however the round ends. *)
Theorem failed_round_marks_failed (env : Env) (config : Config)
    (id : nat) (w : World) (t : MixingTransaction) :
  transactions w !! id = Some t ->
  status t = MIXING ->
  (snd (perform_mixing_round env config id w) = Ok false ->
   exists t' e,
     transactions (fst (perform_mixing_round env config id w)) !! id = Some t' /\
     status t' = FAILED /\ error_message t' = Some e /\
     mixing_rounds_completed t <= mixing_rounds_completed t'
       <= mixing_rounds_completed t + 1) /\
  (forall w1 e,
     fault env (tick w) = None ->
     get_mixing_pool_addresses env 5 (next_tick w) = (w1, Raise e) ->
     fault env (tick w1) = None ->
     snd (perform_mixing_round env config id w) = Ok false /\
     exists t',
       transactions (fst (perform_mixing_round env config id w)) !! id = Some t' /\
       status t' = FAILED /\ error_message t' = Some e /\
       mixing_rounds_completed t' = mixing_rounds_completed t) /\
  (mixing_logs (fst (perform_mixing_round env config id w)) <> mixing_logs w ->
   exists t',
     transactions (fst (perform_mixing_round env config id w)) !! id = Some t' /\
     mixing_rounds_completed t' = mixing_rounds_completed t + 1).
Proof.
  intros Ht Hs. split; [|split].
  - set (Q := fun (b : bool) (w' : World) =>
      b = false -> exists t' e,
        transactions w' !! id = Some t' /\
        status t' = FAILED /\ error_message t' = Some e /\
        mixing_rounds_completed t <= mixing_rounds_completed t'
          <= mixing_rounds_completed t + 1).
    cut (wp (perform_mixing_round env config id) Q (fun _ _ => True) w).
    { unfold wp. destruct (perform_mixing_round env config id w) as [w' [b|e]];
        simpl; [|done].
      intros HQ [= ->]. by apply HQ. }
    unfold perform_mixing_round.
    wp_step. apply wp_query_get; [done | intros _].
    rewrite Ht, bool_decide_true by done. simpl.
    wp_step. wp_step.
    eapply wp_steps; [apply get_mixing_pool_addresses_same_transactions | |];
      intros ? w1 Hw1; simpl in Hw1;
      assert (Hlk : transactions w1 !! id = Some t) by (by rewrite Hw1).
    2: { wp_exec Hlk; try done.
         intros _; eexists _, _; (split; [wp_lookup Hlk|]); simpl;
           repeat split; lia. }
    wp_step. apply wp_random_choice; [intros _ | intros x _].
    { wp_exec Hlk; try done.
      intros _; eexists _, _; (split; [wp_lookup Hlk|]); simpl;
        repeat split; lia. }
    wp_step. eapply wp_getattr_known; [wp_lookup Hlk|].
    wp_step.
    eapply wp_mono with (Q := fun _ w' => w' = next_tick w1)
                        (E := fun _ _ => False); [| |done].
    { destruct (_ =? 0).
      - wp_step. eapply wp_getattr_known; [wp_lookup Hlk|]. by wp_step.
      - by eapply wp_getattr_known; [wp_lookup Hlk|]. }
    intros from ? ->.
    unfold _schedule_output_transaction.
    wp_exec Hlk; try done.
    all: intros _; eexists _, _; (split; [wp_lookup Hlk|]); simpl;
      repeat split; lia.
  - intros w1 e Hload Hpool Hcommit.
    set (Q := fun (b : bool) (w' : World) =>
      b = false /\ exists t',
        transactions w' !! id = Some t' /\
        status t' = FAILED /\ error_message t' = Some e /\
        mixing_rounds_completed t' = mixing_rounds_completed t).
    cut (wp (perform_mixing_round env config id) Q (fun _ _ => False) w).
    { unfold wp. destruct (perform_mixing_round env config id w) as [w' [b|e']];
        simpl; [|done].
      by intros [-> HQ]. }
    unfold perform_mixing_round.
    wp_step. apply wp_query_get; [congruence | intros _].
    rewrite Ht, bool_decide_true by done. simpl.
    wp_step. wp_step.
    pose proof (get_mixing_pool_addresses_same_transactions env 5 (next_tick w))
      as Hw1.
    unfold wp at 1. rewrite Hpool in *. simpl in Hw1.
    assert (Hlk : transactions w1 !! id = Some t) by (by rewrite Hw1).
    wp_exec Hlk.
    + simpl in *. congruence.
    + split; [done|]. eexists; (split; [wp_lookup Hlk|]); simpl. done.
  - set (P := fun w' : World =>
      mixing_logs w' = mixing_logs w \/
      exists t', transactions w' !! id = Some t' /\
        mixing_rounds_completed t' = mixing_rounds_completed t + 1).
    cut (P (fst (perform_mixing_round env config id w))).
    { intros [Hsame | Hrow] Hlogged; [done | exact Hrow]. }
    apply (fst_wp _ P). unfold perform_mixing_round.
    wp_step. apply wp_query_get; [intros; by left | intros _].
    rewrite Ht, bool_decide_true by done. simpl.
    wp_step. wp_step.
    eapply wp_mono; [apply get_mixing_pool_addresses_quiet | |];
      intros ? w1 ([Htx1 Hlog1] & _); simpl in Htx1, Hlog1;
      assert (Hlk : transactions w1 !! id = Some t) by (by rewrite Htx1).
    2: { wp_exec Hlk; by left. }
    wp_step. apply wp_random_choice; [intros _ | intros chosen _].
    { wp_exec Hlk; by left. }
    wp_step. eapply wp_getattr_known; [wp_lookup Hlk|].
    wp_step.
    eapply wp_mono with (Q := fun _ w' => w' = next_tick w1)
                        (E := fun _ _ => False); [| |done].
    { destruct (_ =? 0).
      - wp_step. eapply wp_getattr_known; [wp_lookup Hlk|]. by wp_step.
      - by eapply wp_getattr_known; [wp_lookup Hlk|]. }
    intros from ? ->.
    unfold _schedule_output_transaction.
    wp_exec Hlk;
      first [ by left
            | right; eexists; (split; [wp_lookup Hlk|]); reflexivity ].
Qed.

Lemma failed_round_marks_failed_witness :
  exists t t',
    transactions demo_funded !! 3%nat = Some t /\ status t = MIXING /\
    snd (perform_mixing_round (failing_at 13 "wallet down" demo_env)
           demo_config 3 demo_funded) = Ok false /\
    transactions demo_failed !! 3%nat = Some t' /\
    status t' = FAILED /\ error_message t' = Some "wallet down" /\
    mixing_rounds_completed t' = mixing_rounds_completed t.
Proof.
  destruct (transactions demo_funded !! 3%nat) as [t|] eqn:Ht;
    [|vm_compute in Ht; discriminate].
  assert (Hs : status t = MIXING).
  { vm_compute in Ht. injection Ht as <-. reflexivity. }
  destruct (proj1 (proj2 (failed_round_marks_failed
                            (failing_at 13 "wallet down" demo_env) demo_config
                            3%nat demo_funded t Ht Hs))
              (fst (get_mixing_pool_addresses
                      (failing_at 13 "wallet down" demo_env) 5
                      (next_tick demo_funded)))
              "wallet down")
    as (Hr & t' & Ht' & Hs' & He' & Hn').
  - reflexivity.
  - vm_compute. reflexivity.
  - vm_compute. reflexivity.
  - exists t, t'. repeat split; assumption.
Defined.

(** C4, as stated, fails: the database goes down after the first hop of
    the funded transaction was logged, so that the commit that ends the
    round raises; the round counter has gone from 0 to 1 all the same,
    and the round itself raises, the commit of its error handler being
    refused as well. *)
Lemma failed_round_keeps_increment :
  (exists t, transactions demo_funded !! 3%nat = Some t /\
     status t = MIXING /\ mixing_rounds_completed t = 0) /\
  count_logs 3 (MIXING_ROUND 1) demo_funded = 0%nat /\
  fault (failing_from 22 "database down" demo_env) 21 = None /\
  fault (failing_from 22 "database down" demo_env) 22 = Some "database down" /\
  snd (perform_mixing_round (failing_from 22 "database down" demo_env)
         demo_config 3 demo_funded) = Raise "database down" /\
  count_logs 3 (MIXING_ROUND 1) demo_failed_late = 1%nat /\
  (exists t', transactions demo_failed_late !! 3%nat = Some t' /\
     mixing_rounds_completed t' = 1).
Proof.
  split; [eexists; split; [vm_compute; reflexivity | split; reflexivity]|].
  split; [vm_compute; reflexivity|].
  split; [reflexivity|]. split; [reflexivity|].
  split; [vm_compute; reflexivity|].
  split; [vm_compute; reflexivity|].
  eexists; split; [vm_compute; reflexivity | reflexivity].
Qed.



(** C6, as amended.  After a round that succeeds, the holding address of
    the transaction is the address of one of the (at most five) active
    pool entries the round read from the pool table, least recently used
    first. *)
Theorem round_destination_from_pool (env : Env) (config : Config)
    (id : nat) (w : World) :
  snd (perform_mixing_round env config id w) = Ok true ->
  exists t' p,
    transactions (fst (perform_mixing_round env config id w)) !! id = Some t' /\
    mixing_address t' = Some (address p) /\
    p ∈ selected_pools 5 (fst (perform_mixing_round env config id w)) /\
    p ∈ mixing_pool (fst (perform_mixing_round env config id w)) /\
    is_active p = true.
Proof.
  set (Q := fun (b : bool) (w' : World) =>
    b = true -> exists t' p,
      transactions w' !! id = Some t' /\ mixing_address t' = Some (address p) /\
      p ∈ selected_pools 5 w' /\ p ∈ mixing_pool w' /\ is_active p = true).
  cut (wp (perform_mixing_round env config id) Q (fun _ _ => True) w).
  { unfold wp. destruct (perform_mixing_round env config id w) as [w' [b|e]];
      simpl; [|done].
    intros HQ [= ->]. by apply HQ. }
  unfold perform_mixing_round.
  wp_step. wp_step; [done|].
  wp_step; [|by wp_step].
  wp_step; [by wp_step|].
  wp_step.
  eapply wp_mono with (Q := Q) (E := fun _ _ => True); [|done|].
  2: { intros e w' _. repeat wp_step; done. }
  wp_step.
  eapply wp_mono; [apply get_mixing_pool_addresses_selected | | done].
  intros pool w1 ->. simpl.
  wp_step. apply wp_random_choice; [done | intros x Hx].
  apply list_elem_of_fmap in Hx as (p & -> & Hp).
  wp_step. apply wp_getattr; [intros t Ht | done].
  simpl in Ht.
  wp_step.
  eapply wp_mono with (Q := fun _ w' => w' = next_tick w1)
                      (E := fun _ _ => False); [| |done].
  { destruct (_ =? 0).
    - wp_step. eapply wp_getattr_known; [wp_lookup Ht|]. by wp_step.
    - by eapply wp_getattr_known; [wp_lookup Ht|]. }
  intros from ? ->.
  unfold _schedule_output_transaction.
  wp_exec Ht; try done.
  all: intros _; eexists _, p; (split; [wp_lookup Ht|]);
    (split; [reflexivity|]); simpl;
    destruct (elem_of_selected_pools _ _ _ Hp); done.
Qed.

Lemma round_destination_from_pool_witness :
  snd (perform_mixing_round demo_env demo_config 3 demo_round1) = Ok true /\
  exists t' p,
    transactions (fst (perform_mixing_round demo_env demo_config 3 demo_round1))
      !! 3%nat = Some t' /\
    mixing_address t' = Some (address p) /\
    p ∈ selected_pools 5
          (fst (perform_mixing_round demo_env demo_config 3 demo_round1)) /\
    p ∈ mixing_pool
          (fst (perform_mixing_round demo_env demo_config 3 demo_round1)) /\
    is_active p = true.
Proof.
  assert (H : snd (perform_mixing_round demo_env demo_config 3 demo_round1)
              = Ok true) by (vm_compute; reflexivity).
  split; [exact H|].
  exact (round_destination_from_pool demo_env demo_config 3%nat demo_round1 H).
Defined.

(** C6, as stated, fails: the second round of the concrete run picks the
    address the transaction is already held at. *)
Lemma round_destination_can_repeat :
  (exists t, transactions demo_round1 !! 3%nat = Some t /\
     status t = MIXING /\ mixing_address t = Some "O") /\
  snd (perform_mixing_round demo_env demo_config 3 demo_round1) = Ok true /\
  (exists t',
     transactions (fst (perform_mixing_round demo_env demo_config 3 demo_round1))
       !! 3%nat = Some t' /\
     mixing_rounds_completed t' = 2 /\ mixing_address t' = Some "O").
Proof.
  split; [eexists; split; [vm_compute; reflexivity | split; reflexivity]|].
  split; [vm_compute; reflexivity|].
  eexists; split; [vm_compute; reflexivity | split; reflexivity].
Qed.

(** C7, as amended.  The amount bounds and the destination address are
    checked by the form of the /mixer route, before
    [create_mixing_transaction] is called: a submitted form, whose amount
    is missing or a finite decimal, is answered with the form again
    exactly when the amount is missing, zero, below MIN_AMOUNT or above
    MAX_AMOUNT, or the address is blank, or the wallet's [validateaddress]
    fails or does not answer that the address is valid; such a request
    writes neither a transaction nor a log entry, and asks the wallet for
    nothing but that validation. *)
Theorem mixer_rejects_invalid_form (env : Env) (config : Config)
    (form : MixerForm) (s i u : string) (w : World) :
  (snd (mixer env config form s i u w) = Ok RenderMixer <->
   amount form = None \/
   (exists d, amount form = Some d /\
      ((dec_value d == 0)%Q \/
       (dec_value d < dec_value (MIN_AMOUNT config))%Q \/
       (dec_value (MAX_AMOUNT config) < dec_value d)%Q)) \/
   is_blank (form_output_address form) = true \/
   fault env (tick w) <> None \/
   wallet_validateaddress env (tick w) (form_output_address form) <> Some true) /\
  (snd (mixer env config form s i u w) = Ok RenderMixer ->
   transactions (fst (mixer env config form s i u w)) = transactions w /\
   mixing_logs (fst (mixer env config form s i u w)) = mixing_logs w /\
   (rpc_calls (fst (mixer env config form s i u w)) = rpc_calls w \/
    rpc_calls (fst (mixer env config form s i u w))
      = RpcValidateAddress (form_output_address form) :: rpc_calls w)).
Proof.
  pose proof (validate_amount_field_refuses config (amount form)) as Hamount.
  unfold mixer, validate_on_submit, bind, try_except, check_suspicious_activity,
    utcnow, oracle, raise, ret.
  rewrite validate_output_address_field_run.
  destruct (validate_amount_field config (amount form)) eqn:Hok;
    destruct (is_blank (form_output_address form)) eqn:Hblank; simpl.
  - split; [|by repeat split; try left].
    split; [intros _; by right; right; left | done].
  - destruct (fault env (tick w)) as [e|] eqn:Hfault; simpl.
    { split; [|by repeat split; try right].
      split; [intros _; by right; right; right; left | done]. }
    destruct (wallet_validateaddress env (tick w) (form_output_address form))
      as [[|]|] eqn:Hvalid; simpl.
    + split; [|done]. split; [done|].
      intros [Hnone | [Hbad | [? | [? | ?]]]]; try done.
      * assert (true = false) by (apply Hamount; by left). done.
      * assert (true = false) by (apply Hamount; by right). done.
    + split; [|by repeat split; try right].
      split; [intros _; by right; right; right; right | done].
    + split; [|by repeat split; try right].
      split; [intros _; by right; right; right; right | done].
  - split; [|by repeat split; try left].
    split; [intros _; by right; right; left | done].
  - assert (Hbad : amount form = None \/
              exists d, amount form = Some d /\
                ((dec_value d == 0)%Q \/
                 (dec_value d < dec_value (MIN_AMOUNT config))%Q \/
                 (dec_value (MAX_AMOUNT config) < dec_value d)%Q))
      by (by apply Hamount).
    split; [|by repeat split; try right].
    split; [intros _ | done].
    destruct Hbad as [Hnone | Hbad]; [by left | by right; left].
Qed.

Lemma mixer_rejects_invalid_form_witness :
  (dec_value (MAX_AMOUNT demo_config) < dec_value (mkDecimal 1000 0))%Q /\
  snd (mixer demo_env demo_config demo_invalid_form "session" "ip" "agent"
         initial_world) = Ok RenderMixer /\
  transactions (fst (mixer demo_env demo_config demo_invalid_form
                       "session" "ip" "agent" initial_world))
    = transactions initial_world.
Proof.
  assert (H : (dec_value (MAX_AMOUNT demo_config)
               < dec_value (mkDecimal 1000 0))%Q) by reflexivity.
  split; [exact H|].
  destruct (mixer_rejects_invalid_form demo_env demo_config demo_invalid_form
              "session" "ip" "agent" initial_world) as [Hiff Hsame].
  assert (Hr : snd (mixer demo_env demo_config demo_invalid_form
                      "session" "ip" "agent" initial_world) = Ok RenderMixer).
  { apply Hiff. right. left. exists (mkDecimal 1000 0).
    split; [reflexivity|]. right. right. exact H. }
  split; [exact Hr | exact (proj1 (Hsame Hr))].
Defined.

(** C7, as stated, fails: [create_mixing_transaction] itself checks
    nothing; called with an amount above the maximum and a blank address
    it persists the transaction. *)
Lemma create_mixing_transaction_does_not_validate :
  (dec_value (MAX_AMOUNT demo_config) < dec_value (mkDecimal 1000 0))%Q /\
  is_blank "" = true /\
  snd (create_mixing_transaction demo_env demo_config (mkDecimal 1000 0) ""
         "session" "ip" "agent" initial_world) = Ok 3%nat /\
  (exists t,
     transactions
       (fst (create_mixing_transaction demo_env demo_config (mkDecimal 1000 0) ""
               "session" "ip" "agent" initial_world)) !! 3%nat = Some t /\
     status t = PENDING /\
     (dec_value (input_amount t) == dec_value (mkDecimal 1000 0))%Q /\
     output_address t = "").
Proof.
  split; [reflexivity|]. split; [reflexivity|].
  split; [vm_compute; reflexivity|].
  eexists; split; [vm_compute; reflexivity | repeat split].
Qed.

(** C8, as amended.  The row a creation stores holds the amount asked
    for, the fee (the amount times the fee rate) and the output (the amount
    less the fee) as the decimal context computes them, each rounded to
    eight decimal places as its column stores it.  When the amount is
    written with at most eight decimal places, its product with the fee
    rate has at most eight as well, and neither the product nor the
    difference needs more than the 28 significant digits of the context,
    nothing is rounded: fee_amount = input_amount * fee_rate and
    output_amount = input_amount - fee_amount, so that output_amount +
    fee_amount = input_amount exactly.  No entry point, under any later
    configuration, alters the three amounts of a transaction. *)
Theorem amounts_fixed_at_creation (env : Env) (config : Config)
    (a : Decimal) (o s i u : string) (w : World) :
  (forall id t,
     transactions w !! id = None ->
     transactions (fst (create_mixing_transaction env config a o s i u w)) !! id
       = Some t ->
     (numeric_16_8 a = Some (input_amount t) /\
      numeric_16_8 (dec_mul a (FEE_PERCENT config)) = Some (fee_amount t) /\
      numeric_16_8 (dec_sub a (dec_mul a (FEE_PERCENT config)))
        = Some (output_amount t)) /\
     (-8 <= expo a ->
      -8 <= expo a + expo (FEE_PERCENT config) ->
      mul_exact a (FEE_PERCENT config) = true ->
      sub_exact a (dec_mul a (FEE_PERCENT config)) = true ->
      (dec_value (input_amount t) == dec_value a)%Q /\
      (dec_value (fee_amount t)
         == dec_value (input_amount t) * dec_value (FEE_PERCENT config))%Q /\
      (dec_value (output_amount t)
         == dec_value (input_amount t) - dec_value (fee_amount t))%Q /\
      (dec_value (output_amount t) + dec_value (fee_amount t)
         == dec_value (input_amount t))%Q)) /\
  (forall config' e w0 id t t',
     transactions w0 !! id = Some t ->
     transactions (run env config' e w0) !! id = Some t' ->
     input_amount t' = input_amount t /\
     fee_amount t' = fee_amount t /\
     output_amount t' = output_amount t).
Proof.
  split.
  - intros id t Hnone Ht.
    destruct (create_mixing_transaction_row env config a o s i u w id t Hnone Ht)
      as (Hstored & _).
    split; [exact Hstored|]. destruct Hstored as (Hin & Hf & Hout).
    intros Ha Hfee Hmul Hsub.
    apply numeric_16_8_keeps in Hin as [_ Hin]; [|done].
    apply numeric_16_8_keeps in Hf as [_ Hf];
      [|rewrite (dec_mul_exact _ _ Hmul); simpl; lia].
    apply numeric_16_8_keeps in Hout as [_ Hout];
      [|rewrite (dec_sub_exact _ _ Hsub), (dec_mul_exact _ _ Hmul); simpl; lia].
    rewrite (dec_mul_value _ _ Hmul) in Hf.
    rewrite (dec_sub_value _ _ Hsub), (dec_mul_value _ _ Hmul) in Hout.
    rewrite Hin, Hf, Hout. repeat split; try reflexivity; ring.
  - intros config' e w0 id t t' Ht Ht'.
    destruct (run_rows_kept env config' e w0 id t t' Ht Ht') as (? & ? & ? & _).
    done.
Qed.

Lemma amounts_fixed_at_creation_witness :
  -8 <= expo (mkDecimal 10 (-1)) /\
  -8 <= expo (mkDecimal 10 (-1)) + expo (FEE_PERCENT demo_config) /\
  exists t, transactions demo_created !! 3%nat = Some t /\
    fee_amount t = mkDecimal 3000000 (-8) /\
    output_amount t = mkDecimal 97000000 (-8) /\
    (dec_value (output_amount t) + dec_value (fee_amount t)
       == dec_value (input_amount t))%Q.
Proof.
  assert (Ha : -8 <= expo (mkDecimal 10 (-1))) by (simpl; lia).
  assert (Hf : -8 <= expo (mkDecimal 10 (-1)) + expo (FEE_PERCENT demo_config))
    by (simpl; lia).
  split; [exact Ha|]. split; [exact Hf|].
  destruct (transactions demo_created !! 3%nat) as [t|] eqn:Ht;
    [|vm_compute in Ht; discriminate].
  exists t. split; [reflexivity|].
  assert (Hnone : transactions initial_world !! 3%nat = None) by reflexivity.
  destruct (proj2 (proj1 (amounts_fixed_at_creation demo_env demo_config
                            (mkDecimal 10 (-1)) "destination" "session" "ip"
                            "agent" initial_world) 3%nat t Hnone Ht)
              Ha Hf eq_refl eq_refl)
    as (_ & _ & _ & Hsum).
  split; [|split; [|exact Hsum]];
    vm_compute in Ht; injection Ht as <-; reflexivity.
Defined.

(** C8, as stated, fails: 0.00100050 passes the bounds of the form and
    its fee and output are computed without loss, 0.0000300150 and
    0.0009704850; stored, they are 0.00003002 and 0.00097049, so that the
    fee of the row is not the amount times the rate and output and fee add
    up to 0.00100051. *)
Lemma stored_amounts_do_not_add_up :
  validate_amount_field demo_config (Some demo_fine_amount) = true /\
  mul_exact demo_fine_amount (FEE_PERCENT demo_config) = true /\
  sub_exact demo_fine_amount
    (dec_mul demo_fine_amount (FEE_PERCENT demo_config)) = true /\
  exists t, transactions demo_created_fine !! 3%nat = Some t /\
    input_amount t = mkDecimal 100050 (-8) /\
    fee_amount t = mkDecimal 3002 (-8) /\
    output_amount t = mkDecimal 97049 (-8) /\
    ~ (dec_value (fee_amount t)
         == dec_value (input_amount t) * dec_value (FEE_PERCENT demo_config))%Q /\
    ~ (dec_value (output_amount t) + dec_value (fee_amount t)
         == dec_value (input_amount t))%Q.
Proof.
  split; [reflexivity|]. split; [reflexivity|]. split; [reflexivity|].
  eexists. split; [vm_compute; reflexivity|].
  split; [reflexivity|]. split; [reflexivity|]. split; [reflexivity|].
  split; intros H; vm_compute in H; discriminate.
Qed.

(** C10.  When the database answers the three interactions of the cleanup,
    the task returns its count and every transaction created more than 30
    days before the task's clock reading is gone, whatever its status and
    whether or not its payout was sent; the other transactions are left as
    they were. *)
Theorem cleanup_purges_by_age_alone (env : Env) (w : World) :
  fault env (S (tick w)) = None ->
  fault env (S (S (tick w))) = None ->
  fault env (S (S (S (tick w)))) = None ->
  (exists n, snd (cleanup_old_transactions env w) = Ok (CleanedUp n)) /\
  (forall id t,
     transactions w !! id = Some t ->
     transactions (fst (cleanup_old_transactions env w)) !! id =
       if created_at t <? utc_clock env (tick w) - timedelta_days 30
       then None else Some t).
Proof.
  intros H1 H2 H3.
  pose proof (cleanup_old_transactions_run env w H1 H2 H3) as Hwp.
  unfold wp in Hwp.
  destruct (cleanup_old_transactions env w) as [w' [r|e]]; [|done].
  destruct Hwp as [[n ->] Hrows]. split; [by exists n | exact Hrows].
Qed.

Lemma cleanup_purges_by_age_alone_witness :
  fault (a_month_later demo_env) (S (tick demo_completed)) = None /\
  fault (a_month_later demo_env) (S (S (tick demo_completed))) = None /\
  fault (a_month_later demo_env) (S (S (S (tick demo_completed)))) = None /\
  exists t, transactions demo_completed !! 3%nat = Some t /\
    status t = COMPLETED /\ output_txid t = None /\
    transactions
      (fst (cleanup_old_transactions (a_month_later demo_env) demo_completed))
      !! 3%nat = None.
Proof.
  assert (H1 : fault (a_month_later demo_env) (S (tick demo_completed)) = None)
    by reflexivity.
  assert (H2 : fault (a_month_later demo_env) (S (S (tick demo_completed))) = None)
    by reflexivity.
  assert (H3 : fault (a_month_later demo_env) (S (S (S (tick demo_completed)))) = None)
    by reflexivity.
  split; [exact H1|]. split; [exact H2|]. split; [exact H3|].
  destruct (transactions demo_completed !! 3%nat) as [t|] eqn:Ht;
    [|vm_compute in Ht; discriminate].
  exists t. split; [reflexivity|].
  assert (Hfields : status t = COMPLETED /\ output_txid t = None /\
                    (created_at t <? utc_clock (a_month_later demo_env)
                                       (tick demo_completed) - timedelta_days 30)
                    = true).
  { vm_compute in Ht. injection Ht as <-. repeat split. }
  destruct Hfields as (Hs & Ho & Hold).
  split; [exact Hs|]. split; [exact Ho|].
  rewrite (proj2 (cleanup_purges_by_age_alone (a_month_later demo_env)
                    demo_completed H1 H2 H3) 3%nat t Ht).
  by rewrite Hold.
Defined.

(** * The patterns of security.py *)

Local Open Scope string_scope.

Lemma string_app_cons c (s t : string) :
  String.append (String c s) t = String c (String.append s t).
Proof. reflexivity. Qed.

Lemma string_app_nil_l (t : string) : String.append "" t = t.
Proof. reflexivity. Qed.

Lemma string_app_nil_r (s : string) : String.append s "" = s.
Proof.
  induction s as [|c s IH]; [done|]. by rewrite string_app_cons, IH.
Qed.

Lemma string_app_assoc (s1 s2 s3 : string) :
  String.append (String.append s1 s2) s3 = String.append s1 (String.append s2 s3).
Proof.
  induction s1 as [|c s1 IH]; [done|]. by rewrite !string_app_cons, IH.
Qed.

Lemma string_length_app (s1 s2 : string) :
  String.length (String.append s1 s2) = (String.length s1 + String.length s2)%nat.
Proof.
  induction s1 as [|c s1 IH]; [done|]. rewrite string_app_cons. simpl.
  by rewrite IH.
Qed.

Lemma all_chars_app p (s1 s2 : string) :
  all_chars p (String.append s1 s2) = all_chars p s1 && all_chars p s2.
Proof.
  induction s1 as [|c s1 IH]; [done|]. rewrite string_app_cons. simpl.
  by rewrite IH, andb_assoc.
Qed.

Lemma last_char_app prev (s1 s2 : string) :
  last_char prev (String.append s1 s2) = last_char (last_char prev s1) s2.
Proof.
  revert prev. induction s1 as [|c s1 IH]; intros prev; [done|].
  rewrite string_app_cons. simpl. apply IH.
Qed.

(** Splitting a string after its first [n] characters. *)
Lemma string_split_at (n : nat) (s : string) :
  (n <= String.length s)%nat ->
  exists s1 s2, s = String.append s1 s2 /\ String.length s1 = n.
Proof.
  revert s. induction n as [|n IH]; intros s Hn.
  - by exists "", s.
  - destruct s as [|c s]; simpl in Hn; [lia|].
    destruct (IH s ltac:(lia)) as (s1 & s2 & -> & Hlen).
    exists (String c s1), s2. rewrite string_app_cons. simpl. by rewrite Hlen.
Qed.

Lemma matches_Class p prev s k :
  matches (Class p) prev s k = true <->
  exists c s', s = String c s' /\ p c = true /\ k (Some c) s' = true.
Proof.
  simpl. destruct s as [|c s']; [split; [done | by intros (? & ? & ? & _)]|].
  destruct (p c) eqn:Hp; split.
  - intros Hk. by exists c, s'.
  - intros (c' & s'' & [= <- <-] & _ & Hk). done.
  - done.
  - intros (c' & s'' & [= <- <-] & Hp' & _). congruence.
Qed.

Lemma matches_Alt r1 r2 prev s k :
  matches (Alt r1 r2) prev s k = true <->
  matches r1 prev s k = true \/ matches r2 prev s k = true.
Proof. simpl. destruct (matches r1 prev s k); split; auto. by intros [|]. Qed.

Lemma matches_times n p prev s k :
  matches (times n (Class p)) prev s k = true <->
  exists s1 s2, s = String.append s1 s2 /\ String.length s1 = n /\
    all_chars p s1 = true /\ k (last_char prev s1) s2 = true.
Proof.
  revert prev s. induction n as [|n IH]; intros prev s.
  - simpl. split.
    + intros Hk. by exists "", s.
    + intros (s1 & s2 & -> & Hlen & _ & Hk). by destruct s1.
  - change (matches (times (S n) (Class p)) prev s k)
      with (matches (Class p) prev s
              (fun prev' s' => matches (times n (Class p)) prev' s' k)).
    rewrite matches_Class. split.
    + intros (c & s' & -> & Hp & Hrest).
      apply IH in Hrest as (s1 & s2 & -> & Hlen & Hall & Hk).
      exists (String c s1), s2. rewrite string_app_cons. simpl.
      rewrite Hp, Hall, Hlen. done.
    + intros (s1 & s2 & -> & Hlen & Hall & Hk).
      destruct s1 as [|c s1]; [done|]. rewrite string_app_cons. simpl in *.
      apply andb_true_iff in Hall as [Hp Hall].
      exists c, (String.append s1 s2). split; [done|]. split; [done|].
      apply IH. exists s1, s2. repeat split; [lia | done | done].
Qed.

Lemma matches_upto n p prev s k :
  matches (upto n (Class p)) prev s k = true <->
  exists s1 s2, s = String.append s1 s2 /\ (String.length s1 <= n)%nat /\
    all_chars p s1 = true /\ k (last_char prev s1) s2 = true.
Proof.
  revert prev s. induction n as [|n IH]; intros prev s.
  - simpl. split.
    + intros Hk. exists "", s. by repeat split.
    + intros (s1 & s2 & -> & Hlen & _ & Hk). destruct s1; [done | simpl in Hlen; lia].
  - change (matches (upto (S n) (Class p)) prev s k)
      with (matches (Alt Empty (Seq (Class p) (upto n (Class p)))) prev s k).
    rewrite matches_Alt.
    change (matches (Seq (Class p) (upto n (Class p))) prev s k)
      with (matches (Class p) prev s
              (fun prev' s' => matches (upto n (Class p)) prev' s' k)).
    rewrite matches_Class. split.
    + intros [Hk | (c & s' & -> & Hp & Hrest)].
      * exists "", s. simpl in *. repeat split; [lia | done].
      * apply IH in Hrest as (s1 & s2 & -> & Hlen & Hall & Hk).
        exists (String c s1), s2. rewrite string_app_cons. simpl.
        rewrite Hp, Hall. repeat split; [lia | done].
    + intros (s1 & s2 & -> & Hlen & Hall & Hk).
      destruct s1 as [|c s1]; [by left|]. right. rewrite string_app_cons.
      simpl in *. apply andb_true_iff in Hall as [Hp Hall].
      exists c, (String.append s1 s2). split; [done|]. split; [done|].
      apply IH. exists s1, s2. repeat split; [lia | done | done].
Qed.

Lemma matches_Repeat lo hi p prev s k :
  (lo <= hi)%nat ->
  matches (Repeat lo hi (Class p)) prev s k = true <->
  exists s1 s2, s = String.append s1 s2 /\
    (lo <= String.length s1 <= hi)%nat /\
    all_chars p s1 = true /\ k (last_char prev s1) s2 = true.
Proof.
  intros Hle. unfold Repeat.
  change (matches (Seq (times lo (Class p)) (upto (hi - lo) (Class p))) prev s k)
    with (matches (times lo (Class p)) prev s
            (fun prev' s' => matches (upto (hi - lo) (Class p)) prev' s' k)).
  rewrite matches_times. split.
  - intros (s1 & s2 & -> & Hlen & Hall & Hrest).
    apply matches_upto in Hrest as (s3 & s4 & -> & Hlen' & Hall' & Hk).
    exists (String.append s1 s3), s4.
    rewrite string_app_assoc, string_length_app, all_chars_app, Hall, Hall',
      last_char_app.
    repeat split; [lia | lia | done].
  - intros (s12 & s4 & -> & Hlen & Hall & Hk).
    destruct (string_split_at lo s12 ltac:(lia)) as (s1 & s3 & -> & Hlen1).
    rewrite string_length_app in Hlen. rewrite all_chars_app in Hall.
    apply andb_true_iff in Hall as [Hall1 Hall3]. rewrite last_char_app in Hk.
    exists s1, (String.append s3 s4). rewrite string_app_assoc.
    repeat split; [done | done |].
    apply matches_upto. exists s3, s4. repeat split; [lia | done | done].
Qed.

(** [$] as the last item of a pattern. *)
Lemma matches_Eol prev s :
  matches Eol prev s (fun _ _ => true) = true <-> s = "" \/ s = newline.
Proof.
  simpl. destruct s as [|c [|c' s']].
  - split; auto.
  - destruct (Nat.eqb_spec (code c) 10) as [Hc|Hc]; split.
    + intros _. right. unfold newline. f_equal.
      unfold code in Hc. rewrite <- (Ascii.ascii_nat_embedding c). by rewrite Hc.
    + done.
    + done.
    + intros [|[= ->]]; [done|]. by vm_compute in Hc.
  - split; [done | by intros [|]].
Qed.

Lemma re_match_legacy s :
  re_match legacy_pattern s = true <->
  exists body tail, s = String.append body tail /\
    legacy_shape body = true /\ (tail = "" \/ tail = newline).
Proof.
  unfold re_match, legacy_pattern.
  change (matches _ None s _)
    with (matches (Class one_or_three) None s (fun prev' s' =>
            matches (Repeat 25 34 (Class base58)) prev' s' (fun prev'' s'' =>
              matches Eol prev'' s'' (fun _ _ => true)))).
  rewrite matches_Class. split.
  - intros (c & s' & -> & Hc & Hrest).
    apply matches_Repeat in Hrest as (s1 & s2 & -> & Hlen & Hall & Hend); [|lia].
    apply matches_Eol in Hend.
    exists (String c s1), s2. rewrite string_app_cons. split; [done|].
    split; [|done]. unfold legacy_shape. rewrite Hc, Hall.
    replace (25 <=? String.length s1)%nat with true
      by (symmetry; apply Nat.leb_le; lia).
    replace (String.length s1 <=? 34)%nat with true
      by (symmetry; apply Nat.leb_le; lia).
    done.
  - intros (body & tail & -> & Hshape & Hend).
    destruct body as [|c s1]; [done|]. unfold legacy_shape in Hshape.
    apply andb_true_iff in Hshape as [Hshape Hall].
    apply andb_true_iff in Hshape as [Hshape Hhi].
    apply andb_true_iff in Hshape as [Hc Hlo].
    apply Nat.leb_le in Hlo, Hhi.
    exists c, (String.append s1 tail). rewrite string_app_cons.
    split; [done|]. split; [done|].
    apply matches_Repeat; [lia|]. exists s1, tail.
    repeat split; [lia | lia | done | by apply matches_Eol].
Qed.

Lemma re_match_testnet s :
  re_match testnet_pattern s = true <->
  exists body tail, s = String.append body tail /\
    testnet_shape body = true /\ (tail = "" \/ tail = newline).
Proof.
  unfold re_match, testnet_pattern.
  change (matches _ None s _)
    with (matches (Class two_m_n) None s (fun prev' s' =>
            matches (Repeat 33 33 (Class base58)) prev' s' (fun prev'' s'' =>
              matches Eol prev'' s'' (fun _ _ => true)))).
  rewrite matches_Class. split.
  - intros (c & s' & -> & Hc & Hrest).
    apply matches_Repeat in Hrest as (s1 & s2 & -> & Hlen & Hall & Hend); [|lia].
    apply matches_Eol in Hend.
    exists (String c s1), s2. rewrite string_app_cons. split; [done|].
    split; [|done]. unfold testnet_shape. rewrite Hc, Hall.
    replace (String.length s1 =? 33)%nat with true
      by (symmetry; apply Nat.eqb_eq; lia).
    done.
  - intros (body & tail & -> & Hshape & Hend).
    destruct body as [|c s1]; [done|]. unfold testnet_shape in Hshape.
    apply andb_true_iff in Hshape as [Hshape Hall].
    apply andb_true_iff in Hshape as [Hc Hlen].
    apply Nat.eqb_eq in Hlen.
    exists c, (String.append s1 tail). rewrite string_app_cons.
    split; [done|]. split; [done|].
    apply matches_Repeat; [lia|]. exists s1, tail.
    repeat split; [lia | lia | done | by apply matches_Eol].
Qed.

Lemma matches_Chr c prev s k :
  matches (Chr c) prev s k = true <->
  exists s', s = String c s' /\ k (Some c) s' = true.
Proof.
  unfold Chr. rewrite matches_Class. split.
  - intros (c' & s' & -> & Hc & Hk). apply Ascii.eqb_eq in Hc as <-. by exists s'.
  - intros (s' & -> & Hk). exists c, s'. by rewrite Ascii.eqb_refl.
Qed.

Lemma matches_Seq_Lit word r prev s k :
  matches (Seq (Lit word) r) prev s k = true <->
  exists s', s = String.append word s' /\
    matches r (last_char prev word) s' k = true.
Proof.
  revert prev s. induction word as [|c word IH]; intros prev s.
  - simpl. split; [intros H; by exists s | by intros (s' & -> & H)].
  - change (matches (Seq (Lit (String c word)) r) prev s k)
      with (matches (Chr c) prev s (fun prev' s' =>
              matches (Seq (Lit word) r) prev' s' k)).
    rewrite matches_Chr. split.
    + intros (s' & -> & Hrest). apply IH in Hrest as (s'' & -> & Hr).
      exists s''. by rewrite string_app_cons.
    + intros (s' & -> & Hr). rewrite string_app_cons.
      eexists. split; [reflexivity|]. apply IH. by exists s'.
Qed.

Lemma re_match_bech32 s :
  re_match bech32_pattern s = true <->
  exists body tail, s = String.append body tail /\
    bech32_shape body = true /\ (tail = "" \/ tail = newline).
Proof.
  unfold re_match, bech32_pattern.
  change (matches _ None s _)
    with (matches (Seq (Lit "bc1")
                     (Seq (Repeat 39 59 (Class lower_or_digit)) Eol))
            None s (fun _ _ => true)).
  rewrite matches_Seq_Lit. split.
  - intros (s' & -> & H3).
    change (matches (Seq (Repeat 39 59 (Class lower_or_digit)) Eol)
              (last_char None "bc1") s' (fun _ _ => true))
      with (matches (Repeat 39 59 (Class lower_or_digit))
              (last_char None "bc1") s' (fun p4 s4 =>
                 matches Eol p4 s4 (fun _ _ => true))) in H3.
    apply matches_Repeat in H3 as (rest & tail & -> & Hlen & Hall & Hend); [|lia].
    apply matches_Eol in Hend.
    exists (String.append "bc1" rest), tail.
    rewrite string_app_assoc. split; [done|]. split; [|done].
    rewrite !string_app_cons, string_app_nil_l. unfold bech32_shape.
    rewrite String.eqb_refl, Hall.
    replace (39 <=? String.length rest)%nat with true
      by (symmetry; apply Nat.leb_le; lia).
    replace (String.length rest <=? 59)%nat with true
      by (symmetry; apply Nat.leb_le; lia).
    done.
  - intros (body & tail & -> & Hshape & Hend).
    destruct body as [|b [|c [|one rest]]]; try done.
    unfold bech32_shape in Hshape.
    apply andb_true_iff in Hshape as [Hshape Hall].
    apply andb_true_iff in Hshape as [Hshape Hhi].
    apply andb_true_iff in Hshape as [Hprefix Hlo].
    apply String.eqb_eq in Hprefix. injection Hprefix as -> -> ->.
    apply Nat.leb_le in Hlo, Hhi.
    exists (String.append rest tail). split.
    { by rewrite !string_app_cons, string_app_nil_l. }
    change (matches (Seq (Repeat 39 59 (Class lower_or_digit)) Eol)
              (last_char None "bc1") (String.append rest tail) (fun _ _ => true))
      with (matches (Repeat 39 59 (Class lower_or_digit))
              (last_char None "bc1") (String.append rest tail) (fun p4 s4 =>
                 matches Eol p4 s4 (fun _ _ => true))).
    apply matches_Repeat; [lia|]. exists rest, tail.
    repeat split; [lia | lia | done | by apply matches_Eol].
Qed.

(** X28.  [SecurityManager.validate_bitcoin_address] accepts exactly the
    strings of one of three shapes (1 or 3 and 25 to 34 base-58
    characters; bc1 and 39 to 59 lower-case letters or digits; 2, m or n
    and 33 base-58 characters), and the same strings followed by one
    newline: [$] also matches before a newline that ends the subject. *)
Theorem security_validate_bitcoin_address_accepts (s : string) :
  security_validate_bitcoin_address s = true <->
  exists body,
    (s = body \/ s = String.append body newline) /\ address_shape body = true.
Proof.
  unfold security_validate_bitcoin_address, address_shape. simpl.
  rewrite orb_false_r, !orb_true_iff, re_match_legacy, re_match_bech32,
    re_match_testnet.
  split.
  - intros [H | [H | H]]; destruct H as (body & tail & -> & Hshape & Hend);
      exists body; rewrite Hshape, ?orb_true_r;
      (split; [|done]);
      (destruct Hend as [-> | ->]; [left; by rewrite string_app_nil_r | by right]).
  - intros (body & Hs & Hshape).
    assert (Hend : exists tail, s = String.append body tail /\
                     (tail = "" \/ tail = newline)).
    { destruct Hs as [-> | ->];
        [exists ""; rewrite string_app_nil_r; auto | exists newline; auto]. }
    destruct Hend as (tail & -> & Hend).
    apply orb_true_iff in Hshape as [Hshape | Hshape];
      [apply orb_true_iff in Hshape as [Hshape | Hshape]|].
    + left. by exists body, tail.
    + right. left. by exists body, tail.
    + right. right. by exists body, tail.
Qed.

(** A legacy address followed by a newline passes. *)
Example address_with_newline_passes :
  security_validate_bitcoin_address
    (String.append "1BvBMSEYstWetqTFn5Au4m4GFg7xJaNVN2" newline) = true.
Proof. vm_compute. reflexivity. Qed.

(** ** Searching *)

Lemma re_search_from_spec r prev s :
  re_search_from r prev s = true <->
  exists pre rest, s = String.append pre rest /\
    matches r (last_char prev pre) rest (fun _ _ => true) = true.
Proof.
  revert prev. induction s as [|c s IH]; intros prev; simpl.
  - destruct (matches r prev "" (fun _ _ => true)) eqn:Hm; split.
    + intros _. by exists "", "".
    + done.
    + done.
    + intros (pre & rest & Hs & Hr). destruct pre; [|done].
      rewrite string_app_nil_l in Hs. subst rest. simpl in Hr. congruence.
  - destruct (matches r prev (String c s) (fun _ _ => true)) eqn:Hm; split.
    + intros _. by exists "", (String c s).
    + done.
    + intros Hs. apply IH in Hs as (pre & rest & -> & Hr).
      exists (String c pre), rest. by rewrite string_app_cons.
    + intros (pre & rest & Hs & Hr). destruct pre as [|c' pre].
      * rewrite string_app_nil_l in Hs. subst rest. simpl in Hr. congruence.
      * rewrite string_app_cons in Hs. injection Hs as <- ->.
        apply IH. by exists pre, rest.
Qed.

Lemma lower_app (s1 s2 : string) :
  lower (String.append s1 s2) = String.append (lower s1) (lower s2).
Proof.
  induction s1 as [|c s1 IH]; [done|].
  rewrite string_app_cons. simpl. by rewrite IH, string_app_cons.
Qed.

Lemma char_of_code c n : code c = n -> c = Ascii.ascii_of_nat n.
Proof. intros <-. unfold code. by rewrite Ascii.ascii_nat_embedding. Qed.

(** A character the comment and quote patterns look for is found
    wherever it stands. *)
Lemma punctuation_is_found c prev rest :
  is_sql_punctuation c = true ->
  matches comment_pattern prev (String c rest) (fun _ _ => true) = true \/
  matches quote_pattern prev (String c rest) (fun _ _ => true) = true.
Proof.
  unfold is_sql_punctuation. rewrite !orb_true_iff, !Nat.eqb_eq.
  intros [[[[Hc | Hc] | Hc] | Hc] | Hc]; apply char_of_code in Hc as ->;
    vm_compute; auto.
Qed.

Lemma punctuation_is_not_upper c :
  is_sql_punctuation c = true -> lower_char c = c.
Proof.
  unfold is_sql_punctuation. rewrite !orb_true_iff, !Nat.eqb_eq.
  intros [[[[Hc | Hc] | Hc] | Hc] | Hc]; apply char_of_code in Hc as ->;
    reflexivity.
Qed.

Lemma has_char_split p s :
  has_char p s = true ->
  exists pre c rest, s = String.append pre (String c rest) /\ p c = true.
Proof.
  induction s as [|c s IH]; simpl; [done|].
  destruct (p c) eqn:Hp.
  - intros _. by exists "", c, s.
  - intros Hs. destruct (IH Hs) as (pre & c' & rest & -> & Hc).
    exists (String c pre), c', rest. by rewrite string_app_cons.
Qed.

Lemma check_sql_injection_false data :
  re_search comment_pattern (lower data) = true \/
  re_search quote_pattern (lower data) = true ->
  check_sql_injection data = false.
Proof.
  intros H. unfold check_sql_injection, suspicious_patterns. simpl.
  apply negb_false_iff. rewrite !orb_true_iff. tauto.
Qed.

(** X29.  [check_sql_injection] refuses every string that holds a
    semicolon, an asterisk, an apostrophe, a double quote or a backquote
    anywhere, and every string that holds two hyphens in a row. *)
Theorem check_sql_injection_refuses_punctuation (data : string) :
  has_char is_sql_punctuation data = true \/
  (exists pre post, data = String.append pre (String.append "--" post)) ->
  check_sql_injection data = false.
Proof.
  intros [Hp | (pre & post & ->)]; apply check_sql_injection_false.
  - destruct (has_char_split _ _ Hp) as (pre & c & rest & -> & Hc).
    rewrite lower_app. simpl. rewrite (punctuation_is_not_upper c Hc).
    destruct (punctuation_is_found c (last_char None (lower pre)) (lower rest) Hc)
      as [Hm | Hm]; [left | right];
      apply re_search_from_spec; by exists (lower pre), (String c (lower rest)).
  - left. rewrite !lower_app. apply re_search_from_spec.
    exists (lower pre), (String.append (lower "--") (lower post)).
    split; [done|]. by vm_compute.
Qed.

Lemma check_sql_injection_refuses_punctuation_witness :
  has_char is_sql_punctuation "it's" = true /\
  check_sql_injection "it's" = false.
Proof.
  assert (H : has_char is_sql_punctuation "it's" = true) by reflexivity.
  split; [exact H|].
  exact (check_sql_injection_refuses_punctuation "it's" (or_introl H)).
Defined.

(** ** Accepted addresses against the suspicious patterns *)

Ltac each_char c := destruct c as [[] [] [] [] [] [] [] []].

Lemma is_word_lower_char c : is_word c = true -> is_word (lower_char c) = true.
Proof. each_char c; vm_compute; done. Qed.

Lemma base58_is_word c : base58 c = true -> is_word c = true.
Proof. each_char c; vm_compute; done. Qed.

Lemma lower_or_digit_is_word c : lower_or_digit c = true -> is_word c = true.
Proof. each_char c; vm_compute; done. Qed.

Lemma one_or_three_is_word c : one_or_three c = true -> is_word c = true.
Proof. each_char c; vm_compute; done. Qed.

Lemma two_m_n_is_word c : two_m_n c = true -> is_word c = true.
Proof. each_char c; vm_compute; done. Qed.

Lemma all_chars_impl (p q : Ascii.ascii -> bool) s :
  (forall c, p c = true -> q c = true) ->
  all_chars p s = true -> all_chars q s = true.
Proof.
  intros Hpq. induction s as [|c s IH]; simpl; [done|].
  rewrite !andb_true_iff. intros [Hc Hs]. auto.
Qed.

Lemma all_chars_lower s :
  all_chars is_word s = true -> all_chars is_word (lower s) = true.
Proof.
  induction s as [|c s IH]; simpl; [done|].
  rewrite !andb_true_iff. intros [Hc Hs]. split; [by apply is_word_lower_char | auto].
Qed.

Lemma length_lower s : String.length (lower s) = String.length s.
Proof. induction s as [|c s IH]; simpl; [done | by rewrite IH]. Qed.

(** An accepted address, its end apart, is made of at least 26 word
    characters. *)
Lemma address_shape_word body :
  address_shape body = true ->
  all_chars is_word body = true /\ (26 <= String.length body)%nat.
Proof.
  unfold address_shape. rewrite !orb_true_iff. intros [[H | H] | H].
  - destruct body as [|c rest]; [done|]. unfold legacy_shape in H.
    rewrite !andb_true_iff, !Nat.leb_le in H. destruct H as [[[Hc Hlo] Hhi] Hall].
    simpl. rewrite (one_or_three_is_word c Hc). simpl.
    split; [exact (all_chars_impl _ _ _ base58_is_word Hall) | lia].
  - destruct body as [|b [|c [|one rest]]]; try done. unfold bech32_shape in H.
    rewrite !andb_true_iff, !Nat.leb_le in H. destruct H as [[[Hp Hlo] Hhi] Hall].
    apply String.eqb_eq in Hp. injection Hp as -> -> ->.
    split; [|simpl; lia].
    change (all_chars is_word rest = true).
    exact (all_chars_impl _ _ _ lower_or_digit_is_word Hall).
  - destruct body as [|c rest]; [done|]. unfold testnet_shape in H.
    rewrite !andb_true_iff, Nat.eqb_eq in H. destruct H as [[Hc Hlen] Hall].
    simpl. rewrite (two_m_n_is_word c Hc). simpl.
    split; [exact (all_chars_impl _ _ _ base58_is_word Hall) | lia].
Qed.

(** The comment and quote patterns start with a character of their own. *)
Lemma punctuation_patterns_need_punctuation c prev rest :
  is_word_or_newline c = true ->
  matches comment_pattern prev (String c rest) (fun _ _ => true) = false /\
  matches quote_pattern prev (String c rest) (fun _ _ => true) = false.
Proof. each_char c; vm_compute; done. Qed.

Lemma re_search_from_cons r prev c s :
  re_search_from r prev (String c s)
  = if matches r prev (String c s) (fun _ _ => true) then true
    else re_search_from r (Some c) s.
Proof. reflexivity. Qed.

Lemma re_search_from_nil r prev :
  re_search_from r prev "" = matches r prev "" (fun _ _ => true).
Proof. simpl. by destruct (matches r prev "" _). Qed.

Lemma search_punctuation_patterns prev s :
  all_chars is_word_or_newline s = true ->
  re_search_from comment_pattern prev s = false /\
  re_search_from quote_pattern prev s = false.
Proof.
  revert prev. induction s as [|c s IH]; intros prev Hall.
  - by rewrite !re_search_from_nil.
  - simpl in Hall. apply andb_true_iff in Hall as [Hc Hs].
    rewrite !re_search_from_cons.
    destruct (punctuation_patterns_need_punctuation c prev s Hc) as [-> ->].
    by apply IH.
Qed.

(** Matching goes forward: what a pattern hands to its continuation is
    what it was given, or less. *)
Lemma matches_keeps_all (p : Ascii.ascii -> bool) r prev s k :
  matches r prev s k = true -> all_chars p s = true ->
  exists prev' s', k prev' s' = true /\ all_chars p s' = true.
Proof.
  revert prev s k. induction r as [|q|r1 IH1 r2 IH2|r1 IH1 r2 IH2|r1 IH1| | |];
    intros prev s k Hm Hall.
  - by exists prev, s.
  - simpl in Hm. destruct s as [|c s']; [done|]. destruct (q c); [|done].
    simpl in Hall. apply andb_true_iff in Hall as [_ Hall]. by exists (Some c), s'.
  - simpl in Hm. apply IH1 in Hm as (prev1 & s1 & Hm & Hall1); [|done].
    by apply IH2 in Hm.
  - simpl in Hm. destruct (matches r1 prev s k) eqn:H1; [by apply IH1 in H1|].
    by apply IH2 in Hm.
  - simpl in Hm. remember (String.length s) as fuel eqn:Hfuel. clear Hfuel.
    revert prev s Hm Hall.
    induction fuel as [|fuel IHf]; intros prev s Hm Hall.
    + destruct (k prev s) eqn:Hk; [by exists prev, s | done].
    + destruct (k prev s) eqn:Hk; [by exists prev, s|].
      apply IH1 in Hm as (prev1 & s1 & Hm & Hall1); [|done].
      destruct (_ <? _)%nat; [|done]. by apply IHf in Hm.
  - simpl in Hm. destruct prev; [done|]. by exists None, s.
  - simpl in Hm. destruct s as [|c [|c' s']]; [by exists prev, "" | | done].
    destruct (_ =? _)%nat; [|done]. by exists prev, (String c "").
  - simpl in Hm. destruct (xorb _ _); [|done]. by exists prev, s.
Qed.

Lemma equals_sign_is_not_a_word_character c prev rest r k :
  is_word_or_newline c = true ->
  matches (Seq (LitI "=") r) prev (String c rest) k = false.
Proof. each_char c; vm_compute; done. Qed.

Lemma tautology_needs_equals_sign prev s :
  all_chars is_word_or_newline s = true ->
  matches tautology_pattern prev s (fun _ _ => true) = false.
Proof.
  intros Hall. destruct (matches tautology_pattern prev s _) eqn:Hm; [|done].
  exfalso. unfold tautology_pattern in Hm.
  change (matches (Seq ?a ?b) ?p ?x ?k)
    with (matches a p x (fun p' x' => matches b p' x' k)) in Hm.
  apply (matches_keeps_all is_word_or_newline) in Hm as (p1 & s1 & Hm & Hall1);
    [|done].
  change (matches (Seq ?a ?b) ?p ?x ?k)
    with (matches a p x (fun p' x' => matches b p' x' k)) in Hm.
  apply (matches_keeps_all is_word_or_newline) in Hm as (p2 & s2 & Hm & Hall2);
    [|done].
  change (matches (Seq ?a ?b) ?p ?x ?k)
    with (matches a p x (fun p' x' => matches b p' x' k)) in Hm.
  apply (matches_keeps_all is_word_or_newline) in Hm as (p3 & s3 & Hm & Hall3);
    [|done].
  change (matches (Seq ?a ?b) ?p ?x ?k)
    with (matches a p x (fun p' x' => matches b p' x' k)) in Hm.
  apply (matches_keeps_all is_word_or_newline) in Hm as (p4 & s4 & Hm & Hall4);
    [|done].
  change (matches (Seq ?a ?b) ?p ?x ?k)
    with (matches a p x (fun p' x' => matches b p' x' k)) in Hm.
  apply (matches_keeps_all is_word_or_newline) in Hm as (p5 & s5 & Hm & Hall5);
    [|done].
  change (matches (Seq ?a ?b) ?p ?x ?k)
    with (matches a p x (fun p' x' => matches b p' x' k)) in Hm.
  apply (matches_keeps_all is_word_or_newline) in Hm as (p6 & s6 & Hm & Hall6);
    [|done].
  destruct s6 as [|c rest]; [by vm_compute in Hm|].
  simpl in Hall6. apply andb_true_iff in Hall6 as [Hc _].
  by rewrite (equals_sign_is_not_a_word_character c p6 rest _ _ Hc) in Hm.
Qed.

Lemma search_tautology prev s :
  all_chars is_word_or_newline s = true ->
  re_search_from tautology_pattern prev s = false.
Proof.
  revert prev. induction s as [|c s IH]; intros prev Hall.
  - by rewrite re_search_from_nil, (tautology_needs_equals_sign prev "").
  - rewrite re_search_from_cons, (tautology_needs_equals_sign prev (String c s) Hall).
    simpl in Hall. apply andb_true_iff in Hall as [_ Hall]. by apply IH.
Qed.

(** A keyword of [keyword_pattern] is not found where a word character
    follows as many word characters as the keyword has. *)
Lemma keyword_inside_a_word word u c rest prev :
  word <> "" -> String.length u = String.length word ->
  all_chars is_word u = true -> is_word c = true ->
  matches (LitI word) prev (String.append u (String c rest)) then_boundary = false.
Proof.
  revert u prev. induction word as [|x word IH]; intros u prev Hne Hlen Hall Hc;
    [done|].
  destruct u as [|y u]; [done|]. simpl in Hlen, Hall.
  apply andb_true_iff in Hall as [Hy Hall].
  rewrite string_app_cons.
  change (matches (LitI (String x word)) prev (String y ?s) ?k)
    with (if Ascii.eqb (lower_char y) (lower_char x)
          then matches (LitI word) (Some y) s k else false).
  destruct (Ascii.eqb _ _); [|done].
  destruct word as [|x' word].
  - destruct u; [|done]. rewrite string_app_nil_l.
    unfold then_boundary. simpl. by rewrite Hy, Hc.
  - apply IH; [done | lia | done | done].
Qed.

Lemma keyword_needs_its_end word t tail prev :
  word <> "" -> (String.length word < String.length t)%nat ->
  all_chars is_word t = true ->
  matches (LitI word) prev (String.append t tail) then_boundary = false.
Proof.
  intros Hne Hlen Hall.
  destruct (string_split_at (String.length word) t) as (u & rest & -> & Hu); [lia|].
  rewrite all_chars_app in Hall. apply andb_true_iff in Hall as [Hu_all Hrest].
  rewrite string_length_app in Hlen.
  destruct rest as [|c rest]; [simpl in Hlen; lia|].
  simpl in Hrest. apply andb_true_iff in Hrest as [Hc _].
  rewrite string_app_assoc, string_app_cons.
  by apply keyword_inside_a_word.
Qed.

Lemma matches_Alt_orb r1 r2 prev s k :
  matches (Alt r1 r2) prev s k = matches r1 prev s k || matches r2 prev s k.
Proof. simpl. by destruct (matches r1 prev s k). Qed.

Lemma keyword_pattern_at_start t tail prev :
  (7 <= String.length t)%nat -> all_chars is_word t = true ->
  matches keyword_pattern prev (String.append t tail) (fun _ _ => true) = false.
Proof.
  intros Hlen Hall. unfold keyword_pattern.
  change (matches (Seq WordBoundary ?r) ?p ?s ?k)
    with (if xorb (is_word_at p) (is_word_at (first_char s))
          then matches r p s k else false).
  destruct (xorb _ _); [|done].
  change (matches (Seq ?a WordBoundary) ?p ?s (fun _ _ => true))
    with (matches a p s then_boundary).
  change (any_of [?a; ?b; ?c; ?d; ?e; ?f; ?g])
    with (Alt a (Alt b (Alt c (Alt d (Alt e (Alt f g)))))).
  rewrite !matches_Alt_orb.
  rewrite !keyword_needs_its_end by (first [done | simpl; lia]).
  done.
Qed.

Lemma keyword_pattern_inside t tail prev :
  is_word_at prev = true -> all_chars is_word t = true ->
  tail = "" \/ tail = newline ->
  re_search_from keyword_pattern prev (String.append t tail) = false.
Proof.
  revert prev. induction t as [|c t IH]; intros prev Hprev Hall Htail.
  - rewrite string_app_nil_l. destruct prev as [p|]; [|done]. simpl in Hprev.
    destruct Htail as [-> | ->].
    + rewrite re_search_from_nil. unfold keyword_pattern.
      change (matches (Seq WordBoundary ?r) ?p ?s ?k)
        with (if xorb (is_word_at p) (is_word_at (first_char s))
              then matches r p s k else false).
      by destruct (xorb _ _).
    + unfold newline. rewrite re_search_from_cons, re_search_from_nil.
      unfold keyword_pattern.
      change (matches (Seq WordBoundary ?r) ?p ?s ?k)
        with (if xorb (is_word_at p) (is_word_at (first_char s))
              then matches r p s k else false).
      by destruct (xorb _ _).
  - simpl in Hall. apply andb_true_iff in Hall as [Hc Hall].
    rewrite string_app_cons, re_search_from_cons.
    replace (matches keyword_pattern prev (String c (String.append t tail))
               (fun _ _ => true)) with false; [by apply IH|].
    unfold keyword_pattern.
    change (matches (Seq WordBoundary ?r) ?p ?s ?k)
      with (if xorb (is_word_at p) (is_word_at (first_char s))
            then matches r p s k else false).
    simpl first_char. simpl is_word_at at 2. by rewrite Hprev, Hc.
Qed.

Lemma search_keyword t tail :
  (7 <= String.length t)%nat -> all_chars is_word t = true ->
  tail = "" \/ tail = newline ->
  re_search keyword_pattern (String.append t tail) = false.
Proof.
  intros Hlen Hall Htail. unfold re_search.
  destruct t as [|c t]; [simpl in Hlen; lia|].
  rewrite string_app_cons, re_search_from_cons, <- string_app_cons.
  rewrite keyword_pattern_at_start by done.
  simpl in Hall. apply andb_true_iff in Hall as [Hc Hall].
  by apply keyword_pattern_inside.
Qed.

Lemma accepted_address_body s :
  security_validate_bitcoin_address s = true ->
  exists body tail, s = String.append body tail /\
    address_shape body = true /\ (tail = "" \/ tail = newline).
Proof.
  unfold security_validate_bitcoin_address, address_shape. simpl.
  rewrite orb_false_r, !orb_true_iff, re_match_legacy, re_match_bech32,
    re_match_testnet.
  intros [H | [H | H]]; destruct H as (body & tail & -> & Hshape & Hend);
    exists body, tail; by rewrite Hshape, ?orb_true_r.
Qed.

(** X30.  What [validate_bitcoin_address] accepts, [check_sql_injection]
    lets through: an accepted address is never refused as an injection,
    so [validate_transaction_data] does not turn down a request for its
    output address once that address has passed. *)
Theorem accepted_address_passes_check_sql_injection (s : string) :
  security_validate_bitcoin_address s = true -> check_sql_injection s = true.
Proof.
  intros Hs. apply accepted_address_body in Hs as (body & tail & -> & Hshape & Htail).
  apply address_shape_word in Hshape as [Hall Hlen].
  assert (Hlower : lower (String.append body tail)
                   = String.append (lower body) tail).
  { rewrite lower_app. by destruct Htail as [-> | ->]. }
  assert (Hword : all_chars is_word (lower body) = true) by by apply all_chars_lower.
  assert (Hany : all_chars is_word_or_newline (String.append (lower body) tail)
                 = true).
  { rewrite all_chars_app. apply andb_true_iff. split.
    - apply (all_chars_impl is_word); [|done].
      intros c Hc. unfold is_word_or_newline. by rewrite Hc.
    - by destruct Htail as [-> | ->]. }
  unfold check_sql_injection, suspicious_patterns. rewrite Hlower. simpl existsb.
  unfold re_search at 2 3 4.
  destruct (search_punctuation_patterns None _ Hany) as [-> ->].
  rewrite (search_tautology None _ Hany).
  rewrite search_keyword; [done | rewrite length_lower; lia | done | done].
Qed.

Lemma accepted_address_passes_check_sql_injection_witness :
  security_validate_bitcoin_address "1BvBMSEYstWetqTFn5Au4m4GFg7xJaNVN2" = true /\
  check_sql_injection "1BvBMSEYstWetqTFn5Au4m4GFg7xJaNVN2" = true.
Proof.
  assert (H : security_validate_bitcoin_address
                "1BvBMSEYstWetqTFn5Au4m4GFg7xJaNVN2" = true)
    by (vm_compute; reflexivity).
  split; [exact H|].
  exact (accepted_address_passes_check_sql_injection _ H).
Defined.
